(** * TaleCanvas: the orchestration core of [app.py]

    A shallow embedding of the retry decorator [api_retry], the image batch
    dispatcher [generate_images_parallel], the pipeline controller
    [create_storybook], the repair path [regenerate_failed_images] and the
    quota-status query of [app.py], followed by the properties proved
    about them.

    Conventions.
    - A Python exception is represented by its text [str(e)].
    - The dictionaries that the code builds with a fixed set of keys (the
      result of a service call, a page entry, the cover entry, the
      storybook) are records; the keys that only carry a payload
      ([image_data], [model], [audio_url], ...) live in a [gmap] from key
      to [value].  Dictionaries used as maps ([results], [all_results],
      [audio_results], [regenerated_results]) are [gmap string result].
    - Remote services are oracles: the embedding is parameterised by what
      each call returns or raises.
    - A Python string is represented by its UTF-8 encoding; [str.lower]
      is modelled as far as it bears on a search for ASCII keywords,
      which is all the source does with its result.
    - [time.sleep] is a call to the system: the wrapper is parameterised
      by what each of its waits does. *)

From Stdlib Require Import ZArith Lia Bool Ascii Permutation.
From stdpp Require Import gmap strings list fin_maps pretty.

#[local] Set Warnings "-register-all,-clear-no-such-hyp".
#[local] Open Scope Z_scope.

(* ===================================================================== *)
(** * Part I: the embedding *)
(* ===================================================================== *)

(** ** Python values and strings *)

(** JSON-like Python values, as far as the code inspects them. *)
Inductive value :=
  | VNone
  | VBool (b : bool)
  | VInt (z : Z)
  | VStr (s : string)
  | VList (l : list value)
  | VDict (d : gmap string value).

(** [c.lower()] for one ASCII character. *)
Definition lower_ascii (c : ascii) : ascii :=
  let n := nat_of_ascii c in
  if (Nat.leb 65 n && Nat.leb n 90)%bool then ascii_of_nat (n + 32) else c.

(** [s.lower()] on the UTF-8 encoding of [s].  The ASCII capitals become
    small letters.  Two characters outside ASCII have a lower-case form
    that contains an ASCII letter: U+212A KELVIN SIGN (bytes 226 132 170)
    becomes [k], and U+0130 (bytes 196 176) becomes [i] followed by
    U+0307 (bytes 204 135).  Every other character outside ASCII has a
    lower-case form outside ASCII and is left as it is: the code only
    searches the result for ASCII keywords, which no such character can
    be part of. *)
Fixpoint lower (s : string) : string :=
  match s with
  | EmptyString => EmptyString
  | String "226" (String "132" (String "170" rest)) => String "k" (lower rest)
  | String "196" (String "176" rest) =>
      String "i" (String "204" (String "135" (lower rest)))
  | String c rest => String (lower_ascii c) (lower rest)
  end.

(** [kw in s]: substring test. *)
Fixpoint contains (kw s : string) : bool :=
  String.prefix kw s ||
  match s with
  | EmptyString => false
  | String _ rest => contains kw rest
  end.

(** [any(keyword in s for keyword in kws)]. *)
Definition any_keyword (kws : list string) (s : string) : bool :=
  existsb (fun kw => contains kw s) kws.

(** ** Results of service calls *)

(** A dictionary carrying a ['success'] key.  [error] and [error_type]
    are [None] when the key is absent and strings when it is present, as
    in every dictionary the source builds; [fields] holds the other
    keys. *)
Record result := mk_result {
  success : bool;
  error : option string;
  error_type : option string;
  fields : gmap string value
}.

(** [{"success": False, "error": msg}] *)
Definition failed (msg : string) : result :=
  mk_result false (Some msg) None ∅.

(** [{"success": False, "error": msg, "error_type": ty}] *)
Definition failed_typed (msg ty : string) : result :=
  mk_result false (Some msg) (Some ty) ∅.

(** [r.get(k, dflt)] on a payload key. *)
Definition get_field (r : result) (k : string) (dflt : value) : value :=
  default dflt (fields r !! k).

(** What a decorated function hands back: a dictionary with a
    ['success'] key, or anything else (a prompt string, say). *)
Inductive retval :=
  | RDict (r : result)
  | ROther (v : value).

(** One invocation either returns or raises [Exception(msg)]. *)
Inductive outcome (A : Type) :=
  | Returned (a : A)
  | Raised (msg : string).
Arguments Returned {A} a.
Arguments Raised {A} msg.

(** ** [api_retry] (app.py, lines 36-124) *)

Record retry_config := mk_retry_config {
  max_retries : Z;
  delay : Z;
  backoff : Z;
  jitter : bool;
  retry_on_quota : bool
}.

(** The defaults of the decorator's signature. *)
Definition default_config : retry_config := mk_retry_config 3 1 2 true true.

(** What the wrapper does that the outside can observe: calls of the
    wrapped function and sleeps that it got through.  [Sleep] carries the
    base wait [delay * backoff ** attempt]; the jitter of at most 10%
    that [random.uniform] may add to it is not represented. *)
Inductive event :=
  | Invoke (attempt : nat)
  | Sleep (base_wait : Z).

(** The two waits of the wrapper: lines 84-91, inside the [try], after a
    returned failure; lines 109-115, inside the handler, after an
    exception. *)
Inductive sleep_site := InTry | InHandler.

(** [time.sleep] on a wait whose base is [wait], in seconds: the text of
    what it raises, [None] when it returns.  A negative wait raises
    [ValueError]; a wait beyond the range of the clock (2^63 nanoseconds)
    raises [OverflowError].  The jitter lies between 0 and a tenth of the
    base wait and has its sign: it bears on the outcome only for a base
    wait within a tenth of the range of the clock. *)
Definition time_sleep (wait : Z) : option string :=
  if (wait <? -9223372036) || (9223372036 <? wait)
  then Some "timestamp too large to convert to C _PyTime_t"
  else if wait <? 0 then Some "sleep length must be non-negative"
  else None.

(** Keyword list of the returned-failure branch (line 68). *)
Definition result_keywords : list string :=
  ["timeout"; "network"; "connection"; "temporary"; "server error"; "5"].

(** Keyword list of the exception branch (lines 101-104). *)
Definition exception_keywords : list string :=
  ["timeout"; "network"; "connection"; "temporary";
   "server error"; "service unavailable"; "bad gateway"].

(** Lines 61-77: the retry decision for a returned failure. *)
Definition result_should_retry (cfg : retry_config) (r : result) : bool :=
  let error_msg := lower (default "" (error r)) in
  let error_ty := default "" (error_type r) in
  if any_keyword result_keywords error_msg then true
  else if contains "quota" error_msg || String.eqb error_ty "quota_exhausted"
  then retry_on_quota cfg
  else if contains "json" error_msg || contains "parse" error_msg then true
  else false.

(** Lines 98-104: the retry decision for an exception. *)
Definition exception_should_retry (msg : string) : bool :=
  any_keyword exception_keywords (lower msg).

(** [delay * (backoff ** attempt)] *)
Definition wait_time (cfg : retry_config) (attempt : nat) : Z :=
  delay cfg * backoff cfg ^ Z.of_nat attempt.

(** [attempt >= max_retries] *)
Definition last_attempt (cfg : retry_config) (attempt : nat) : bool :=
  max_retries cfg <=? Z.of_nat attempt.

(** [range(max_retries + 1)] *)
Definition attempts (cfg : retry_config) : list nat :=
  seq 0 (Z.to_nat (max_retries cfg + 1)).

(** [{"success": False, "error": "所有重试都失败了"}] (line 121) *)
Definition all_retries_failed : result := failed "所有重试都失败了".

(** The waits of a configuration when nothing but [time.sleep] can fail
    in them. *)
Definition sleeps (cfg : retry_config) (attempt : nat) (site : sleep_site)
    : option string :=
  time_sleep (wait_time cfg attempt).

(** The handler of lines 96-115 for the exception [e] caught at
    [attempt]: the exception that leaves the wrapper, or [None] when the
    handler has slept and the loop goes on.  [sleep attempt site] is the
    text of what the wait at that site raises (the computation of the
    wait, the message printed, [time.sleep] itself), [None] when the wait
    is got through.  What the wait of the handler raises leaves the
    wrapper. *)
Definition handler (cfg : retry_config)
    (sleep : nat -> sleep_site -> option string) (attempt : nat) (e : string)
    : option string :=
  if negb (exception_should_retry e) || last_attempt cfg attempt then Some e
  else sleep attempt InHandler.

(** The body of [wrapper]: the [for] loop over the remaining attempts,
    then lines 118-121.  [func n] is what the wrapped function does when
    it is called at attempt [n].  The wait after a returned failure is
    inside the [try]: what it raises is caught at line 96 and handled as
    an exception of the attempt. *)
Fixpoint wrapper_loop (cfg : retry_config) (func : nat -> outcome retval)
    (sleep : nat -> sleep_site -> option string)
    (rng : list nat) (last_exception : option string)
    : outcome retval * list event :=
  match rng with
  | [] =>
      (match last_exception with
       | Some e => Raised e
       | None => Returned (RDict all_retries_failed)
       end, [])
  | attempt :: rest =>
      match func attempt with
      | Returned (RDict r) =>
          if success r then (Returned (RDict r), [Invoke attempt])
          else if negb (result_should_retry cfg r) || last_attempt cfg attempt
          then (Returned (RDict r), [Invoke attempt])
          else
            match sleep attempt InTry with
            | None =>
                let '(o, tr) := wrapper_loop cfg func sleep rest last_exception in
                (o, Invoke attempt :: Sleep (wait_time cfg attempt) :: tr)
            | Some e =>
                match handler cfg sleep attempt e with
                | Some e' => (Raised e', [Invoke attempt])
                | None =>
                    let '(o, tr) := wrapper_loop cfg func sleep rest (Some e) in
                    (o, Invoke attempt :: Sleep (wait_time cfg attempt) :: tr)
                end
            end
      | Returned (ROther v) => (Returned (ROther v), [Invoke attempt])
      | Raised e =>
          match handler cfg sleep attempt e with
          | Some e' => (Raised e', [Invoke attempt])
          | None =>
              let '(o, tr) := wrapper_loop cfg func sleep rest (Some e) in
              (o, Invoke attempt :: Sleep (wait_time cfg attempt) :: tr)
          end
      end
  end.

(** One call of a function decorated with [api_retry]. *)
Definition api_retry (cfg : retry_config) (func : nat -> outcome retval)
    (sleep : nat -> sleep_site -> option string)
    : outcome retval * list event :=
  wrapper_loop cfg func sleep (attempts cfg) None.

(** Number of times the wrapped function was called. *)
Fixpoint invocations (tr : list event) : nat :=
  match tr with
  | [] => 0
  | Invoke _ :: tr => S (invocations tr)
  | Sleep _ :: tr => invocations tr
  end.

(** Number of sleeps, that is of retries. *)
Fixpoint retries (tr : list event) : nat :=
  match tr with
  | [] => 0
  | Invoke _ :: tr => retries tr
  | Sleep _ :: tr => S (retries tr)
  end.

(** The first invocation succeeds: it returns a dictionary whose
    ['success'] is true, or a value without that key, which the wrapper
    hands back unexamined. *)
Definition succeeds (o : outcome retval) : bool :=
  match o with
  | Returned (RDict r) => success r
  | Returned (ROther _) => true
  | Raised _ => false
  end.

(** The error kinds of the specification (section 4.1), and its
    classifier as worded there.  The source has no such function: its
    two inline decisions are [result_should_retry] and
    [exception_should_retry] above.  [spec_classify] exists only to
    state which failures the specification calls Transient,
    QuotaExhausted, MalformedResponse or Fatal. *)
Inductive error_kind := Transient | QuotaExhausted | MalformedResponse | Fatal.

Definition is_digit (c : ascii) : bool :=
  let n := nat_of_ascii c in (Nat.leb 48 n && Nat.leb n 57)%bool.

(** A status of the form 5xx: the digit 5 followed by two digits. *)
Fixpoint has_5xx_status (s : string) : bool :=
  match s with
  | String "5"%char (String a (String b _) as rest1) =>
      (is_digit a && is_digit b) || has_5xx_status rest1
  | String _ rest => has_5xx_status rest
  | EmptyString => false
  end.

Definition spec_classify (msg : string) (ty : option string) : error_kind :=
  let m := lower msg in
  if any_keyword exception_keywords m || has_5xx_status m then Transient
  else if contains "quota" m || String.eqb (default "" ty) "quota_exhausted"
  then QuotaExhausted
  else if contains "json" m || contains "parse" m then MalformedResponse
  else Fatal.

(** ** [generate_images_parallel] (app.py, lines 932-984) *)

(** One [prompt_info] tuple: [(key, prompt, page_number, is_cover)]. *)
Record task := mk_task {
  t_key : string;
  t_prompt : string;
  t_page : Z;
  t_cover : bool
}.

(** What [self.generate_image_gemini(prompt, page_number, is_cover)]
    does for a task: after [took] seconds it returns a result or raises.
    The image service is an oracle of this type. *)
Record work := mk_work {
  took : Z;
  gave : outcome result
}.

(** The timeout written at line 970, in seconds. *)
Definition image_timeout : Z := 180.

(** Lines 943-947: the result synthesised for a task that starts when
    the flag is already set. *)
Definition skipped : result :=
  failed_typed "跳过生成：配额已用完" "quota_exhausted".

(** Line 953: [not result["success"] and
    result.get("error_type") == "quota_exhausted"]. *)
Definition reports_quota (r : result) : bool :=
  negb (success r) &&
  match error_type r with
  | Some ty => String.eqb ty "quota_exhausted"
  | None => false
  end.

Definition outcome_reports_quota (o : outcome result) : bool :=
  match o with
  | Returned r => reports_quota r
  | Raised _ => false
  end.

(** The state of one batch.
    - [quota_exhausted] is the [nonlocal] flag of line 935, shared by all
      tasks of the batch and by the collecting loop.
    - [pending] is the executor's queue of futures not yet started, in
      submission order; [running] the tasks inside
      [generate_image_gemini], each with the time it started at;
      [finished] the futures that are done and that [as_completed] has
      not yet handed to the loop, each with what
      [generate_single_image] returned or raised.  The key that
      [generate_single_image] returns is the task's own, so only the
      result is kept.
    - [results] is the dictionary of line 934; [collecting] tells
      whether the loop of line 968 is still iterating.
    - [invoked] lists the keys for which [generate_image_gemini] was
      called; [clock] is the time elapsed, in seconds. *)
Record pool := mk_pool {
  quota_exhausted : bool;
  pending : list task;
  running : list (task * Z);
  finished : list (task * outcome result);
  results : gmap string result;
  collecting : bool;
  invoked : list string;
  clock : Z
}.

(** The scheduler's choices: a free worker thread takes the next queued
    task; the [i]-th running call comes back; the loop receives the
    [i]-th finished future from [as_completed]. *)
Inductive action :=
  | Start
  | Finish (i : nat)
  | Collect (i : nat).

(** Lines 960-965: every task is submitted; nothing has started. *)
Definition submit_all (prompts_data : list task) : pool :=
  mk_pool false prompts_data [] [] ∅ true [] 0.

(** A worker thread enters [generate_single_image] (lines 939-950): with
    the flag set it returns the synthesised result at once, otherwise it
    calls the image service. *)
Definition start (max_workers : nat) (p : pool) : option pool :=
  match pending p with
  | [] => None
  | t :: queue =>
      if Nat.ltb (length (running p)) max_workers then
        if quota_exhausted p then
          Some (mk_pool (quota_exhausted p) queue (running p)
                  (finished p ++ [(t, Returned skipped)])
                  (results p) (collecting p) (invoked p) (clock p))
        else
          Some (mk_pool (quota_exhausted p) queue
                  (running p ++ [(t, clock p)]) (finished p)
                  (results p) (collecting p)
                  (invoked p ++ [t_key t]) (clock p))
      else None
  end.

(** The call of the [i]-th running task comes back (lines 950-957): a
    returned quota failure sets the flag; an exception leaves
    [generate_single_image] and becomes the future's exception. *)
Definition finish (worker : task -> work) (i : nat) (p : pool) : option pool :=
  match running p !! i with
  | None => None
  | Some (t, started) =>
      let w := worker t in
      Some (mk_pool (quota_exhausted p || outcome_reports_quota (gave w))
              (pending p) (delete i (running p))
              (finished p ++ [(t, gave w)])
              (results p) (collecting p) (invoked p)
              (Z.max (clock p) (started + took w)))
  end.

(** One iteration of the loop of lines 968-982 on the [i]-th finished
    future.  [as_completed] yields a future only once it is done, so
    [future.result(timeout=180)] returns or re-raises at once.  After a
    returned result the loop reads the flag; when it is set, the futures
    that are not done are cancelled (the queued ones leave the queue, the
    running ones are not affected) and the loop is left. *)
Definition collect (i : nat) (p : pool) : option pool :=
  if collecting p then
    match finished p !! i with
    | None => None
    | Some (t, Returned r) =>
        if quota_exhausted p then
          Some (mk_pool (quota_exhausted p) [] (running p)
                  (delete i (finished p))
                  (<[t_key t := r]> (results p)) false (invoked p) (clock p))
        else
          Some (mk_pool (quota_exhausted p) (pending p) (running p)
                  (delete i (finished p))
                  (<[t_key t := r]> (results p)) true (invoked p) (clock p))
    | Some (t, Raised msg) =>
        Some (mk_pool (quota_exhausted p) (pending p) (running p)
                (delete i (finished p))
                (<[t_key t := failed msg]> (results p)) true
                (invoked p) (clock p))
    end
  else None.

Definition do_action (max_workers : nat) (worker : task -> work)
    (a : action) (p : pool) : option pool :=
  match a with
  | Start => start max_workers p
  | Finish i => finish worker i p
  | Collect i => collect i p
  end.

(** A schedule is a sequence of choices; [run] is [None] when one of
    them is not possible in the state it is made in. *)
Fixpoint run (max_workers : nat) (worker : task -> work)
    (sched : list action) (p : pool) : option pool :=
  match sched with
  | [] => Some p
  | a :: rest =>
      match do_action max_workers worker a p with
      | Some p' => run max_workers worker rest p'
      | None => None
      end
  end.

(** The function returns (line 984) once the loop is over, by exhaustion
    or by [break], and the [with] block has waited for the calls still
    running. *)
Definition returned (p : pool) : bool :=
  match pending p, running p with
  | [], [] => negb (collecting p) || match finished p with [] => true | _ => false end
  | _, _ => false
  end.

(** [res] is a possible value of
    [generate_images_parallel(prompts_data, max_concurrent)]. *)
Definition generate_images_parallel (max_concurrent : nat)
    (worker : task -> work) (prompts_data : list task)
    (res : gmap string result) : Prop :=
  exists sched p,
    run max_concurrent worker sched (submit_all prompts_data) = Some p /\
    returned p = true /\ results p = res.

(** The keys submitted. *)
Definition keys (prompts_data : list task) : gset string :=
  list_to_set (t_key <$> prompts_data).

(** The tasks still inside the executor. *)
Definition live (p : pool) : list task :=
  pending p ++ (running p).*1 ++ (finished p).*1.

(** What remains to be done: bounds the length of every schedule. *)
Definition remaining (p : pool) : nat :=
  3 * length (pending p) + 2 * length (running p) + length (finished p).

(** The keys the batch still accounts for: those of the tasks inside the
    executor and those already recorded. *)
Definition accounted (p : pool) : gset string :=
  list_to_set (t_key <$> live p) ∪ dom (results p).

(** What may be recorded for a task: the synthesised result (only in a
    batch whose flag is set), what the image service returned, or the
    text of what it raised. *)
Definition recordable (worker : task -> work) (flag : bool)
    (t : task) (r : result) : Prop :=
  (r = skipped /\ flag = true) \/
  gave (worker t) = Returned r \/
  exists msg, gave (worker t) = Raised msg /\ r = failed msg.

(** What the loop records for a future that carries [o]. *)
Definition record_of (o : outcome result) : result :=
  match o with
  | Returned r => r
  | Raised msg => failed msg
  end.

(** The bookkeeping that every reachable state of a batch over
    [prompts_data] satisfies. *)
Definition well_accounted (worker : task -> work) (prompts_data : list task)
    (p : pool) : Prop :=
  (forall t, t ∈ live p -> t ∈ prompts_data) /\
  (forall t o, (t, o) ∈ finished p ->
     (o = Returned skipped /\ quota_exhausted p = true) \/ o = gave (worker t)) /\
  (forall k r, results p !! k = Some r ->
     exists t, t ∈ prompts_data /\ t_key t = k /\
               recordable worker (quota_exhausted p) t r) /\
  (collecting p = true -> accounted p = keys prompts_data) /\
  (collecting p = false -> quota_exhausted p = true) /\
  (quota_exhausted p = true ->
     exists t, t ∈ prompts_data /\ outcome_reports_quota (gave (worker t)) = true).

(** ** The storybook (app.py, lines 1073-1083, 1137-1168) *)

(** One element of [storybook_data["pages"]]. *)
Module Page.
Record t := mk {
  page_number : Z;
  text : value;
  image_prompt : string;
  image_data : value;
  image_url : value;
  success : bool;
  seed : value;
  model : value;
  audio_url : value;
  audio_duration : value;
  audio_success : bool
}.
End Page.

(** [storybook_data["cover"]]. *)
Module Cover.
Record t := mk {
  image_prompt : string;
  image_data : value;
  image_url : value;
  success : bool;
  seed : value;
  model : value;
  audio_url : value;
  audio_duration : value;
  audio_success : bool
}.
End Cover.

(** [storybook_data] as it is when [create_storybook] returns it. *)
Record storybook := mk_storybook {
  id : value;
  theme : string;
  main_character : string;
  setting : string;
  story_structure : gmap string value;
  character_desc : value;
  scene_desc : value;
  created_at : string;
  pages : list Page.t;
  cover : Cover.t
}.

(** [generation_stats] (lines 1177-1182). *)
Module Stats.
Record t := mk {
  total_images : nat;
  successful_images : nat;
  failed_images : Z;
  quota_exhausted : bool
}.
End Stats.

(** The attributes of the [StoryBookGenerator] instance that the code
    assigns (lines 295-310 and 1051-1056, 1170).  [logger_instance] is
    represented by the folder of the session it logs to. *)
Module Generator.
Record t := mk {
  current_storybook : option storybook;
  logger_instance : option string;
  genai_client : bool;
  quota_exhausted : bool;
  last_quota_check : value;
  style_seed : value;
  character_reference : value
}.
End Generator.

(** [StoryBookGenerator.__init__]; [client] tells whether a Gemini key
    is configured. *)
Definition init_generator (client : bool) : Generator.t :=
  Generator.mk None None client false VNone VNone VNone.

(** [f"page_{page_number}"] *)
Definition page_key (page_number : Z) : string := "page_" +:+ pretty page_number.

(** ** [generate_all_prompts_parallel] (lines 986-1046) *)

(** One tuple of [prompt_tasks]: [(key, page_text, page_number, is_cover)]. *)
Record prompt_task := mk_prompt_task {
  pt_key : string;
  pt_text : value;
  pt_page : Z;
  pt_cover : bool
}.

(** Lines 1009-1017. *)
Definition prompt_tasks (pgs : list value) : list prompt_task :=
  imap (fun i page_text =>
          mk_prompt_task (page_key (Z.of_nat i + 1)) page_text (Z.of_nat i + 1) false)
       pgs
  ++ [mk_prompt_task "cover" (VStr "封面") 0 true].

(** The services one run of [create_storybook] talks to.
    - [gen_structure] is what [generate_story_structure(theme,
      main_character, setting)] returns or raises; [gen_pages] the same
      for [generate_story_pages(story_structure)].
    - [prompt_order] is the order in which the futures of the prompt
      batch complete and [prompt_for] the prompt each task ends with,
      generated or default: every future contributes one tuple, at line
      1034 or at line 1043.
    - [image_batch] and [audio_batch] are what
      [generate_images_parallel(prompts_data, 5)] and
      [generate_audio_parallel(pages, story_structure)] return.
    - [session_folder] and [now] are the folder of the logging session
      and [datetime.now().isoformat()]. *)
Record services := mk_services {
  gen_structure : outcome result;
  gen_pages : value -> outcome result;
  prompt_order : list prompt_task -> list prompt_task;
  prompt_for : prompt_task -> string;
  image_batch : list task -> gmap string result;
  audio_batch : list value -> gmap string value -> gmap string result;
  session_folder : string;
  now : string
}.

Definition generate_all_prompts_parallel (env : services) (pgs : list value)
    : list task :=
  (fun pt => mk_task (pt_key pt) (prompt_for env pt) (pt_page pt) (pt_cover pt))
    <$> prompt_order env (prompt_tasks pgs).

(** ** [create_storybook] (lines 1048-1189) *)

(** The calls that [create_storybook] makes, in order. *)
Inductive stage :=
  | StructureCall
  | PagesCall
  | PromptBatch
  | ImageBatch
  | AudioBatch.

(** What [create_storybook] returns: the failed result of a stage, or
    the storybook with its statistics. *)
Inductive run_result :=
  | StageFailed (r : result)
  | Completed (sb : storybook) (stats : Stats.t).

(** [structure.get(k, {}).get("description", dflt)] (lines 1079-1080):
    an [AttributeError] when the value under [k] is not a dictionary. *)
Definition nested_description (structure : gmap string value) (k : string)
    (dflt : value) : outcome value :=
  match structure !! k with
  | None => Returned dflt
  | Some (VDict d) => Returned (default dflt (d !! "description"))
  | Some _ => Raised "AttributeError: object has no attribute 'get'"
  end.

(** [desc or ""] *)
Definition or_empty (desc : option string) : value := VStr (default "" desc).

(** The defaults of lines 1134-1135 and 1154-1155. *)
Definition image_missing : result := failed "Generation failed".
Definition audio_missing : result := failed "Audio generation failed".
Definition cover_missing : result := failed "Cover generation failed".

(** One iteration of the loop of lines 1131-1151; [None] stands for the
    [IndexError] of [prompts_data[i]]. *)
Definition build_page (prompts_data : list task)
    (all_results audio_results : gmap string result)
    (i : nat) (page_text : value) : option Page.t :=
  let page_number := Z.of_nat i + 1 in
  let key := page_key page_number in
  let image_result := default image_missing (all_results !! key) in
  let audio_result := default audio_missing (audio_results !! key) in
  match prompts_data !! i with
  | None => None
  | Some pd =>
      Some (Page.mk page_number page_text (t_prompt pd)
              (get_field image_result "image_data" (VStr ""))
              (get_field image_result "image_url" (VStr ""))
              (success image_result)
              (get_field image_result "seed" (VStr ""))
              (get_field image_result "model" (VStr "midjourney"))
              (if success audio_result
               then get_field audio_result "audio_url" (VStr "") else VStr "")
              (if success audio_result
               then get_field audio_result "duration" (VInt 0) else VInt 0)
              (success audio_result))
  end.

(** The loop of lines 1131-1151, from index [i] on. *)
Fixpoint build_pages_from (prompts_data : list task)
    (all_results audio_results : gmap string result)
    (i : nat) (pgs : list value) : option (list Page.t) :=
  match pgs with
  | [] => Some []
  | page_text :: rest =>
      match build_page prompts_data all_results audio_results i page_text with
      | None => None
      | Some page_data =>
          match build_pages_from prompts_data all_results audio_results (S i) rest with
          | None => None
          | Some entries => Some (page_data :: entries)
          end
      end
  end.

Definition build_pages (prompts_data : list task)
    (all_results audio_results : gmap string result)
    (pgs : list value) : option (list Page.t) :=
  build_pages_from prompts_data all_results audio_results 0 pgs.

Definition default_cover_prompt : string :=
  "scene magical storybook setting subjects friendly character in engaging pose style A painterly gouache illustration for a children's book cover. No text, no words, no letters, no Chinese characters, no English text in the image. Child-safe content only, no violence, no blood, no scary elements.".

(** Line 1157: the prompt of the first tuple whose [is_cover] is set. *)
Fixpoint cover_prompt_of (prompts_data : list task) : string :=
  match prompts_data with
  | [] => default_cover_prompt
  | pd :: rest => if t_cover pd then t_prompt pd else cover_prompt_of rest
  end.

(** Lines 1154-1168. *)
Definition build_cover (prompts_data : list task)
    (all_results audio_results : gmap string result) : Cover.t :=
  let cover_result := default cover_missing (all_results !! "cover") in
  let cover_audio := default audio_missing (audio_results !! "cover") in
  Cover.mk (cover_prompt_of prompts_data)
    (get_field cover_result "image_data" (VStr ""))
    (get_field cover_result "image_url" (VStr ""))
    (success cover_result)
    (get_field cover_result "seed" (VStr ""))
    (get_field cover_result "model" (VStr "midjourney"))
    (if success cover_audio
     then get_field cover_audio "audio_url" (VStr "") else VStr "")
    (if success cover_audio
     then get_field cover_audio "duration" (VInt 0) else VInt 0)
    (success cover_audio).

(** Line 1181: [result.get("error_type") == "quota_exhausted"]. *)
Definition quota_typed (r : result) : bool :=
  match error_type r with
  | Some ty => String.eqb ty "quota_exhausted"
  | None => false
  end.

(** Lines 1107-1108 and 1177-1182. *)
Definition generation_stats (all_results : gmap string result) : Stats.t :=
  let total_images := size all_results in
  let successful_images :=
    length (List.filter success (map_to_list all_results).*2) in
  Stats.mk total_images successful_images
    (Z.of_nat total_images - Z.of_nat successful_images)
    (existsb quota_typed (map_to_list all_results).*2).

(** The arguments of one call. *)
Record request := mk_request {
  req_theme : string;
  req_main_character : string;
  req_setting : string;
  req_character_desc : option string;
  req_scene_desc : option string
}.

(** Lines 1051-1056: the attributes assigned before the first stage. *)
Definition begin_session (g : Generator.t) (env : services) : Generator.t :=
  Generator.mk (Generator.current_storybook g) (Some (session_folder env))
    (Generator.genai_client g) (Generator.quota_exhausted g)
    (Generator.last_quota_check g) VNone VNone.

(** Line 1170. *)
Definition set_current (g : Generator.t) (sb : storybook) : Generator.t :=
  Generator.mk (Some sb) (Generator.logger_instance g)
    (Generator.genai_client g) (Generator.quota_exhausted g)
    (Generator.last_quota_check g) (Generator.style_seed g)
    (Generator.character_reference g).

(** Lines 1072-1189, once both primary stages have succeeded:
    [structure] is [structure_result["structure"]] and [pages_result]
    the successful result of the page stage. *)
Definition media_and_assembly (g : Generator.t) (req : request) (env : services)
    (structure : value) (pages_result : result)
    : outcome run_result * list stage * Generator.t :=
  match fields pages_result !! "pages", fields pages_result !! "story_id" with
  | None, _ => (Raised "KeyError: 'pages'", [], g)
  | Some _, None => (Raised "KeyError: 'story_id'", [], g)
  | Some pgs_value, Some story_id =>
      match structure with
      | VDict st =>
          match nested_description st "main_character"
                  (or_empty (req_character_desc req)) with
          | Raised msg => (Raised msg, [], g)
          | Returned character_desc =>
              match nested_description st "setting"
                      (or_empty (req_scene_desc req)) with
              | Raised msg => (Raised msg, [], g)
              | Returned scene_desc =>
                  match pgs_value with
                  | VList pgs =>
                      let prompts_data := generate_all_prompts_parallel env pgs in
                      let all_results := image_batch env prompts_data in
                      let audio_results := audio_batch env pgs st in
                      match build_pages prompts_data all_results audio_results pgs with
                      | None =>
                          (Raised "IndexError: list index out of range",
                           [PromptBatch; ImageBatch; AudioBatch], g)
                      | Some entries =>
                          let sb :=
                            mk_storybook story_id (req_theme req)
                              (req_main_character req) (req_setting req)
                              st character_desc scene_desc (now env) entries
                              (build_cover prompts_data all_results audio_results) in
                          (Returned (Completed sb (generation_stats all_results)),
                           [PromptBatch; ImageBatch; AudioBatch],
                           set_current g sb)
                      end
                  | _ => (Raised "TypeError: pages is not a list", [], g)
                  end
              end
          end
      | _ => (Raised "AttributeError: object has no attribute 'get'", [], g)
      end
  end.

(** [create_storybook]: the result or the exception, the calls made,
    and the generator afterwards. *)
Definition create_storybook (g : Generator.t) (req : request) (env : services)
    : outcome run_result * list stage * Generator.t :=
  let g1 := begin_session g env in
  match gen_structure env with
  | Raised msg => (Raised msg, [StructureCall], g1)
  | Returned structure_result =>
      if negb (success structure_result)
      then (Returned (StageFailed structure_result), [StructureCall], g1)
      else
        match fields structure_result !! "structure" with
        | None => (Raised "KeyError: 'structure'", [StructureCall], g1)
        | Some structure =>
            match gen_pages env structure with
            | Raised msg => (Raised msg, [StructureCall; PagesCall], g1)
            | Returned pages_result =>
                if negb (success pages_result)
                then (Returned (StageFailed pages_result),
                      [StructureCall; PagesCall], g1)
                else
                  let '(o, tr, g2) :=
                    media_and_assembly g1 req env structure pages_result in
                  (o, StructureCall :: PagesCall :: tr, g2)
            end
        end
  end.

(** ** [regenerate_failed_images] (lines 1191-1277) *)

(** One element of [pages_to_regenerate]. *)
Record page_info := mk_page_info {
  pi_key : string;
  pi_page_number : Z;
  pi_text : value;
  pi_is_cover : bool
}.

(** The services the repair path talks to: [regen_prompt] is what
    [generate_detailed_cover_prompt] or [generate_detailed_image_prompt]
    returns or raises for an entry, [regen_image] the same for
    [generate_image_gemini] on the prompt obtained. *)
Record regen_services := mk_regen_services {
  regen_prompt : page_info -> outcome string;
  regen_image : page_info -> string -> outcome result
}.

(** The calls of the repair path, in order. *)
Inductive regen_call :=
  | PromptCall (key : string)
  | ImageCall (key : string).

(** [failed_page_numbers is None or page_number in failed_page_numbers] *)
Definition selected (failed_page_numbers : option (list Z)) (page_number : Z) : bool :=
  match failed_page_numbers with
  | None => true
  | Some l => bool_decide (page_number ∈ l)
  end.

(** Lines 1202-1223. *)
Definition pages_to_regenerate (sb : storybook)
    (failed_page_numbers : option (list Z)) : list page_info :=
  omap (fun page =>
          if negb (Page.success page)
             && selected failed_page_numbers (Page.page_number page)
          then Some (mk_page_info (page_key (Page.page_number page))
                       (Page.page_number page) (Page.text page) false)
          else None)
       (pages sb)
  ++ (if negb (Cover.success (cover sb)) && selected failed_page_numbers 0
      then [mk_page_info "cover" 0 (VStr "封面") true]
      else []).

(** The loop of lines 1232-1241: one entry after the other, the prompt
    first and the image next; an exception ends the loop and the
    function. *)
Fixpoint regenerate_loop (svc : regen_services) (todo : list page_info)
    (regenerated_results : gmap string result)
    : outcome (gmap string result) * list regen_call :=
  match todo with
  | [] => (Returned regenerated_results, [])
  | info :: rest =>
      match regen_prompt svc info with
      | Raised msg => (Raised msg, [PromptCall (pi_key info)])
      | Returned prompt =>
          match regen_image svc info prompt with
          | Raised msg =>
              (Raised msg, [PromptCall (pi_key info); ImageCall (pi_key info)])
          | Returned r =>
              let '(o, tr) :=
                regenerate_loop svc rest (<[pi_key info := r]> regenerated_results) in
              (o, PromptCall (pi_key info) :: ImageCall (pi_key info) :: tr)
          end
      end
  end.

(** Lines 1263-1267: [page.update({...})]. *)
Definition update_page (page : Page.t) (r : result) : Page.t :=
  Page.mk (Page.page_number page) (Page.text page) (Page.image_prompt page)
    (get_field r "image_data" (VStr "")) (Page.image_url page) true
    (Page.seed page) (get_field r "model" (VStr "gemini-imagen"))
    (Page.audio_url page) (Page.audio_duration page) (Page.audio_success page).

(** Lines 1254-1258: [storybook_data["cover"].update({...})]. *)
Definition update_cover (c : Cover.t) (r : result) : Cover.t :=
  Cover.mk (Cover.image_prompt c)
    (get_field r "image_data" (VStr "")) (Cover.image_url c) true
    (Cover.seed c) (get_field r "model" (VStr "gemini-imagen"))
    (Cover.audio_url c) (Cover.audio_duration c) (Cover.audio_success c).

(** Lines 1261-1268: the first page carrying the number is updated. *)
Fixpoint update_first (page_number : Z) (r : result) (l : list Page.t)
    : list Page.t :=
  match l with
  | [] => []
  | page :: rest =>
      if Z.eqb (Page.page_number page) page_number
      then update_page page r :: rest
      else page :: update_first page_number r rest
  end.

Definition set_pages (sb : storybook) (l : list Page.t) : storybook :=
  mk_storybook (id sb) (theme sb) (main_character sb) (setting sb)
    (story_structure sb) (character_desc sb) (scene_desc sb) (created_at sb)
    l (cover sb).

Definition set_cover (sb : storybook) (c : Cover.t) : storybook :=
  mk_storybook (id sb) (theme sb) (main_character sb) (setting sb)
    (story_structure sb) (character_desc sb) (scene_desc sb) (created_at sb)
    (pages sb) c.

(** The loop of lines 1244-1268 on the storybook, which is updated in
    place; the second component counts the successful regenerations.
    [None] stands for the [KeyError] of [regenerated_results[key]]. *)
Fixpoint apply_results (regenerated_results : gmap string result)
    (todo : list page_info) (sb : storybook) (successful : nat)
    : option (storybook * nat) :=
  match todo with
  | [] => Some (sb, successful)
  | info :: rest =>
      match regenerated_results !! pi_key info with
      | None => None
      | Some r =>
          if success r then
            if pi_is_cover info
            then apply_results regenerated_results rest
                   (set_cover sb (update_cover (cover sb) r)) (S successful)
            else apply_results regenerated_results rest
                   (set_pages sb (update_first (pi_page_number info) r (pages sb)))
                   (S successful)
          else apply_results regenerated_results rest sb successful
      end
  end.

(** What [regenerate_failed_images] returns. *)
Inductive regen_result :=
  | RegenError (msg : string)
  | NothingToRegenerate
  | Regenerated (regenerated total_attempted : nat).

(** [regenerate_failed_images(storybook_data, failed_page_numbers)]: the
    result or the exception, the storybook afterwards (the argument is
    updated in place), and the calls made.  The storybook of the model
    always has its keys, so that the test of line 1193 never fires. *)
Definition regenerate_failed_images (svc : regen_services) (sb : storybook)
    (failed_page_numbers : option (list Z))
    : outcome regen_result * storybook * list regen_call :=
  if bool_decide (story_structure sb = ∅)
  then (Returned (RegenError "缺少故事结构信息"), sb, [])
  else
    let todo := pages_to_regenerate sb failed_page_numbers in
    match todo with
    | [] => (Returned NothingToRegenerate, sb, [])
    | _ =>
        match regenerate_loop svc todo ∅ with
        | (Raised msg, tr) => (Raised msg, sb, tr)
        | (Returned regenerated_results, tr) =>
            match apply_results regenerated_results todo sb 0 with
            | None => (Raised "KeyError", sb, tr)
            | Some (sb', successful) =>
                (Returned (Regenerated successful (length todo)), sb', tr)
            end
        end
    end.

(** An entry after the update loop is the entry before it, or its
    update by a successful result regenerated for its number. *)
Definition changed_by (todo : list page_info) (e e' : Page.t) : Prop :=
  e' = e \/
  exists info r,
    info ∈ todo /\ pi_is_cover info = false /\
    pi_page_number info = Page.page_number e /\
    success r = true /\ e' = update_page e r.

(** The calls of one pass over [todo], an entry at a time. *)
Definition sequential_calls (todo : list page_info) : list regen_call :=
  flat_map (fun info => [PromptCall (pi_key info); ImageCall (pi_key info)]) todo.

(** ** The operations on the generator *)

(** [api_regenerate_images] (lines 1934-1956) on the generator: without
    a current storybook nothing happens; otherwise the current storybook
    is the object that [regenerate_failed_images] updates. *)
Definition api_regenerate_images (svc : regen_services)
    (failed_pages : option (list Z)) (g : Generator.t) : Generator.t :=
  match Generator.current_storybook g with
  | None => g
  | Some sb => set_current g (regenerate_failed_images svc sb failed_pages).1.2
  end.

(** The requests that reach the generator.  [Other] stands for the
    operations that assign no attribute: [analyze_user_input],
    [text_to_speech], [export_to_pdf], the queries. *)
Inductive operation :=
  | CreateStorybook (req : request) (env : services)
  | RegenerateImages (svc : regen_services) (failed_pages : option (list Z))
  | Other.

Definition apply_operation (g : Generator.t) (op : operation) : Generator.t :=
  match op with
  | CreateStorybook req env => (create_storybook g req env).2
  | RegenerateImages svc failed_pages => api_regenerate_images svc failed_pages g
  | Other => g
  end.

(** The pages of the current storybook, if there is one, carry distinct
    numbers. *)
Definition distinct_pages (g : Generator.t) : Prop :=
  forall sb, Generator.current_storybook g = Some sb ->
    NoDup (Page.page_number <$> pages sb).

(** [quota_status] of [api_check_quota_status] (lines 1963-1967). *)
Record quota_status := mk_quota_status {
  gemini_available : bool;
  status_quota_exhausted : bool;
  last_check : value
}.

Definition api_check_quota_status (g : Generator.t) : quota_status :=
  mk_quota_status (Generator.genai_client g) (Generator.quota_exhausted g)
    (Generator.last_quota_check g).

(** ** Sample data used by the worked examples *)

(** A successful image result, as returned at lines 889-895. *)
Definition ok_image : result :=
  mk_result true None None
    (<["image_data" := VStr "aGVsbG8="]>
       (<["image_url" := VNone]> (<["model" := VStr "gemini-imagen"]> ∅))).

(** The quota failure returned at lines 916-920. *)
Definition quota_failure : result :=
  failed_typed "API配额已用完，请明天再试或升级配额计划" "quota_exhausted".

Definition page_task (n : Z) : task :=
  mk_task ("page_" +:+ pretty n) "scene forest subjects fox style gouache" n false.

Definition cover_task : task :=
  mk_task "cover" "scene forest subjects fox style cover" 0 true.

(** An image service that reports quota exhaustion for page 1 after
    five seconds and succeeds for every other task after seven. *)
Definition quota_on_first (t : task) : work :=
  if String.eqb (t_key t) "page_1" then mk_work 5 (Returned quota_failure)
  else mk_work 7 (Returned ok_image).

(** An image service that succeeds after 200 seconds. *)
Definition slow_service (t : task) : work := mk_work 200 (Returned ok_image).

(** The state of a batch of two pages on two worker threads once both
    have started and page 1 has come back with its quota failure. *)
Definition tripped_pool : pool :=
  default (submit_all [])
    (run 2 quota_on_first [Start; Start; Finish 0]
       (submit_all [page_task 1; page_task 2])).

Definition sample_structure : gmap string value :=
  <["story_overview" := VStr "A fox learns to share."]>
    (<["main_character" :=
         VDict (<["name" := VStr "Fox"]> (<["description" := VStr "a small red fox"]> ∅))]>
       (<["setting" := VDict (<["name" := VStr "Forest"]> ∅)]> ∅)).

Definition sample_structure_result : result :=
  mk_result true None None (<["structure" := VDict sample_structure]> ∅).

Definition sample_pages_result : result :=
  mk_result true None None
    (<["pages" := VList [VStr "The fox finds a berry."; VStr "The fox shares it."]]>
       (<["story_id" := VStr "7f3c"]> ∅)).

Definition ok_audio : result :=
  mk_result true None None
    (<["audio_url" := VStr "/static/audio/audio_page_1_0.mp3"]>
       (<["duration" := VInt 3]> ∅)).

(** A run whose image batch was cut short by quota exhaustion after
    page 1 and whose audio batch failed for page 2; the prompt futures
    complete in reverse order. *)
Definition sample_services : services :=
  mk_services (Returned sample_structure_result)
    (fun _ => Returned sample_pages_result)
    reverse
    (fun pt => "scene forest subjects fox for " +:+ pt_key pt)
    (fun _ => <["page_1" := quota_failure]> ∅)
    (fun _ _ => <["page_1" := ok_audio]>
                  (<["page_2" := failed "语音服务API密钥未配置"]>
                     (<["cover" := ok_audio]> ∅)))
    "logs/20250101_000000_sharing_Fox"
    "2025-01-01T00:00:00".

(** A run whose structure stage fails, and one whose page stage
    fails. *)
Definition structure_fails : services :=
  mk_services (Returned (failed "invalid API key"))
    (fun _ => Returned sample_pages_result)
    reverse
    (fun pt => "scene forest subjects fox for " +:+ pt_key pt)
    (fun _ => ∅) (fun _ _ => ∅)
    "logs/20250101_000000_sharing_Fox"
    "2025-01-01T00:00:00".

Definition pages_fail : services :=
  mk_services (Returned sample_structure_result)
    (fun _ => Returned (failed "empty response"))
    reverse
    (fun pt => "scene forest subjects fox for " +:+ pt_key pt)
    (fun _ => ∅) (fun _ _ => ∅)
    "logs/20250101_000000_sharing_Fox"
    "2025-01-01T00:00:00".

(** A run whose batches succeed in part: the image of page 1 is
    generated, that of page 2 fails and the cover has no result; the
    audio of page 2 fails. *)
Definition partial_batches : services :=
  mk_services (Returned sample_structure_result)
    (fun _ => Returned sample_pages_result)
    reverse
    (fun pt => "scene forest subjects fox for " +:+ pt_key pt)
    (fun _ => <["page_1" := ok_image]>
                (<["page_2" := failed "No images generated"]> ∅))
    (fun _ _ => <["page_1" := ok_audio]>
                  (<["page_2" := failed "语音服务API密钥未配置"]>
                     (<["cover" := ok_audio]> ∅)))
    "logs/20250101_000000_sharing_Fox"
    "2025-01-01T00:00:00".

Definition sample_request : request :=
  mk_request "sharing" "Fox" "Forest" None None.

(** A storybook whose first page and cover failed and whose second page
    succeeded. *)
Definition sample_storybook : storybook :=
  mk_storybook (VStr "7f3c") "sharing" "Fox" "Forest" sample_structure
    (VStr "a small red fox") (VStr "") "2025-01-01T00:00:00"
    [Page.mk 1 (VStr "The fox finds a berry.") "scene forest subjects fox for page_1"
       (VStr "") (VStr "") false (VStr "") (VStr "midjourney")
       (VStr "/static/audio/audio_page_1_0.mp3") (VInt 3) true;
     Page.mk 2 (VStr "The fox shares it.") "scene forest subjects fox for page_2"
       (VStr "aGVsbG8=") VNone true (VStr "") (VStr "gemini-imagen")
       (VStr "") (VInt 0) false]
    (Cover.mk "scene forest subjects fox for cover"
       (VStr "") (VStr "") false (VStr "") (VStr "midjourney")
       (VStr "/static/audio/audio_cover_0.mp3") (VInt 3) true).

(** An image service that reports quota exhaustion for page 1, raises
    for page 2 and succeeds for every other task. *)
Definition quota_then_error (t : task) : work :=
  if String.eqb (t_key t) "page_1" then mk_work 5 (Returned quota_failure)
  else if String.eqb (t_key t) "page_2" then mk_work 6 (Raised "boom")
  else mk_work 7 (Returned ok_image).

(** The state of a batch of two pages and a cover on two worker threads
    once both pages have started: the cover is still queued. *)
Definition before_trip : pool :=
  default (submit_all [])
    (run 2 quota_then_error [Start; Start]
       (submit_all [page_task 1; page_task 2; cover_task])).

(** Repair services that always succeed. *)
Definition sample_regen_services : regen_services :=
  mk_regen_services (fun info => Returned ("scene for " +:+ pi_key info))
    (fun _ _ => Returned ok_image).

(** ** Further code: the retry decision as a whole *)

(** Lines 57-80 and 96-106: whether, after what one invocation
    produced, the wrapper goes on to a further attempt when one is
    left. *)
Definition retryable (cfg : retry_config) (o : outcome retval) : bool :=
  match o with
  | Returned (RDict r) => negb (success r) && result_should_retry cfg r
  | Returned (ROther _) => false
  | Raised e => exception_should_retry e
  end.

(** What the wait after a retryable attempt that is not the last raises,
    [None] when the wrapper gets through it and goes on to the next
    attempt. *)
Definition wait_raises (cfg : retry_config)
    (sleep : nat -> sleep_site -> option string) (attempt : nat)
    (o : outcome retval) : option string :=
  match o with
  | Returned _ =>
      match sleep attempt InTry with
      | None => None
      | Some e => handler cfg sleep attempt e
      end
  | Raised e => handler cfg sleep attempt e
  end.

(** The calls and sleeps of a call of the wrapper that ends at attempt
    [n]: every earlier attempt is followed by its sleep. *)
Definition retry_trace (cfg : retry_config) (n : nat) : list event :=
  flat_map (fun k => [Invoke k; Sleep (wait_time cfg k)]) (seq 0 n) ++ [Invoke n].

(** ** Further code: [generate_image_gemini] (app.py, lines 809-930) *)

(** What the call [self.genai_client.models.generate_images(...)] and
    the handling of its response inside the [try] block amount to:
    images (the first one base64-encoded, with its size), an empty list
    of images, or an exception with its text. *)
Inductive image_response :=
  | Generated (image_data : string) (size : value)
  | NoImages
  | ServiceError (error_str : string).

(** The failure of line 813. *)
Definition no_client_failure : result :=
  failed "Gemini API client not initialized. Please check GEMINI_API_KEY.".

(** Line 908: the test for a quota error on the text of the exception. *)
Definition is_quota_error (error_str : string) : bool :=
  contains "RESOURCE_EXHAUSTED" error_str && contains "quota" (lower error_str).

(** The body of [generate_image_gemini] (lines 812-930); [client] tells
    whether [self.genai_client] is set.  Writing the log is taken to
    succeed. *)
Definition generate_image_gemini_body (client : bool) (resp : image_response)
    : result :=
  if negb client then no_client_failure
  else
    match resp with
    | Generated image_data size =>
        mk_result true None None
          (<["image_data" := VStr image_data]>
             (<["image_url" := VNone]>
                (<["model" := VStr "gemini-imagen"]> (<["size" := size]> ∅))))
    | NoImages => failed "No images generated"
    | ServiceError error_str =>
        if is_quota_error error_str then quota_failure else failed error_str
    end.

(** The decorator of line 809: [@api_retry(max_retries=3,
    retry_on_quota=True)]. *)
Definition image_retry_config : retry_config := mk_retry_config 3 1 2 true true.

(** One call of the decorated [generate_image_gemini]; [service k] is
    what the image service does at attempt [k].  The waits of this
    configuration, 1, 2 and 4 seconds, are accepted by [time.sleep]. *)
Definition generate_image_gemini (client : bool) (service : nat -> image_response)
    : outcome retval * list event :=
  api_retry image_retry_config
    (fun k => Returned (RDict (generate_image_gemini_body client (service k))))
    (sleeps image_retry_config).

(** ** Further code: [_wrap_chinese_text] (app.py, lines 1772-1791) *)

(** The loop of lines 1777-1786 on the characters left, then lines
    1788-1791.  [fits line] is the test
    [canvas.stringWidth(line, font_name, font_size) <= max_width]; a
    text is the list of its characters. *)
Fixpoint wrap_loop {A : Type} (fits : list A -> bool) (text : list A)
    (lines : list (list A)) (current_line : list A) : list (list A) :=
  match text with
  | [] =>
      match current_line with
      | [] => lines
      | _ => lines ++ [current_line]
      end
  | char :: rest =>
      let test_line := current_line ++ [char] in
      if fits test_line then wrap_loop fits rest lines test_line
      else
        wrap_loop fits rest
          (match current_line with
           | [] => lines
           | _ => lines ++ [current_line]
           end)
          [char]
  end.

Definition _wrap_chinese_text {A : Type} (fits : list A -> bool) (text : list A)
    : list (list A) :=
  wrap_loop fits text [] [].

(** A line is acceptable when it fits or consists of one character. *)
Definition line_ok {A : Type} (fits : list A -> bool) (line : list A) : Prop :=
  fits line = true \/ length line = 1%nat.

(** No line could have taken the first character of the next one. *)
Fixpoint lines_full {A : Type} (fits : list A -> bool) (lines : list (list A))
    : Prop :=
  match lines with
  | line :: ((next :: _) as rest) =>
      match next with
      | [] => True
      | char :: _ => fits (line ++ [char]) = false
      end /\ lines_full fits rest
  | _ => True
  end.

(** The task of line 1017. *)
Definition cover_prompt_task : prompt_task :=
  mk_prompt_task "cover" (VStr "封面") 0 true.

(** ** Further code: the batches without a quota flag
       (app.py, lines 1022-1046 and 1469-1494) *)

(** The state of a batch whose loop neither reads a flag nor breaks:
    the queue, the tasks being worked on, the futures that are done and
    not yet received by the loop, and what the loop has received, in the
    order of reception. *)
Record plain_pool (T R : Type) := mk_plain_pool {
  p_pending : list T;
  p_running : list T;
  p_finished : list (T * R);
  p_collected : list (T * R)
}.
Arguments mk_plain_pool {T R} _ _ _ _.
Arguments p_pending {T R} _.
Arguments p_running {T R} _.
Arguments p_finished {T R} _.
Arguments p_collected {T R} _.






(** Every task is in exactly one place, and every future carries what
    the work of its task ends with. *)
Definition plain_accounted_by {T R : Type} (work : T -> R) (tasks : list T)
    (p : plain_pool T R) : Prop :=
  p_pending p ++ p_running p ++ (p_finished p).*1 ++ (p_collected p).*1 ≡ₚ tasks /\
  Forall (fun x => x.2 = work x.1) (p_finished p ++ p_collected p).







(** ** Further code: [_parse_story_pages] (app.py, lines 602-618) *)

(** A Python string is the list of its code points.  [isspace] is
    [str.isspace] on one code point, the table that [str.strip]
    consults. *)

(** [s.startswith(prefix)] *)
Fixpoint startswith (s prefix : list Z) : bool :=
  match prefix, s with
  | [], _ => true
  | p :: prefix', c :: s' => (c =? p) && startswith s' prefix'
  | _ :: _, [] => false
  end.

(** [s.split(sep)] for a non-empty separator: the text is scanned from
    the left, every occurrence found ends a piece and the scan goes on
    behind it.  [skip] counts the characters of an occurrence still to be
    passed over. *)
Fixpoint split_from (sep : list Z) (skip : nat) (s : list Z) : list (list Z) :=
  match s with
  | [] => [[]]
  | c :: rest =>
      match skip with
      | S k => split_from sep k rest
      | O =>
          if startswith s sep
          then [] :: split_from sep (length sep - 1) rest
          else
            match split_from sep 0 rest with
            | piece :: pieces => (c :: piece) :: pieces
            | [] => [[c]]
            end
      end
  end.

Definition str_split (s sep : list Z) : list (list Z) := split_from sep 0 s.

(** [c in s] for a single character. *)
Definition has_char (s : list Z) (c : Z) : bool := existsb (Z.eqb c) s.

(** [s.split(sep, 1)[1]] for a single character: what follows the first
    occurrence; [None] stands for the [IndexError] when there is none. *)
Fixpoint after_first (sep : Z) (s : list Z) : option (list Z) :=
  match s with
  | [] => None
  | c :: rest => if c =? sep then Some rest else after_first sep rest
  end.

(** [s.lstrip()], [s.rstrip()] and [s.strip()] *)
Fixpoint lstrip (isspace : Z -> bool) (s : list Z) : list Z :=
  match s with
  | [] => []
  | c :: rest => if isspace c then lstrip isspace rest else s
  end.

Definition rstrip (isspace : Z -> bool) (s : list Z) : list Z :=
  reverse (lstrip isspace (reverse s)).

Definition strip (isspace : Z -> bool) (s : list Z) : list Z :=
  lstrip isspace (rstrip isspace s).

(** The two characters of the page marker, the full-width colon and the
    line feed. *)
Definition page_marker : list Z := [0x9875; 0x9762].
Definition fullwidth_colon : Z := 0xFF1A.
Definition line_feed : Z := 10.

(** The loop of lines 607-611 on the lines left. *)
Fixpoint marked_pages (isspace : Z -> bool) (lines : list (list Z))
    (pages : list (list Z)) : option (list (list Z)) :=
  match lines with
  | [] => Some pages
  | line :: rest =>
      if startswith (strip isspace line) page_marker
         && has_char line fullwidth_colon
      then
        match after_first fullwidth_colon line with
        | None => None
        | Some tail =>
            match strip isspace tail with
            | [] => marked_pages isspace rest pages
            | page_content => marked_pages isspace rest (pages ++ [page_content])
            end
        end
      else marked_pages isspace rest pages
  end.

(** Line 615: the stripped paragraphs that are not empty. *)
Definition paragraphs (isspace : Z -> bool) (story_text : list Z)
    : list (list Z) :=
  strip isspace
    <$> List.filter (fun p => match strip isspace p with [] => false | _ => true end)
          (str_split story_text [line_feed; line_feed]).

Definition _parse_story_pages (isspace : Z -> bool) (story_text : list Z)
    : option (list (list Z)) :=
  match marked_pages isspace (str_split story_text [line_feed]) [] with
  | None => None
  | Some pages =>
      let pages :=
        if (length pages <? 10)%nat
        then take 10 (paragraphs isspace story_text)
        else pages in
      Some (take 10 pages)
  end.

(* ===================================================================== *)
(** * Part II: properties *)
(* ===================================================================== *)

(** ** The retry loop *)

Lemma invocations_cons_invoke n tr :
  invocations (Invoke n :: tr) = S (invocations tr).
Proof. reflexivity. Qed.

Lemma invocations_cons_sleep w tr :
  invocations (Sleep w :: tr) = invocations tr.
Proof. reflexivity. Qed.

(** Each iteration of the loop calls the wrapped function at most once. *)
Lemma wrapper_loop_invocations cfg func sleep rng last :
  (invocations (wrapper_loop cfg func sleep rng last).2 <= length rng)%nat.
Proof.
  revert last. induction rng as [|a rest IH]; intros last; simpl; [lia|].
  destruct (func a) as [[r|v]|e]; simpl.
  - destruct (success r); simpl; [lia|].
    destruct (negb (result_should_retry cfg r) || last_attempt cfg a); simpl; [lia|].
    destruct (sleep a InTry) as [e|].
    + destruct (handler cfg sleep a e); simpl; [lia|].
      specialize (IH (Some e)).
      destruct (wrapper_loop cfg func sleep rest (Some e)) as [o tr].
      simpl in *. lia.
    + specialize (IH last).
      destruct (wrapper_loop cfg func sleep rest last) as [o tr].
      simpl in *. lia.
  - lia.
  - destruct (handler cfg sleep a e); simpl; [lia|].
    specialize (IH (Some e)).
    destruct (wrapper_loop cfg func sleep rest (Some e)) as [o tr].
    simpl in *. lia.
Qed.

(** An iteration starts with the call of the wrapped function. *)
Lemma wrapper_loop_first cfg func sleep a rest last :
  exists o tr, wrapper_loop cfg func sleep (a :: rest) last = (o, Invoke a :: tr).
Proof.
  cbn [wrapper_loop]. destruct (func a) as [[r|v]|e].
  - destruct (success r); [eauto|].
    destruct (negb (result_should_retry cfg r) || last_attempt cfg a); [eauto|].
    destruct (sleep a InTry) as [e|].
    + destruct (handler cfg sleep a e); [eauto|].
      destruct (wrapper_loop cfg func sleep rest (Some e)) as [o tr]. eauto.
    + destruct (wrapper_loop cfg func sleep rest last) as [o tr]. eauto.
  - eauto.
  - destruct (handler cfg sleep a e); [eauto|].
    destruct (wrapper_loop cfg func sleep rest (Some e)) as [o tr]. eauto.
Qed.

(** One iteration, after an exception of the wrapped function and after
    a returned failure. *)
Lemma wrapper_loop_raised cfg func sleep a rest last e :
  func a = Raised e ->
  wrapper_loop cfg func sleep (a :: rest) last
  = match handler cfg sleep a e with
    | Some e' => (Raised e', [Invoke a])
    | None =>
        let '(o, tr) := wrapper_loop cfg func sleep rest (Some e) in
        (o, Invoke a :: Sleep (wait_time cfg a) :: tr)
    end.
Proof. intros Hf. cbn [wrapper_loop]. rewrite Hf. reflexivity. Qed.

Lemma wrapper_loop_failed cfg func sleep a rest last r :
  func a = Returned (RDict r) ->
  success r = false ->
  wrapper_loop cfg func sleep (a :: rest) last
  = if negb (result_should_retry cfg r) || last_attempt cfg a
    then (Returned (RDict r), [Invoke a])
    else
      match sleep a InTry with
      | None =>
          let '(o, tr) := wrapper_loop cfg func sleep rest last in
          (o, Invoke a :: Sleep (wait_time cfg a) :: tr)
      | Some e =>
          match handler cfg sleep a e with
          | Some e' => (Raised e', [Invoke a])
          | None =>
              let '(o, tr) := wrapper_loop cfg func sleep rest (Some e) in
              (o, Invoke a :: Sleep (wait_time cfg a) :: tr)
          end
      end.
Proof. intros Hf Hs. cbn [wrapper_loop]. rewrite Hf, Hs. reflexivity. Qed.

Lemma attempts_length cfg : length (attempts cfg) = Z.to_nat (max_retries cfg + 1).
Proof. unfold attempts. apply length_seq. Qed.

Lemma attempts_first cfg :
  0 <= max_retries cfg ->
  attempts cfg = 0%nat :: seq 1 (Z.to_nat (max_retries cfg)).
Proof.
  intros H. unfold attempts.
  replace (Z.to_nat (max_retries cfg + 1)) with (S (Z.to_nat (max_retries cfg))) by lia.
  reflexivity.
Qed.

Lemma attempts_second cfg :
  0 < max_retries cfg ->
  attempts cfg = 0%nat :: 1%nat :: seq 2 (Z.to_nat (max_retries cfg - 1)).
Proof.
  intros H. unfold attempts.
  replace (Z.to_nat (max_retries cfg + 1))
    with (S (S (Z.to_nat (max_retries cfg - 1)))) by lia.
  reflexivity.
Qed.

Lemma not_last_attempt cfg :
  0 < max_retries cfg -> last_attempt cfg 0 = false.
Proof. intros H. unfold last_attempt. apply Z.leb_gt. lia. Qed.

(** C1. For every retry configuration (with a retry count that is not
    negative), every behaviour of the unit of work and of the waits, one
    call of the wrapped function invokes the unit of work at most
    [max_retries + 1] times; when its first invocation succeeds it is
    invoked exactly once, nothing is slept, and that first outcome is
    what the call returns. *)
Theorem api_retry_invocation_bound (cfg : retry_config) (func : nat -> outcome retval)
    (sleep : nat -> sleep_site -> option string) :
  0 <= max_retries cfg ->
  Z.of_nat (invocations (api_retry cfg func sleep).2) <= max_retries cfg + 1 /\
  (succeeds (func 0%nat) = true ->
     api_retry cfg func sleep = (func 0%nat, [Invoke 0])).
Proof.
  intros Hmax. split.
  - pose proof (wrapper_loop_invocations cfg func sleep (attempts cfg) None) as H.
    rewrite attempts_length in H. unfold api_retry. lia.
  - intros Hs. unfold api_retry. rewrite (attempts_first cfg Hmax). simpl.
    destruct (func 0%nat) as [[r|v]|e]; simpl in Hs; try discriminate.
    + rewrite Hs. reflexivity.
    + reflexivity.
Qed.

Lemma api_retry_invocation_bound_witness :
  Z.of_nat (invocations (api_retry default_config
     (fun _ => Returned (RDict (failed "connection reset")))
     (sleeps default_config)).2) <= 3 + 1 /\
  (succeeds (Returned (RDict (mk_result true None None ∅))) = true ->
   api_retry default_config (fun _ => Returned (RDict (mk_result true None None ∅)))
     (sleeps default_config)
     = (Returned (RDict (mk_result true None None ∅)), [Invoke 0])).
Proof.
  split.
  - apply (api_retry_invocation_bound default_config
             (fun _ => Returned (RDict (failed "connection reset")))
             (sleeps default_config)).
    simpl. lia.
  - apply (api_retry_invocation_bound default_config
             (fun _ => Returned (RDict (mk_result true None None ∅)))
             (sleeps default_config)).
    simpl. lia.
Defined.

(** A returned failure that the decision of lines 61-77 does not select
    is handed back after the first call, without any sleep. *)
Lemma returned_failure_not_retried cfg func sleep r :
  0 <= max_retries cfg ->
  func 0%nat = Returned (RDict r) ->
  success r = false ->
  result_should_retry cfg r = false ->
  api_retry cfg func sleep = (Returned (RDict r), [Invoke 0]).
Proof.
  intros Hmax Hf Hs Hr. unfold api_retry. rewrite (attempts_first cfg Hmax).
  simpl. rewrite Hf, Hs, Hr. reflexivity.
Qed.

(** An exception that the decision of lines 101-104 does not select is
    raised again after the first call, without any sleep. *)
Lemma exception_not_retried cfg func sleep e :
  0 <= max_retries cfg ->
  func 0%nat = Raised e ->
  exception_should_retry e = false ->
  api_retry cfg func sleep = (Raised e, [Invoke 0]).
Proof.
  intros Hmax Hf He. unfold api_retry. rewrite (attempts_first cfg Hmax).
  simpl. unfold handler. rewrite Hf, He. reflexivity.
Qed.

(** An exception that the decision selects is followed, when retries
    remain and the wait of the handler is got through, by a sleep and a
    second call. *)
Lemma exception_retried cfg func sleep e :
  0 < max_retries cfg ->
  func 0%nat = Raised e ->
  exception_should_retry e = true ->
  sleep 0%nat InHandler = None ->
  exists o tr,
    api_retry cfg func sleep
    = (o, Invoke 0 :: Sleep (wait_time cfg 0) :: Invoke 1 :: tr).
Proof.
  intros Hmax Hf He Hsl. unfold api_retry. rewrite (attempts_second cfg Hmax).
  rewrite (wrapper_loop_raised _ _ _ _ _ _ e Hf). unfold handler.
  rewrite He, (not_last_attempt cfg Hmax), Hsl. cbn [negb orb].
  destruct (wrapper_loop_first cfg func sleep 1
              (seq 2 (Z.to_nat (max_retries cfg - 1))) (Some e)) as (o & tr & ->).
  eauto.
Qed.

(** What the wait of the handler raises leaves the wrapper, and nothing
    more is called. *)
Lemma exception_wait_raises cfg func sleep e e' :
  0 < max_retries cfg ->
  func 0%nat = Raised e ->
  exception_should_retry e = true ->
  sleep 0%nat InHandler = Some e' ->
  api_retry cfg func sleep = (Raised e', [Invoke 0]).
Proof.
  intros Hmax Hf He Hsl. unfold api_retry. rewrite (attempts_second cfg Hmax).
  rewrite (wrapper_loop_raised _ _ _ _ _ _ e Hf). unfold handler.
  rewrite He, (not_last_attempt cfg Hmax), Hsl. reflexivity.
Qed.

(** Whatever the specification's classifier does not call Transient
    carries none of the keywords of the exception branch. *)
Lemma not_transient_no_exception_keyword e ty :
  spec_classify e ty <> Transient -> exception_should_retry e = false.
Proof.
  unfold spec_classify, exception_should_retry.
  destruct (any_keyword exception_keywords (lower e)); simpl; [|reflexivity].
  intros H. contradiction H. reflexivity.
Qed.

(** C6, as stated, fails: with [retry_on_quota] set and three retries
    left, an exception that the specification classifies QuotaExhausted
    is raised again after a single call. *)
Lemma quota_exception_not_retried :
  ~ (forall (cfg : retry_config) (func : nat -> outcome retval)
            (sleep : nat -> sleep_site -> option string) (e : string),
       0 < max_retries cfg ->
       func 0%nat = Raised e ->
       spec_classify e None = QuotaExhausted ->
       retry_on_quota cfg = true ->
       (2 <= invocations (api_retry cfg func sleep).2)%nat).
Proof.
  intros H.
  specialize (H default_config (fun _ => Raised "quota exceeded")
                (sleeps default_config) "quota exceeded").
  vm_compute in H.
  specialize (H eq_refl eq_refl eq_refl eq_refl).
  inversion H as [|? H1]. inversion H1.
Qed.

(** C6, amended.  When the unit of work raises and a retry is left, the
    decision is taken on the exception text alone, by the seven keywords
    of the exception branch.  An exception that carries none of them is
    raised again after the first call without any sleep, whatever
    [retry_on_quota] says: so it is for every exception that the
    specification classifies QuotaExhausted, MalformedResponse or Fatal,
    and also for one that is Transient by a 5xx status only.  An
    exception that carries one of them is followed by the wait of the
    handler: when the wait is got through, a sleep and a second call
    follow; when the wait itself raises, that exception leaves the
    wrapper after the single call. *)
Theorem exception_retry_decision (cfg : retry_config)
    (func : nat -> outcome retval)
    (sleep : nat -> sleep_site -> option string) (e : string) :
  0 < max_retries cfg ->
  func 0%nat = Raised e ->
  (exception_should_retry e = false ->
     api_retry cfg func sleep = (Raised e, [Invoke 0])) /\
  (spec_classify e None <> Transient ->
     api_retry cfg func sleep = (Raised e, [Invoke 0])) /\
  (exception_should_retry e = true ->
     (sleep 0%nat InHandler = None ->
        exists o tr,
          api_retry cfg func sleep
          = (o, Invoke 0 :: Sleep (wait_time cfg 0) :: Invoke 1 :: tr)) /\
     (forall e', sleep 0%nat InHandler = Some e' ->
        api_retry cfg func sleep = (Raised e', [Invoke 0]))).
Proof.
  intros Hmax Hf. split; [|split].
  - intros He. apply exception_not_retried; [lia|assumption|assumption].
  - intros Hk. apply exception_not_retried; [lia|assumption|].
    exact (not_transient_no_exception_keyword e None Hk).
  - intros He. split.
    + intros Hsl. exact (exception_retried cfg func sleep e Hmax Hf He Hsl).
    + intros e' Hsl. exact (exception_wait_raises cfg func sleep e e' Hmax Hf He Hsl).
Qed.

Lemma exception_retry_decision_witness :
  (spec_classify "quota exceeded" None = QuotaExhausted /\
   api_retry default_config (fun _ => Raised "quota exceeded") (sleeps default_config)
   = (Raised "quota exceeded", [Invoke 0])) /\
  (spec_classify "HTTP 503" None = Transient /\
   api_retry default_config (fun _ => Raised "HTTP 503") (sleeps default_config)
   = (Raised "HTTP 503", [Invoke 0])) /\
  (exists o tr,
     api_retry default_config (fun _ => Raised "Connection reset by peer")
       (sleeps default_config)
     = (o, Invoke 0 :: Sleep (wait_time default_config 0) :: Invoke 1 :: tr)) /\
  api_retry (mk_retry_config 3 (-1) 2 false true)
    (fun _ => Raised "Connection reset by peer")
    (sleeps (mk_retry_config 3 (-1) 2 false true))
  = (Raised "sleep length must be non-negative", [Invoke 0]).
Proof.
  split; [|split; [|split]].
  - split; [reflexivity|].
    apply (proj1 (proj2 (exception_retry_decision default_config
                           (fun _ => Raised "quota exceeded") (sleeps default_config)
                           "quota exceeded" ltac:(simpl; lia) eq_refl))).
    vm_compute. discriminate.
  - split; [reflexivity|].
    apply (proj1 (exception_retry_decision default_config
                    (fun _ => Raised "HTTP 503") (sleeps default_config)
                    "HTTP 503" ltac:(simpl; lia) eq_refl)).
    vm_compute. reflexivity.
  - apply (proj2 (proj2 (exception_retry_decision default_config
                           (fun _ => Raised "Connection reset by peer")
                           (sleeps default_config)
                           "Connection reset by peer" ltac:(simpl; lia) eq_refl))).
    + vm_compute. reflexivity.
    + vm_compute. reflexivity.
  - apply (proj2 (proj2 (exception_retry_decision (mk_retry_config 3 (-1) 2 false true)
                           (fun _ => Raised "Connection reset by peer")
                           (sleeps (mk_retry_config 3 (-1) 2 false true))
                           "Connection reset by peer" ltac:(simpl; lia) eq_refl))).
    + vm_compute. reflexivity.
    + vm_compute. reflexivity.
Defined.

(** C7, at the failing input.  The returned failure
    ["invalid request: 5 images requested"] carries none of the listed
    keywords, no 5xx status, no quota signal and no json/parse keyword,
    so the specification classifies it Fatal; the keyword ["5"] of line
    68 matches it all the same, and under the default configuration the
    unit of work is called four times with three sleeps in between. *)
Theorem fatal_failure_with_digit_five_is_retried :
  let r := failed "invalid request: 5 images requested" in
  let run := api_retry default_config (fun _ => Returned (RDict r))
               (sleeps default_config) in
  spec_classify "invalid request: 5 images requested" None = Fatal /\
  run.1 = Returned (RDict r) /\
  invocations run.2 = 4%nat /\
  retries run.2 = 3%nat.
Proof. vm_compute. repeat split. Qed.

(** The part of C7 that the code keeps: a returned failure without any
    keyword of line 68 (the digit 5 included), without quota signal and
    without json/parse keyword is handed back after one call. *)
Lemma failure_without_keyword_not_retried cfg func sleep r :
  0 <= max_retries cfg ->
  func 0%nat = Returned (RDict r) ->
  success r = false ->
  any_keyword result_keywords (lower (default "" (error r))) = false ->
  spec_classify (default "" (error r)) (error_type r) = Fatal ->
  api_retry cfg func sleep = (Returned (RDict r), [Invoke 0]).
Proof.
  intros Hmax Hf Hs Hk Hc.
  apply returned_failure_not_retried; try assumption.
  unfold result_should_retry. rewrite Hk.
  unfold spec_classify in Hc.
  destruct (any_keyword exception_keywords _ || has_5xx_status _); [discriminate|].
  destruct (contains "quota" _ || String.eqb _ "quota_exhausted"); [discriminate|].
  destruct (contains "json" _ || contains "parse" _); [discriminate|].
  reflexivity.
Qed.

(** [str.lower] reaches the two characters outside ASCII whose lower-case
    form contains an ASCII letter: a text that spells NETWORK with the
    KELVIN SIGN carries the keyword [network]; one that spells TIMEOUT
    with U+0130 does not carry [timeout], since U+0307 follows the
    [i]. *)
Example lower_beyond_ascii :
  lower (String "N" (String "E" (String "T" (String "W" (String "O" (String "R"
          (String "226" (String "132" (String "170" EmptyString)))))))))
  = "network" /\
  exception_should_retry
    (String "T" (String "196" (String "176" "MEOUT"))) = false /\
  exception_should_retry "Read TIMEOUT" = true.
Proof. vm_compute. repeat split. Qed.

(** ** The image batch *)

Section Batch.
Variable max_workers : nat.
Variable worker : task -> work.

#[local] Abbreviation step := (do_action max_workers worker).
#[local] Abbreviation exec := (run max_workers worker).

(** Case analysis on one step: names the action taken and rewrites
    the successor state. *)
Ltac step_cases H :=
  match type of H with
  | do_action _ _ ?a ?p = Some _ =>
      destruct p as [flag pend runn fin res coll inv clk];
      destruct a as [|i|i]; cbn [do_action] in H;
      [ unfold start in H; cbn in H;
        destruct pend as [|t queue]; cbn in H; [discriminate H|];
        match type of H with
        | (if ?b then _ else _) = _ => destruct b eqn:Hfree
        end; [|discriminate H];
        destruct flag; cbn in H; inversion H; subst; clear H
      | unfold finish in H; cbn in H;
        destruct (runn !! i) as [[t started]|] eqn:Hrun;
          cbn in H; [|discriminate H];
        inversion H; subst; clear H
      | unfold collect in H; cbn in H;
        destruct coll; cbn in H; [|discriminate H];
        destruct (fin !! i) as [[t [r|msg]]|] eqn:Hfin;
          cbn in H; [| |discriminate H];
        [destruct flag; cbn in H|]; inversion H; subst; clear H ]
  end.

(** A property kept by every step holds along every schedule. *)
Lemma run_invariant (I : pool -> Prop) :
  (forall a p p', I p -> step a p = Some p' -> I p') ->
  forall sched p p', I p -> exec sched p = Some p' -> I p'.
Proof.
  intros Hstep sched. induction sched as [|a rest IH]; intros p p' HI Hrun.
  - inversion Hrun; subst; assumption.
  - simpl in Hrun. destruct (step a p) as [p1|] eqn:Ha; [|discriminate].
    eapply IH; [|exact Hrun]. eapply Hstep; eassumption.
Qed.

Lemma run_app s1 s2 p p1 p2 :
  exec s1 p = Some p1 -> exec s2 p1 = Some p2 -> exec (s1 ++ s2) p = Some p2.
Proof.
  revert p. induction s1 as [|a rest IH]; intros p H1 H2; simpl in *.
  - inversion H1; subst; assumption.
  - destruct (step a p) as [p'|]; [|discriminate]. eauto.
Qed.

(** The flag is only ever set. *)
Lemma step_flag_monotone a p p' :
  step a p = Some p' -> quota_exhausted p = true -> quota_exhausted p' = true.
Proof. intros H Hq. step_cases H; cbn in *; subst; try discriminate; auto. Qed.

Lemma run_flag_monotone sched p p' :
  exec sched p = Some p' -> quota_exhausted p = true -> quota_exhausted p' = true.
Proof.
  intros Hrun Hq.
  exact (run_invariant (fun q => quota_exhausted q = true)
           (fun a q q' Hq' Hs => step_flag_monotone a q q' Hs Hq') sched p p' Hq Hrun).
Qed.

(** Once the loop is left, nothing is recorded any more. *)
Lemma step_closed_results a p p' :
  step a p = Some p' -> collecting p = false ->
  collecting p' = false /\ results p' = results p.
Proof. intros H Hc. step_cases H; cbn in *; try discriminate; auto. Qed.

Lemma run_closed_results sched p p' :
  exec sched p = Some p' -> collecting p = false ->
  collecting p' = false /\ results p' = results p.
Proof.
  revert p. induction sched as [|a rest IH]; intros p Hrun Hc; simpl in Hrun.
  - inversion Hrun; subst; auto.
  - destruct (step a p) as [p1|] eqn:Ha; [|discriminate].
    destruct (step_closed_results a p p1 Ha Hc) as [Hc1 Hr1].
    destruct (IH p1 Hrun Hc1) as [Hc2 Hr2]. split; congruence.
Qed.

(** The loop is only left with the flag set. *)
Lemma step_break_flag a p p' :
  step a p = Some p' ->
  (collecting p = false -> quota_exhausted p = true) ->
  (collecting p' = false -> quota_exhausted p' = true).
Proof.
  intros H HI Hc. step_cases H; cbn in *; try discriminate; auto.
  rewrite (HI Hc). reflexivity.
Qed.

(** Every step consumes some of what remains to be done. *)
Lemma step_remaining a p p' :
  step a p = Some p' -> (remaining p' < remaining p)%nat.
Proof.
  intros H. step_cases H; unfold remaining; cbn;
    rewrite ?length_app; cbn;
    try (rewrite length_delete by (eexists; eassumption));
    try (apply lookup_lt_Some in Hrun);
    try (apply lookup_lt_Some in Hfin); lia.
Qed.

Lemma run_length sched p p' :
  exec sched p = Some p' -> (length sched + remaining p' <= remaining p)%nat.
Proof.
  revert p. induction sched as [|a rest IH]; intros p Hrun; simpl in Hrun.
  - inversion Hrun; subst. simpl. lia.
  - destruct (step a p) as [p1|] eqn:Ha; [|discriminate].
    apply step_remaining in Ha. apply IH in Hrun. simpl. lia.
Qed.

(** With at least one worker thread, a batch that has not returned
    can always take a step. *)
Lemma progress p :
  (0 < max_workers)%nat -> returned p = false ->
  exists a p', step a p = Some p'.
Proof.
  intros Hw Hr. destruct p as [flag pend runn fin res coll inv clk].
  unfold returned in Hr. cbn in Hr.
  destruct runn as [|[t0 s0] runn].
  - destruct pend as [|t queue].
    + destruct coll; [|discriminate]. destruct fin as [|[t [r|msg]] fin]; [discriminate| |].
      * exists (Collect 0). unfold do_action, collect. cbn. destruct flag; eauto.
      * exists (Collect 0). unfold do_action, collect. cbn. eauto.
    + exists Start. unfold do_action, start.
      cbn [pending running quota_exhausted length].
      assert (Hfree : Nat.ltb 0 max_workers = true) by (apply Nat.ltb_lt; lia).
      rewrite Hfree. destruct flag; eauto.
  - exists (Finish 0). unfold do_action, finish. cbn. eauto.
Qed.

(** With at least one worker thread, every batch can be run to its
    return from any state. *)
Lemma can_return p :
  (0 < max_workers)%nat ->
  exists sched p', exec sched p = Some p' /\ returned p' = true.
Proof.
  intros Hw. remember (remaining p) as n eqn:Hn.
  revert p Hn. induction (lt_wf n) as [n _ IH]. intros p Hn.
  destruct (returned p) eqn:Hr.
  - exists [], p. auto.
  - destruct (progress p Hw Hr) as (a & p1 & Ha).
    pose proof (step_remaining a p p1 Ha) as Hlt.
    destruct (IH (remaining p1) ltac:(lia) p1 eq_refl) as (sched & p' & Hrun & Hret).
    exists (a :: sched), p'. simpl. rewrite Ha. auto.
Qed.

Lemma delete_elem_of {A} (l : list A) i x y :
  l !! i = Some x -> y ∈ l <-> y = x \/ y ∈ delete i l.
Proof.
  intros H. rewrite (delete_Permutation l i x H) at 1. apply elem_of_cons.
Qed.

(** No step brings a task into the executor. *)
Lemma step_live a p p' x :
  step a p = Some p' -> x ∈ live p' -> x ∈ live p.
Proof.
  intros H. step_cases H; unfold live; cbn;
    try (pose proof (fun y => delete_elem_of runn i (t, started) y Hrun) as Hd);
    try (pose proof (fun y => delete_elem_of fin i (t, Returned r) y Hfin) as Hd);
    try (pose proof (fun y => delete_elem_of fin i (t, Raised msg) y Hfin) as Hd);
    set_solver.
Qed.

Lemma accounted_unfold p :
  accounted p
  = list_to_set (t_key <$> pending p)
    ∪ list_to_set (t_key <$> (running p).*1)
    ∪ list_to_set (t_key <$> (finished p).*1)
    ∪ dom (results p).
Proof.
  unfold accounted, live. rewrite !fmap_app, !list_to_set_app_L. set_solver.
Qed.

Lemma keys_delete {A} (f : A -> string) (l : list A) i x :
  l !! i = Some x ->
  list_to_set (C := gset string) (f <$> l)
  = {[f x]} ∪ list_to_set (f <$> delete i l).
Proof.
  intros H. rewrite (delete_Permutation l i x H) at 1. reflexivity.
Qed.

(** While the loop is iterating, every step keeps the accounted keys. *)
Lemma step_accounted a p p' :
  step a p = Some p' -> collecting p' = true -> accounted p' = accounted p.
Proof.
  intros H Hc. rewrite !accounted_unfold.
  step_cases H; cbn in *; try discriminate;
    rewrite ?fmap_app, ?list_to_set_app_L; cbn;
    rewrite <- ?list_fmap_compose;
    try rewrite (keys_delete (t_key ∘ fst) runn i _ Hrun);
    try rewrite (keys_delete (t_key ∘ fst) fin i _ Hfin);
    cbn; rewrite ?dom_insert_L; set_solver.
Qed.

Lemma step_collecting a p p' :
  step a p = Some p' -> collecting p' = true -> collecting p = true.
Proof. intros H Hc. step_cases H; cbn in *; congruence. Qed.

Lemma recordable_flag worker' flag flag' t r :
  (flag = true -> flag' = true) ->
  recordable worker' flag t r -> recordable worker' flag' t r.
Proof. unfold recordable. intros Hm [[? ?]|[?|?]]; auto. Qed.

Lemma step_finished a p p' x o :
  step a p = Some p' ->
  (forall t o, (t, o) ∈ finished p ->
     (o = Returned skipped /\ quota_exhausted p = true) \/ o = gave (worker t)) ->
  (x, o) ∈ finished p' ->
  (o = Returned skipped /\ quota_exhausted p' = true) \/ o = gave (worker x).
Proof.
  intros H Hf Hin.
  assert (Hold : (x, o) ∈ finished p ->
            (o = Returned skipped /\ quota_exhausted p' = true) \/ o = gave (worker x)).
  { intros Hin0. destruct (Hf x o Hin0) as [[Hs Hq]|Hg]; [left|right; assumption].
    split; [assumption|]. exact (step_flag_monotone a p p' H Hq). }
  step_cases H; cbn in *.
  - apply elem_of_app in Hin as [Hin|Hin]; [auto|].
    apply list_elem_of_singleton in Hin. inversion Hin; subst. auto.
  - auto.
  - apply elem_of_app in Hin as [Hin|Hin]; [auto|].
    apply list_elem_of_singleton in Hin. inversion Hin; subst. auto.
  - apply Hold. eapply delete_elem_of; eauto.
  - apply Hold. eapply delete_elem_of; eauto.
  - apply Hold. eapply delete_elem_of; eauto.
Qed.

Lemma step_results (tasks : list task) a p p' key rec :
  step a p = Some p' ->
  (forall t, t ∈ live p -> t ∈ tasks) ->
  (forall t o, (t, o) ∈ finished p ->
     (o = Returned skipped /\ quota_exhausted p = true) \/ o = gave (worker t)) ->
  (forall k r, results p !! k = Some r ->
     exists t, t ∈ tasks /\ t_key t = k /\
               recordable worker (quota_exhausted p) t r) ->
  results p' !! key = Some rec ->
  exists t, t ∈ tasks /\ t_key t = key /\
            recordable worker (quota_exhausted p') t rec.
Proof.
  intros H Hl Hf Hr Hk.
  assert (Hold : results p !! key = Some rec ->
            exists t, t ∈ tasks /\ t_key t = key /\
                      recordable worker (quota_exhausted p') t rec).
  { intros Hk0. destruct (Hr key rec Hk0) as (t & Ht & Hkey & Hrec).
    exists t. repeat split; try assumption.
    eapply recordable_flag; [|exact Hrec].
    exact (step_flag_monotone a p p' H). }
  step_cases H; cbn in *; try (apply Hold; assumption).
  all: destruct (decide (t_key t = key)) as [<-|Hne];
    [ rewrite lookup_insert_eq in Hk; inversion Hk; subst
    | rewrite lookup_insert_ne in Hk by assumption; apply Hold; assumption ].
  all: apply list_elem_of_lookup_2 in Hfin.
  all: exists t; split; [apply Hl; unfold live; cbn; set_solver|].
  all: split; [reflexivity|].
  all: apply Hf in Hfin; unfold recordable.
  all: destruct Hfin as [[Hs Hq]|Hg]; [inversion Hs; subst; auto | eauto].
Qed.

Lemma step_flag_origin (tasks : list task) a p p' :
  step a p = Some p' ->
  (forall t, t ∈ live p -> t ∈ tasks) ->
  (quota_exhausted p = true ->
     exists t, t ∈ tasks /\ outcome_reports_quota (gave (worker t)) = true) ->
  quota_exhausted p' = true ->
  exists t, t ∈ tasks /\ outcome_reports_quota (gave (worker t)) = true.
Proof.
  intros H Hl Hq.
  step_cases H; cbn in *; intros Hq'; try (apply Hq; assumption).
  apply orb_true_iff in Hq' as [Hq'|Hq']; [apply Hq; assumption|].
  exists t. split; [|assumption].
  apply Hl. unfold live; cbn. apply list_elem_of_lookup_2 in Hrun. set_solver.
Qed.

(** Every step keeps the bookkeeping. *)
Lemma step_well_accounted tasks a p p' :
  step a p = Some p' ->
  well_accounted worker tasks p -> well_accounted worker tasks p'.
Proof.
  intros H (Hl & Hf & Hr & Ha & Hb & Hq).
  unfold well_accounted. split; [|split; [|split; [|split; [|split]]]].
  - intros x Hx. apply Hl. exact (step_live a p p' x H Hx).
  - intros x o. exact (step_finished a p p' x o H Hf).
  - intros k r. exact (step_results tasks a p p' k r H Hl Hf Hr).
  - intros Hc. rewrite (step_accounted a p p' H Hc).
    apply Ha. exact (step_collecting a p p' H Hc).
  - exact (step_break_flag a p p' H Hb).
  - exact (step_flag_origin tasks a p p' H Hl Hq).
Qed.

Lemma submit_all_well_accounted tasks :
  well_accounted worker tasks (submit_all tasks).
Proof.
  unfold well_accounted. split; [|split; [|split; [|split; [|split]]]]; cbn.
  - unfold live; cbn. intros t. rewrite app_nil_r. auto.
  - intros t o Hin. inversion Hin.
  - intros k r Hk. rewrite lookup_empty in Hk. discriminate.
  - intros _. unfold accounted, live, keys; cbn. rewrite app_nil_r. set_solver.
  - discriminate.
  - discriminate.
Qed.

(** The bookkeeping holds in every state that a batch can reach. *)
Lemma run_well_accounted tasks sched p :
  exec sched (submit_all tasks) = Some p -> well_accounted worker tasks p.
Proof.
  intros Hrun.
  exact (run_invariant (well_accounted worker tasks)
           (fun a q q' Hq Hs => step_well_accounted tasks a q q' Hs Hq)
           sched _ p (submit_all_well_accounted tasks) Hrun).
Qed.

(** When the function returns with the flag clear, nothing is left
    inside the executor. *)
Lemma returned_clear_empty tasks sched p :
  exec sched (submit_all tasks) = Some p ->
  returned p = true -> quota_exhausted p = false ->
  collecting p = true /\ live p = [].
Proof.
  intros Hrun Hret Hq.
  destruct (run_well_accounted tasks sched p Hrun) as (_ & _ & _ & _ & Hb & _).
  destruct p as [flag pend runn fin res coll inv clk]. cbn in *.
  unfold returned in Hret. cbn in Hret.
  destruct pend; [|discriminate]. destruct runn; [|discriminate].
  destruct coll.
  - destruct fin; [|discriminate]. auto.
  - rewrite Hb in Hq by reflexivity. discriminate.
Qed.

(** A call that is running stays running until it comes back itself:
    neither the start of another task, nor the collection of a result,
    nor the cancellation at [break] removes it. *)
Lemma step_running_kept a p p' x :
  step a p = Some p' ->
  x ∈ running p ->
  x ∈ running p' \/ (x.1, gave (worker x.1)) ∈ finished p'.
Proof.
  intros H Hx. step_cases H; cbn in *; auto.
  - left. set_solver.
  - apply (delete_elem_of runn i _ x Hrun) in Hx as [->|Hx]; [right|left; assumption].
    cbn. set_solver.
Qed.

End Batch.

(** The keys recorded are keys submitted. *)
Lemma results_keys_submitted mw worker tasks sched p :
  run mw worker sched (submit_all tasks) = Some p ->
  dom (results p) ⊆ keys tasks.
Proof.
  intros Hrun k Hk. apply elem_of_dom in Hk as [r Hr].
  destruct (run_well_accounted mw worker tasks sched p Hrun)
    as (_ & _ & Hres & _).
  destruct (Hres k r Hr) as (t & Ht & <- & _).
  unfold keys. apply elem_of_list_to_set, list_elem_of_fmap. eauto.
Qed.

(** In a batch none of whose tasks reports quota exhaustion the flag
    stays clear. *)
Lemma no_quota_flag_clear mw worker tasks sched p :
  (forall t, t ∈ tasks -> outcome_reports_quota (gave (worker t)) = false) ->
  run mw worker sched (submit_all tasks) = Some p ->
  quota_exhausted p = false.
Proof.
  intros Hno Hrun.
  destruct (run_well_accounted mw worker tasks sched p Hrun)
    as (_ & _ & _ & _ & _ & Hq).
  destruct (quota_exhausted p); [|reflexivity].
  destruct (Hq eq_refl) as (t & Ht & Hrep). rewrite (Hno t Ht) in Hrep. discriminate.
Qed.

(** When the function returns with the flag clear, every submitted key
    has been recorded. *)
Lemma returned_clear_all_keys mw worker tasks sched p :
  run mw worker sched (submit_all tasks) = Some p ->
  returned p = true -> quota_exhausted p = false ->
  dom (results p) = keys tasks.
Proof.
  intros Hrun Hret Hq.
  destruct (returned_clear_empty mw worker tasks sched p Hrun Hret Hq) as [Hc Hl].
  destruct (run_well_accounted mw worker tasks sched p Hrun)
    as (_ & _ & _ & Ha & _).
  rewrite <- (Ha Hc). unfold accounted. rewrite Hl. cbn. set_solver.
Qed.

(** In a batch with distinct keys none of whose tasks reports quota
    exhaustion, what is recorded under a task's key is what the image
    service returned for it, or the text of what it raised, however long
    the call took. *)
Lemma no_quota_results mw worker tasks sched p t :
  NoDup (t_key <$> tasks) ->
  (forall t, t ∈ tasks -> outcome_reports_quota (gave (worker t)) = false) ->
  run mw worker sched (submit_all tasks) = Some p ->
  returned p = true ->
  t ∈ tasks ->
  results p !! t_key t = Some (record_of (gave (worker t))).
Proof.
  intros Hnd Hno Hrun Hret Ht.
  pose proof (no_quota_flag_clear mw worker tasks sched p Hno Hrun) as Hq.
  pose proof (returned_clear_all_keys mw worker tasks sched p Hrun Hret Hq) as Hdom.
  assert (Hin : t_key t ∈ dom (results p)).
  { rewrite Hdom. unfold keys. apply elem_of_list_to_set, list_elem_of_fmap. eauto. }
  apply elem_of_dom in Hin as [r Hr]. rewrite Hr. f_equal.
  destruct (run_well_accounted mw worker tasks sched p Hrun)
    as (_ & _ & Hres & _).
  destruct (Hres _ r Hr) as (t' & Ht' & Hkey & Hrec).
  assert (t' = t) as ->.
  { apply list_elem_of_lookup in Ht as [i Hi]. apply list_elem_of_lookup in Ht' as [j Hj].
    assert (i = j) as ->.
    { apply (NoDup_lookup _ i j (t_key t) Hnd);
        rewrite list_lookup_fmap; [rewrite Hi|rewrite Hj]; cbn; congruence. }
    congruence. }
  rewrite Hq in Hrec. destruct Hrec as [[_ Hf]|[Hg|(msg & Hg & ->)]].
  - discriminate.
  - rewrite Hg. reflexivity.
  - rewrite Hg. reflexivity.
Qed.

(** C2, as stated, fails: with one worker thread and three tasks of
    which the first reports quota exhaustion, the loop is left after the
    first result and the function returns a mapping that lacks the two
    other keys. *)
Lemma quota_trip_drops_keys :
  ~ (forall (max_concurrent : nat) (worker : task -> work)
            (prompts_data : list task) (res : gmap string result),
       NoDup (t_key <$> prompts_data) ->
       generate_images_parallel max_concurrent worker prompts_data res ->
       dom res = keys prompts_data).
Proof.
  intros H.
  specialize (H 1%nat quota_on_first [page_task 1; page_task 2; cover_task]
                {["page_1" := quota_failure]}).
  assert (Hin : "page_2" ∈ dom ({["page_1" := quota_failure]} : gmap string result)).
  { rewrite H.
    - vm_compute. set_solver.
    - apply (bool_decide_unpack _). vm_compute. reflexivity.
    - exists [Start; Finish 0; Collect 0]. eexists. split; [reflexivity|].
      split; reflexivity. }
  apply elem_of_dom in Hin as [r Hr]. vm_compute in Hr. discriminate.
Qed.

(** C2, amended.  With at least one worker thread the function returns;
    whatever the completion order and the individual failures, the
    mapping it returns has no key that was not submitted, and what it
    holds under a key is what may be recorded for a task with that key;
    when no task of the batch reports quota exhaustion it has exactly
    the submitted keys, so that a submitted key is missing only when some
    task of the batch has reported quota exhaustion. *)
Theorem batch_results_keys (max_concurrent : nat) (worker : task -> work)
    (prompts_data : list task) :
  (0 < max_concurrent)%nat ->
  (exists res, generate_images_parallel max_concurrent worker prompts_data res) /\
  (forall res,
     generate_images_parallel max_concurrent worker prompts_data res ->
     dom res ⊆ keys prompts_data /\
     (forall k r, res !! k = Some r ->
        exists t, t ∈ prompts_data /\ t_key t = k /\
                  (r = skipped \/ r = record_of (gave (worker t)))) /\
     ((forall t, t ∈ prompts_data ->
         outcome_reports_quota (gave (worker t)) = false) ->
      dom res = keys prompts_data) /\
     (dom res <> keys prompts_data ->
      exists t, t ∈ prompts_data /\
                outcome_reports_quota (gave (worker t)) = true)).
Proof.
  intros Hw. split.
  - destruct (can_return max_concurrent worker (submit_all prompts_data) Hw)
      as (sched & p & Hrun & Hret).
    exists (results p), sched, p. auto.
  - intros res (sched & p & Hrun & Hret & <-). split; [|split; [|split]].
    + exact (results_keys_submitted _ _ _ _ _ Hrun).
    + intros k r Hr.
      destruct (run_well_accounted _ _ _ _ _ Hrun) as (_ & _ & Hres & _).
      destruct (Hres k r Hr) as (t & Ht & Hk & Hrec).
      exists t. repeat split; try assumption.
      destruct Hrec as [[-> _]|[Hg|(msg & Hg & ->)]]; [auto| |];
        right; rewrite Hg; reflexivity.
    + intros Hno. apply (returned_clear_all_keys _ _ _ _ _ Hrun Hret).
      exact (no_quota_flag_clear _ _ _ _ _ Hno Hrun).
    + intros Hmiss. destruct (quota_exhausted p) eqn:Hq.
      * destruct (run_well_accounted _ _ _ _ _ Hrun) as (_ & _ & _ & _ & _ & Ho).
        exact (Ho Hq).
      * contradiction Hmiss.
        exact (returned_clear_all_keys _ _ _ _ _ Hrun Hret Hq).
Qed.

Lemma batch_results_keys_witness :
  ((exists res, generate_images_parallel 5 slow_service
                  [page_task 1; page_task 2; cover_task] res) /\
   (forall res,
      generate_images_parallel 5 slow_service
        [page_task 1; page_task 2; cover_task] res ->
      dom res ⊆ keys [page_task 1; page_task 2; cover_task] /\
      (forall k r, res !! k = Some r ->
         exists t, t ∈ [page_task 1; page_task 2; cover_task] /\ t_key t = k /\
                   (r = skipped \/ r = record_of (gave (slow_service t)))) /\
      ((forall t, t ∈ [page_task 1; page_task 2; cover_task] ->
          outcome_reports_quota (gave (slow_service t)) = false) ->
       dom res = keys [page_task 1; page_task 2; cover_task]) /\
      (dom res <> keys [page_task 1; page_task 2; cover_task] ->
       exists t, t ∈ [page_task 1; page_task 2; cover_task] /\
                 outcome_reports_quota (gave (slow_service t)) = true))) /\
  ((exists res, generate_images_parallel 1 quota_on_first
                  [page_task 1; page_task 2; cover_task] res) /\
   (forall res,
      generate_images_parallel 1 quota_on_first
        [page_task 1; page_task 2; cover_task] res ->
      dom res ⊆ keys [page_task 1; page_task 2; cover_task] /\
      (forall k r, res !! k = Some r ->
         exists t, t ∈ [page_task 1; page_task 2; cover_task] /\ t_key t = k /\
                   (r = skipped \/ r = record_of (gave (quota_on_first t)))) /\
      ((forall t, t ∈ [page_task 1; page_task 2; cover_task] ->
          outcome_reports_quota (gave (quota_on_first t)) = false) ->
       dom res = keys [page_task 1; page_task 2; cover_task]) /\
      (dom res <> keys [page_task 1; page_task 2; cover_task] ->
       exists t, t ∈ [page_task 1; page_task 2; cover_task] /\
                 outcome_reports_quota (gave (quota_on_first t)) = true))).
Proof.
  split.
  - apply (batch_results_keys 5 slow_service [page_task 1; page_task 2; cover_task]).
    lia.
  - apply (batch_results_keys 1 quota_on_first [page_task 1; page_task 2; cover_task]).
    lia.
Defined.

(** Two mappings that one worker thread can return for three tasks of
    which the first reports quota exhaustion: the quota failure alone,
    when the loop receives it first; the skipped page 2 alone, when the
    loop receives that one first, the quota failure itself being then
    among the results that are lost. *)
Example quota_trip_mappings :
  generate_images_parallel 1 quota_on_first [page_task 1; page_task 2; cover_task]
    {["page_1" := quota_failure]} /\
  generate_images_parallel 1 quota_on_first [page_task 1; page_task 2; cover_task]
    {["page_2" := skipped]}.
Proof.
  split.
  - exists [Start; Finish 0; Collect 0]. eexists.
    split; [reflexivity|]. split; reflexivity.
  - exists [Start; Finish 0; Start; Collect 1]. eexists.
    split; [vm_compute; reflexivity|]. split; reflexivity.
Qed.

(** C3, as stated, fails: with two worker threads, page 2 is already
    running when page 1 comes back with its quota failure; the loop is
    left at the first result it receives, page 2 then comes back with an
    image, and the function returns without that result. *)
Lemma running_result_not_recorded :
  ~ (forall (max_concurrent : nat) (worker : task -> work)
            (prompts_data : list task) (s1 s2 : list action)
            (p0 p1 p2 : pool) (i : nat) (tq t : task) (startedq started : Z),
       run max_concurrent worker s1 (submit_all prompts_data) = Some p0 ->
       running p0 !! i = Some (tq, startedq) ->
       outcome_reports_quota (gave (worker tq)) = true ->
       do_action max_concurrent worker (Finish i) p0 = Some p1 ->
       (t, started) ∈ running p1 ->
       run max_concurrent worker s2 p1 = Some p2 ->
       returned p2 = true ->
       results p2 !! t_key t = Some (record_of (gave (worker t)))).
Proof.
  intros H.
  assert (exists p0 p1 p2,
            run 2 quota_on_first [Start; Start]
              (submit_all [page_task 1; page_task 2]) = Some p0 /\
            running p0 !! 0%nat = Some (page_task 1, 0) /\
            outcome_reports_quota (gave (quota_on_first (page_task 1))) = true /\
            do_action 2 quota_on_first (Finish 0) p0 = Some p1 /\
            (page_task 2, 0) ∈ running p1 /\
            run 2 quota_on_first [Collect 0; Finish 0] p1 = Some p2 /\
            returned p2 = true /\
            results p2 !! t_key (page_task 2) = None)
    as (p0 & p1 & p2 & E0 & Hi & Hquota & E1 & Hin & E2 & Hret & Hnone).
  { eexists. eexists. eexists. split; [vm_compute; reflexivity|].
    split; [reflexivity|]. split; [reflexivity|].
    split; [vm_compute; reflexivity|].
    split; [vm_compute; apply list_elem_of_here|].
    split; [vm_compute; reflexivity|]. split; reflexivity. }
  specialize (H 2%nat quota_on_first _ _ _ p0 p1 p2 0%nat (page_task 1) (page_task 2)
                0 0 E0 Hi Hquota E1 Hin E2 Hret).
  rewrite Hnone in H. discriminate.
Qed.

(** C3, amended.  When a running call of a batch comes back with a
    quota failure, the flag is set, and in every state the batch reaches
    afterwards: the flag is still set; a task that starts returns the
    synthesised quota failure and the image service is not called for
    it; a call that is running is kept until it comes back by itself; a
    future that raised is recorded as a failure when the loop receives
    it, and the loop goes on; the first future with a returned result
    that the loop receives is recorded and ends the loop, the queued
    tasks being cancelled; and once the loop has ended nothing more is
    recorded, so that results coming back later are not in the returned
    mapping. *)
Theorem quota_trip_behaviour (max_concurrent : nat) (worker : task -> work)
    (prompts_data : list task) (s1 : list action) (p0 : pool)
    (i : nat) (t : task) (started : Z) :
  run max_concurrent worker s1 (submit_all prompts_data) = Some p0 ->
  running p0 !! i = Some (t, started) ->
  outcome_reports_quota (gave (worker t)) = true ->
  exists p1,
    do_action max_concurrent worker (Finish i) p0 = Some p1 /\
    quota_exhausted p1 = true /\
    (t, gave (worker t)) ∈ finished p1 /\
    forall s2 p, run max_concurrent worker s2 p1 = Some p ->
      quota_exhausted p = true /\
      (forall p', do_action max_concurrent worker Start p = Some p' ->
         exists t', pending p = t' :: pending p' /\
                    running p' = running p /\
                    invoked p' = invoked p /\
                    finished p' = finished p ++ [(t', Returned skipped)]) /\
      (forall a p' x, do_action max_concurrent worker a p = Some p' ->
         x ∈ running p ->
         x ∈ running p' \/ (x.1, gave (worker x.1)) ∈ finished p') /\
      (forall j p' t' msg,
         do_action max_concurrent worker (Collect j) p = Some p' ->
         finished p !! j = Some (t', Raised msg) ->
         results p' !! t_key t' = Some (failed msg) /\
         collecting p' = true /\ pending p' = pending p) /\
      (forall j p' t' r,
         do_action max_concurrent worker (Collect j) p = Some p' ->
         finished p !! j = Some (t', Returned r) ->
         results p' !! t_key t' = Some r /\
         collecting p' = false /\ pending p' = []) /\
      (collecting p = false ->
         forall later p', run max_concurrent worker later p = Some p' ->
           results p' = results p).
Proof.
  intros Hrun Hi Hquota.
  assert (Hfin : exists p1,
            do_action max_concurrent worker (Finish i) p0 = Some p1 /\
            quota_exhausted p1 = true /\ (t, gave (worker t)) ∈ finished p1).
  { cbn [do_action]. unfold finish. rewrite Hi. eexists. split; [reflexivity|].
    cbn. rewrite Hquota, orb_true_r. split; [reflexivity|].
    apply elem_of_app. right. apply list_elem_of_here. }
  destruct Hfin as (p1 & Hstep & Hq1 & Hin). exists p1.
  split; [exact Hstep|]. split; [exact Hq1|]. split; [exact Hin|].
  intros s2 p Hlater.
  pose proof (run_flag_monotone _ _ _ _ _ Hlater Hq1) as Hq.
  split; [exact Hq|]. split; [|split; [|split; [|split]]].
  - intros p' Hs. cbn in Hs. unfold start in Hs.
    destruct (pending p) as [|t' queue]; [discriminate|].
    match type of Hs with
    | (if ?b then _ else _) = _ => destruct b
    end; [|discriminate].
    rewrite Hq in Hs. inversion Hs; subst; cbn. eauto.
  - intros a p' x. apply step_running_kept.
  - intros j p' t' msg Hs Hf. cbn in Hs. unfold collect in Hs.
    destruct (collecting p); [|discriminate].
    rewrite Hf in Hs. inversion Hs; subst; cbn.
    rewrite lookup_insert_eq. auto.
  - intros j p' t' r Hs Hf. cbn in Hs. unfold collect in Hs.
    destruct (collecting p); [|discriminate].
    rewrite Hf, Hq in Hs. inversion Hs; subst; cbn.
    rewrite lookup_insert_eq. auto.
  - intros Hc later p' Hl.
    exact (proj2 (run_closed_results _ _ _ _ _ Hl Hc)).
Qed.

Lemma quota_trip_behaviour_witness :
  exists p1,
    do_action 2 quota_then_error (Finish 0) before_trip = Some p1 /\
    quota_exhausted p1 = true /\
    (page_task 1, gave (quota_then_error (page_task 1))) ∈ finished p1 /\
    forall s2 p, run 2 quota_then_error s2 p1 = Some p ->
      quota_exhausted p = true /\
      (forall p', do_action 2 quota_then_error Start p = Some p' ->
         exists t', pending p = t' :: pending p' /\
                    running p' = running p /\
                    invoked p' = invoked p /\
                    finished p' = finished p ++ [(t', Returned skipped)]) /\
      (forall a p' x, do_action 2 quota_then_error a p = Some p' ->
         x ∈ running p ->
         x ∈ running p' \/ (x.1, gave (quota_then_error x.1)) ∈ finished p') /\
      (forall j p' t' msg,
         do_action 2 quota_then_error (Collect j) p = Some p' ->
         finished p !! j = Some (t', Raised msg) ->
         results p' !! t_key t' = Some (failed msg) /\
         collecting p' = true /\ pending p' = pending p) /\
      (forall j p' t' r,
         do_action 2 quota_then_error (Collect j) p = Some p' ->
         finished p !! j = Some (t', Returned r) ->
         results p' !! t_key t' = Some r /\
         collecting p' = false /\ pending p' = []) /\
      (collecting p = false ->
         forall later p', run 2 quota_then_error later p = Some p' ->
           results p' = results p).
Proof.
  apply (quota_trip_behaviour 2 quota_then_error
           [page_task 1; page_task 2; cover_task] [Start; Start] before_trip
           0 (page_task 1) 0).
  - vm_compute. reflexivity.
  - vm_compute. reflexivity.
  - vm_compute. reflexivity.
Defined.

(** The batch of the witness, step by step.  Page 1 comes back with its
    quota failure while page 2 is running and the cover is queued.  The
    cover then starts and is skipped without a call of the image
    service; page 2 comes back with an exception, which the loop records
    without ending; the quota failure of page 1 is the first returned
    result the loop receives: it is recorded and the loop is left, so
    that the skipped cover, received by no one, is not in the mapping
    the function returns. *)
Example quota_trip_step_by_step :
  exists p1 p2 p3 p4 p5,
    do_action 2 quota_then_error (Finish 0) before_trip = Some p1 /\
    pending p1 = [cover_task] /\ (running p1).*1 = [page_task 2] /\
    invoked p1 = ["page_1"; "page_2"] /\
    do_action 2 quota_then_error Start p1 = Some p2 /\
    pending p2 = [] /\ invoked p2 = invoked p1 /\
    finished p2 = [(page_task 1, Returned quota_failure);
                   (cover_task, Returned skipped)] /\
    do_action 2 quota_then_error (Finish 0) p2 = Some p3 /\
    finished p3 = [(page_task 1, Returned quota_failure);
                   (cover_task, Returned skipped);
                   (page_task 2, Raised "boom")] /\
    do_action 2 quota_then_error (Collect 2) p3 = Some p4 /\
    results p4 = {["page_2" := failed "boom"]} /\ collecting p4 = true /\
    do_action 2 quota_then_error (Collect 0) p4 = Some p5 /\
    results p5 = <["page_1" := quota_failure]> {["page_2" := failed "boom"]} /\
    collecting p5 = false /\ returned p5 = true /\
    results p5 !! "cover" = None.
Proof.
  do 5 eexists.
  split; [vm_compute; reflexivity|]. split; [reflexivity|].
  split; [reflexivity|]. split; [reflexivity|].
  split; [vm_compute; reflexivity|]. split; [reflexivity|].
  split; [reflexivity|]. split; [reflexivity|].
  split; [vm_compute; reflexivity|]. split; [reflexivity|].
  split; [vm_compute; reflexivity|]. split; [reflexivity|].
  split; [reflexivity|].
  split; [vm_compute; reflexivity|]. split; [reflexivity|].
  split; [reflexivity|]. split; [reflexivity|]. reflexivity.
Qed.

(** C4, at the failing input.  A batch of one page whose image call
    takes 200 seconds, more than the 180 seconds written at line 970:
    the loop receives the future only once the call is back, 200 seconds
    after the start, and records the image that the call returned; no
    failure, and no timeout, is recorded for it. *)
Theorem overrunning_task_not_timed_out :
  exists p,
    run 5 slow_service [Start; Finish 0; Collect 0] (submit_all [page_task 1])
      = Some p /\
    returned p = true /\
    image_timeout < took (slow_service (page_task 1)) /\
    clock p = 200 /\
    results p !! "page_1" = Some ok_image /\
    success ok_image = true.
Proof.
  eexists. split; [vm_compute; reflexivity|].
  repeat split; vm_compute; reflexivity.
Qed.

(** Whatever the schedule, that batch returns the image of the
    overrunning call. *)
Lemma overrunning_task_every_schedule sched p :
  run 5 slow_service sched (submit_all [page_task 1]) = Some p ->
  returned p = true ->
  results p !! "page_1" = Some ok_image.
Proof.
  intros Hrun Hret.
  apply (no_quota_results 5 slow_service [page_task 1] sched p (page_task 1));
    try assumption.
  - apply (bool_decide_unpack _). vm_compute. reflexivity.
  - intros t _. reflexivity.
  - apply list_elem_of_here.
Qed.

(** ** The pipeline controller *)

Lemma prompt_tasks_length pgs : length (prompt_tasks pgs) = S (length pgs).
Proof. unfold prompt_tasks. rewrite length_app, length_imap. simpl. lia. Qed.

(** The prompt batch hands back one tuple for every page and one for the
    cover, in the order of completion. *)
Lemma generate_all_prompts_parallel_length env pgs :
  prompt_order env (prompt_tasks pgs) ≡ₚ prompt_tasks pgs ->
  length (generate_all_prompts_parallel env pgs) = S (length pgs).
Proof.
  intros Hp. unfold generate_all_prompts_parallel.
  rewrite length_fmap, Hp. apply prompt_tasks_length.
Qed.

(** With a prompt tuple at every index the loop builds one entry for
    every page. *)
Lemma build_pages_from_total prompts_data all_results audio_results pgs i :
  (i + length pgs <= length prompts_data)%nat ->
  exists entries,
    build_pages_from prompts_data all_results audio_results i pgs = Some entries /\
    length entries = length pgs /\
    forall j page_text, pgs !! j = Some page_text ->
      exists page_data,
        build_page prompts_data all_results audio_results (i + j) page_text
          = Some page_data /\
        entries !! j = Some page_data.
Proof.
  revert i. induction pgs as [|x rest IH]; intros i Hlen; simpl in *.
  - exists []. repeat split. intros j y Hj. rewrite lookup_nil in Hj. discriminate.
  - destruct (IH (S i) ltac:(lia)) as (entries & Hb & Hl & Hj).
    assert (Hi : (i < length prompts_data)%nat) by lia.
    apply lookup_lt_is_Some_2 in Hi as [pd Hpd].
    assert (Hx : exists e, build_page prompts_data all_results audio_results i x = Some e).
    { unfold build_page. rewrite Hpd. eauto. }
    destruct Hx as [e He]. rewrite He, Hb.
    exists (e :: entries). split; [reflexivity|]. split; [simpl; lia|].
    intros [|j] y Hy; simpl in Hy.
    + inversion Hy; subst. exists e. rewrite Nat.add_0_r. auto.
    + destruct (Hj j y Hy) as (pd' & Hb' & He').
      exists pd'. replace (i + S j)%nat with (S i + j)%nat by lia. auto.
Qed.

(** What [build_page] puts into an entry. *)
Lemma build_page_entry prompts_data all_results audio_results i page_text page_data :
  build_page prompts_data all_results audio_results i page_text = Some page_data ->
  Page.page_number page_data = Z.of_nat i + 1 /\
  Page.text page_data = page_text /\
  Page.success page_data
    = success (default image_missing (all_results !! page_key (Z.of_nat i + 1))) /\
  Page.audio_success page_data
    = success (default audio_missing (audio_results !! page_key (Z.of_nat i + 1))) /\
  (all_results !! page_key (Z.of_nat i + 1) = None ->
     Page.success page_data = false /\ Page.image_data page_data = VStr "") /\
  (audio_results !! page_key (Z.of_nat i + 1) = None ->
     Page.audio_success page_data = false /\
     Page.audio_url page_data = VStr "" /\
     Page.audio_duration page_data = VInt 0).
Proof.
  unfold build_page. destruct (prompts_data !! i) as [pd|]; [|discriminate].
  intros H. inversion H; subst; clear H. cbn.
  repeat split; try reflexivity;
    match goal with H : _ !! _ = None |- _ => rewrite H end; reflexivity.
Qed.

Lemma cover_prompt_entry prompts_data all_results audio_results :
  let c := build_cover prompts_data all_results audio_results in
  Cover.success c = success (default cover_missing (all_results !! "cover")) /\
  Cover.audio_success c = success (default audio_missing (audio_results !! "cover")) /\
  (all_results !! "cover" = None ->
     Cover.success c = false /\ Cover.image_data c = VStr "") /\
  (audio_results !! "cover" = None ->
     Cover.audio_success c = false /\
     Cover.audio_url c = VStr "" /\
     Cover.audio_duration c = VInt 0).
Proof.
  cbn. repeat split; try reflexivity;
    match goal with H : _ !! _ = None |- _ => rewrite H end; reflexivity.
Qed.

Lemma nested_description_dict st k dflt :
  (forall v, st !! k = Some v -> exists d, v = VDict d) ->
  exists v, nested_description st k dflt = Returned v.
Proof.
  intros H. unfold nested_description.
  destruct (st !! k) as [v|] eqn:Hk; [|eauto].
  destruct (H v eq_refl) as [d ->]. eauto.
Qed.

Section CompletedRun.

Variables (g : Generator.t) (req : request) (env : services).
Variables (structure_result pages_result : result).
Variables (st : gmap string value) (pgs : list value) (story_id : value).

(** Both primary stages succeed: the structure stage returns a
    dictionary whose character and setting, when present, are
    dictionaries, the page stage returns the list of pages and an
    identifier. *)
Hypothesis structure_returned : gen_structure env = Returned structure_result.
Hypothesis structure_ok : success structure_result = true.
Hypothesis structure_dict :
  fields structure_result !! "structure" = Some (VDict st).
Hypothesis character_dict :
  forall v, st !! "main_character" = Some v -> exists d, v = VDict d.
Hypothesis setting_dict :
  forall v, st !! "setting" = Some v -> exists d, v = VDict d.
Hypothesis pages_returned : gen_pages env (VDict st) = Returned pages_result.
Hypothesis pages_ok : success pages_result = true.
Hypothesis pages_list : fields pages_result !! "pages" = Some (VList pgs).
Hypothesis pages_id : fields pages_result !! "story_id" = Some story_id.

(** Every future of the prompt batch completes once. *)
Hypothesis prompts_complete :
  prompt_order env (prompt_tasks pgs) ≡ₚ prompt_tasks pgs.

#[local] Abbreviation prompts_data := (generate_all_prompts_parallel env pgs).
#[local] Abbreviation all_results := (image_batch env prompts_data).
#[local] Abbreviation audio_results := (audio_batch env pgs st).

(** Whatever the three batches hand back, the run is completed: the
    storybook is assembled from the batch results and becomes the
    current storybook. *)
Lemma create_storybook_completed :
  exists character scene entries,
    length entries = length pgs /\
    (forall j page_text, pgs !! j = Some page_text ->
       exists page_data,
         build_page prompts_data all_results audio_results j page_text
           = Some page_data /\
         entries !! j = Some page_data) /\
    let sb := mk_storybook story_id (req_theme req) (req_main_character req)
                (req_setting req) st character scene (now env) entries
                (build_cover prompts_data all_results audio_results) in
    create_storybook g req env
    = (Returned (Completed sb (generation_stats all_results)),
       [StructureCall; PagesCall; PromptBatch; ImageBatch; AudioBatch],
       set_current (begin_session g env) sb).
Proof.
  destruct (nested_description_dict st "main_character"
              (or_empty (req_character_desc req)) character_dict) as [cd Hcd].
  destruct (nested_description_dict st "setting"
              (or_empty (req_scene_desc req)) setting_dict) as [sd Hsd].
  destruct (build_pages_from_total prompts_data all_results audio_results pgs 0)
    as (entries & Hb & Hl & Hj).
  { rewrite (generate_all_prompts_parallel_length env pgs prompts_complete). simpl. lia. }
  exists cd, sd, entries. split; [exact Hl|]. split; [exact Hj|].
  unfold create_storybook. rewrite structure_returned, structure_ok. cbn [negb].
  rewrite structure_dict, pages_returned, pages_ok. cbn [negb].
  unfold media_and_assembly. rewrite pages_list, pages_id, Hcd, Hsd.
  unfold build_pages. rewrite Hb. reflexivity.
Qed.

End CompletedRun.

(** The image and audio part of an entry, read off the result found
    under its key. *)
Lemma build_page_media prompts_data all_results audio_results i page_text page_data :
  build_page prompts_data all_results audio_results i page_text = Some page_data ->
  let image_result :=
    default image_missing (all_results !! page_key (Z.of_nat i + 1)) in
  let audio_result :=
    default audio_missing (audio_results !! page_key (Z.of_nat i + 1)) in
  Page.page_number page_data = Z.of_nat i + 1 /\
  Page.text page_data = page_text /\
  Page.success page_data = success image_result /\
  Page.image_data page_data = get_field image_result "image_data" (VStr "") /\
  Page.image_url page_data = get_field image_result "image_url" (VStr "") /\
  Page.model page_data = get_field image_result "model" (VStr "midjourney") /\
  Page.audio_success page_data = success audio_result /\
  Page.audio_url page_data
  = (if success audio_result
     then get_field audio_result "audio_url" (VStr "") else VStr "") /\
  Page.audio_duration page_data
  = (if success audio_result
     then get_field audio_result "duration" (VInt 0) else VInt 0).
Proof.
  unfold build_page. destruct (prompts_data !! i) as [pd|]; [|discriminate].
  intros H. inversion H; subst; clear H. cbn. repeat split; reflexivity.
Qed.

(** C5.  In every run of [create_storybook]: a failed result of the
    structure stage is what the run returns, after that single call and
    with the current storybook left as it was; a failed result of the
    page stage likewise, after the two primary calls; no batch is
    submitted in either case.  When both primary stages succeed the run
    is completed whatever the prompt, image and audio batches hand back,
    failed units included: the three batches are submitted, and the
    storybook that is returned and becomes the current storybook has one
    entry per page and a cover entry, each carrying the flag and the
    payload of the result found for its own unit, an entry whose unit
    failed or is missing being a failed entry beside the successful
    ones. *)
Theorem create_storybook_abort_policy (g : Generator.t) (req : request)
    (env : services) :
  (forall r,
     gen_structure env = Returned r -> success r = false ->
     create_storybook g req env
     = (Returned (StageFailed r), [StructureCall], begin_session g env) /\
     Generator.current_storybook (begin_session g env)
     = Generator.current_storybook g) /\
  (forall r1 structure r2,
     gen_structure env = Returned r1 -> success r1 = true ->
     fields r1 !! "structure" = Some structure ->
     gen_pages env structure = Returned r2 -> success r2 = false ->
     create_storybook g req env
     = (Returned (StageFailed r2), [StructureCall; PagesCall], begin_session g env) /\
     Generator.current_storybook (begin_session g env)
     = Generator.current_storybook g) /\
  (forall r1 st r2 pgs story_id,
     gen_structure env = Returned r1 -> success r1 = true ->
     fields r1 !! "structure" = Some (VDict st) ->
     (forall v, st !! "main_character" = Some v -> exists d, v = VDict d) ->
     (forall v, st !! "setting" = Some v -> exists d, v = VDict d) ->
     gen_pages env (VDict st) = Returned r2 -> success r2 = true ->
     fields r2 !! "pages" = Some (VList pgs) ->
     fields r2 !! "story_id" = Some story_id ->
     prompt_order env (prompt_tasks pgs) ≡ₚ prompt_tasks pgs ->
     let all_results := image_batch env (generate_all_prompts_parallel env pgs) in
     let audio_results := audio_batch env pgs st in
     exists sb,
       create_storybook g req env
       = (Returned (Completed sb (generation_stats all_results)),
          [StructureCall; PagesCall; PromptBatch; ImageBatch; AudioBatch],
          set_current (begin_session g env) sb) /\
       Generator.current_storybook (set_current (begin_session g env) sb) = Some sb /\
       length (pages sb) = length pgs /\
       (forall i page_text, pgs !! i = Some page_text ->
          exists e,
            pages sb !! i = Some e /\
            let image_result :=
              default image_missing (all_results !! page_key (Z.of_nat i + 1)) in
            let audio_result :=
              default audio_missing (audio_results !! page_key (Z.of_nat i + 1)) in
            Page.page_number e = Z.of_nat i + 1 /\
            Page.text e = page_text /\
            Page.success e = success image_result /\
            Page.image_data e = get_field image_result "image_data" (VStr "") /\
            Page.image_url e = get_field image_result "image_url" (VStr "") /\
            Page.model e = get_field image_result "model" (VStr "midjourney") /\
            Page.audio_success e = success audio_result /\
            Page.audio_url e
            = (if success audio_result
               then get_field audio_result "audio_url" (VStr "") else VStr "") /\
            Page.audio_duration e
            = (if success audio_result
               then get_field audio_result "duration" (VInt 0) else VInt 0)) /\
       (let cover_result := default cover_missing (all_results !! "cover") in
        let cover_audio := default audio_missing (audio_results !! "cover") in
        Cover.success (cover sb) = success cover_result /\
        Cover.image_data (cover sb) = get_field cover_result "image_data" (VStr "") /\
        Cover.image_url (cover sb) = get_field cover_result "image_url" (VStr "") /\
        Cover.model (cover sb) = get_field cover_result "model" (VStr "midjourney") /\
        Cover.audio_success (cover sb) = success cover_audio /\
        Cover.audio_url (cover sb)
        = (if success cover_audio
           then get_field cover_audio "audio_url" (VStr "") else VStr "") /\
        Cover.audio_duration (cover sb)
        = (if success cover_audio
           then get_field cover_audio "duration" (VInt 0) else VInt 0))).
Proof.
  split; [|split].
  - intros r Hr Hs. split; [|reflexivity].
    unfold create_storybook. rewrite Hr, Hs. reflexivity.
  - intros r1 structure r2 Hr1 Hs1 Hst Hr2 Hs2. split; [|reflexivity].
    unfold create_storybook. rewrite Hr1, Hs1. cbn [negb].
    rewrite Hst, Hr2, Hs2. reflexivity.
  - intros r1 st r2 pgs story_id Hr1 Hs1 Hst Hmc Hset Hr2 Hs2 Hpgs Hid Hperm.
    cbv zeta.
    destruct (create_storybook_completed g req env r1 r2 st pgs story_id
                Hr1 Hs1 Hst Hmc Hset Hr2 Hs2 Hpgs Hid Hperm)
      as (cd & sd & entries & Hl & Hj & Hrun).
    eexists. split; [exact Hrun|]. split; [reflexivity|].
    cbn [pages cover]. split; [exact Hl|]. split.
    + intros i page_text Hi. destruct (Hj i page_text Hi) as (e & Hb & He).
      exists e. split; [exact He|].
      exact (build_page_media _ _ _ _ _ _ Hb).
    + unfold build_cover. cbn. repeat split; reflexivity.
Qed.

Lemma create_storybook_abort_policy_witness :
  let g := init_generator true in
  let pgs := [VStr "The fox finds a berry."; VStr "The fox shares it."] in
  let all_results :=
    image_batch partial_batches (generate_all_prompts_parallel partial_batches pgs) in
  let audio_results := audio_batch partial_batches pgs sample_structure in
  (create_storybook g sample_request structure_fails
   = (Returned (StageFailed (failed "invalid API key")), [StructureCall],
      begin_session g structure_fails) /\
   Generator.current_storybook (begin_session g structure_fails)
   = Generator.current_storybook g) /\
  (create_storybook g sample_request pages_fail
   = (Returned (StageFailed (failed "empty response")), [StructureCall; PagesCall],
      begin_session g pages_fail) /\
   Generator.current_storybook (begin_session g pages_fail)
   = Generator.current_storybook g) /\
  (exists sb,
     create_storybook g sample_request partial_batches
     = (Returned (Completed sb (generation_stats all_results)),
        [StructureCall; PagesCall; PromptBatch; ImageBatch; AudioBatch],
        set_current (begin_session g partial_batches) sb) /\
     Generator.current_storybook (set_current (begin_session g partial_batches) sb)
     = Some sb /\
     length (pages sb) = length pgs /\
     (forall i page_text, pgs !! i = Some page_text ->
        exists e,
          pages sb !! i = Some e /\
          let image_result :=
            default image_missing (all_results !! page_key (Z.of_nat i + 1)) in
          let audio_result :=
            default audio_missing (audio_results !! page_key (Z.of_nat i + 1)) in
          Page.page_number e = Z.of_nat i + 1 /\
          Page.text e = page_text /\
          Page.success e = success image_result /\
          Page.image_data e = get_field image_result "image_data" (VStr "") /\
          Page.image_url e = get_field image_result "image_url" (VStr "") /\
          Page.model e = get_field image_result "model" (VStr "midjourney") /\
          Page.audio_success e = success audio_result /\
          Page.audio_url e
          = (if success audio_result
             then get_field audio_result "audio_url" (VStr "") else VStr "") /\
          Page.audio_duration e
          = (if success audio_result
             then get_field audio_result "duration" (VInt 0) else VInt 0)) /\
     (let cover_result := default cover_missing (all_results !! "cover") in
      let cover_audio := default audio_missing (audio_results !! "cover") in
      Cover.success (cover sb) = success cover_result /\
      Cover.image_data (cover sb) = get_field cover_result "image_data" (VStr "") /\
      Cover.image_url (cover sb) = get_field cover_result "image_url" (VStr "") /\
      Cover.model (cover sb) = get_field cover_result "model" (VStr "midjourney") /\
      Cover.audio_success (cover sb) = success cover_audio /\
      Cover.audio_url (cover sb)
      = (if success cover_audio
         then get_field cover_audio "audio_url" (VStr "") else VStr "") /\
      Cover.audio_duration (cover sb)
      = (if success cover_audio
         then get_field cover_audio "duration" (VInt 0) else VInt 0))).
Proof.
  split; [|split].
  - apply (proj1 (create_storybook_abort_policy (init_generator true)
                    sample_request structure_fails)
             (failed "invalid API key")).
    + reflexivity.
    + reflexivity.
  - apply (proj1 (proj2 (create_storybook_abort_policy (init_generator true)
                           sample_request pages_fail))
             sample_structure_result (VDict sample_structure)
             (failed "empty response")).
    + reflexivity.
    + reflexivity.
    + reflexivity.
    + reflexivity.
    + reflexivity.
  - apply (proj2 (proj2 (create_storybook_abort_policy (init_generator true)
                           sample_request partial_batches))
             sample_structure_result sample_structure sample_pages_result
             [VStr "The fox finds a berry."; VStr "The fox shares it."] (VStr "7f3c")).
    + reflexivity.
    + reflexivity.
    + reflexivity.
    + intros v Hv. vm_compute in Hv. inversion Hv. eauto.
    + intros v Hv. vm_compute in Hv. inversion Hv. eauto.
    + reflexivity.
    + reflexivity.
    + reflexivity.
    + reflexivity.
    + apply reverse_Permutation.
Defined.

(** The run of the witness whose batches succeed in part: the storybook
    holds the image of page 1 beside the failed page 2 and the failed
    cover, and the audio of page 1 and of the cover beside the failed
    audio of page 2. *)
Example partially_successful_storybook :
  exists sb stats,
    (create_storybook (init_generator true) sample_request partial_batches).1.1
      = Returned (Completed sb stats) /\
    Page.success <$> pages sb = [true; false] /\
    Page.image_data <$> pages sb = [VStr "aGVsbG8="; VStr ""] /\
    Page.audio_success <$> pages sb = [true; false] /\
    Cover.success (cover sb) = false /\
    Cover.audio_success (cover sb) = true /\
    Stats.total_images stats = 2%nat /\
    Stats.successful_images stats = 1%nat /\
    Stats.failed_images stats = 1.
Proof. eexists. eexists. split; [vm_compute; reflexivity|]. repeat split. Qed.

(** C9.  When both primary stages have succeeded, [create_storybook]
    assembles one entry for every page, numbered from 1 in page order,
    and one cover entry, whatever the image and audio mappings hold.
    The success flag of an entry is that of the result found under its
    key; a key absent from the image mapping gives an entry whose flag is
    false and whose image is empty (the lookup falls back on a failed
    result that carries an error message); a key absent from the audio
    mapping gives an entry without audio. *)
Theorem assembly_total (g : Generator.t) (req : request) (env : services)
    (r1 r2 : result) (st : gmap string value) (pgs : list value)
    (story_id : value) :
  gen_structure env = Returned r1 -> success r1 = true ->
  fields r1 !! "structure" = Some (VDict st) ->
  (forall v, st !! "main_character" = Some v -> exists d, v = VDict d) ->
  (forall v, st !! "setting" = Some v -> exists d, v = VDict d) ->
  gen_pages env (VDict st) = Returned r2 -> success r2 = true ->
  fields r2 !! "pages" = Some (VList pgs) ->
  fields r2 !! "story_id" = Some story_id ->
  prompt_order env (prompt_tasks pgs) ≡ₚ prompt_tasks pgs ->
  let all_results := image_batch env (generate_all_prompts_parallel env pgs) in
  let audio_results := audio_batch env pgs st in
  exists sb stats,
    (create_storybook g req env).1.1 = Returned (Completed sb stats) /\
    length (pages sb) = length pgs /\
    (forall i page_text, pgs !! i = Some page_text ->
       exists e,
         pages sb !! i = Some e /\
         Page.page_number e = Z.of_nat i + 1 /\
         Page.text e = page_text /\
         Page.success e
           = success (default image_missing (all_results !! page_key (Z.of_nat i + 1))) /\
         Page.audio_success e
           = success (default audio_missing (audio_results !! page_key (Z.of_nat i + 1))) /\
         (all_results !! page_key (Z.of_nat i + 1) = None ->
            Page.success e = false /\ Page.image_data e = VStr "") /\
         (audio_results !! page_key (Z.of_nat i + 1) = None ->
            Page.audio_success e = false /\
            Page.audio_url e = VStr "" /\
            Page.audio_duration e = VInt 0)) /\
    Cover.success (cover sb)
      = success (default cover_missing (all_results !! "cover")) /\
    (all_results !! "cover" = None ->
       Cover.success (cover sb) = false /\ Cover.image_data (cover sb) = VStr "") /\
    (audio_results !! "cover" = None ->
       Cover.audio_success (cover sb) = false /\
       Cover.audio_url (cover sb) = VStr "" /\
       Cover.audio_duration (cover sb) = VInt 0) /\
    (success image_missing = false /\ is_Some (error image_missing)) /\
    (success cover_missing = false /\ is_Some (error cover_missing)) /\
    (success audio_missing = false /\ is_Some (error audio_missing)).
Proof.
  intros Hr1 Hs1 Hst Hmc Hset Hr2 Hs2 Hpgs Hid Hperm all_results audio_results.
  destruct (create_storybook_completed g req env r1 r2 st pgs story_id
              Hr1 Hs1 Hst Hmc Hset Hr2 Hs2 Hpgs Hid Hperm)
    as (cd & sd & entries & Hl & Hj & Hrun).
  cbv zeta in Hrun. rewrite Hrun. cbn [fst snd pages cover].
  eexists. eexists. split; [reflexivity|]. split; [exact Hl|].
  split.
  { intros i page_text Hi. destruct (Hj i page_text Hi) as (e & Hb & He).
    exists e. split; [exact He|]. exact (build_page_entry _ _ _ _ _ _ Hb). }
  pose proof (cover_prompt_entry (generate_all_prompts_parallel env pgs)
                all_results audio_results) as (Hc1 & _ & Hc3 & Hc4).
  split; [exact Hc1|]. split; [exact Hc3|]. split; [exact Hc4|].
  repeat split; eexists; reflexivity.
Qed.

Lemma assembly_total_witness :
  let pgs := [VStr "The fox finds a berry."; VStr "The fox shares it."] in
  let all_results :=
    image_batch sample_services (generate_all_prompts_parallel sample_services pgs) in
  let audio_results := audio_batch sample_services pgs sample_structure in
  exists sb stats,
    (create_storybook (init_generator true) sample_request sample_services).1.1
      = Returned (Completed sb stats) /\
    length (pages sb) = length pgs /\
    (forall i page_text, pgs !! i = Some page_text ->
       exists e,
         pages sb !! i = Some e /\
         Page.page_number e = Z.of_nat i + 1 /\
         Page.text e = page_text /\
         Page.success e
           = success (default image_missing (all_results !! page_key (Z.of_nat i + 1))) /\
         Page.audio_success e
           = success (default audio_missing (audio_results !! page_key (Z.of_nat i + 1))) /\
         (all_results !! page_key (Z.of_nat i + 1) = None ->
            Page.success e = false /\ Page.image_data e = VStr "") /\
         (audio_results !! page_key (Z.of_nat i + 1) = None ->
            Page.audio_success e = false /\
            Page.audio_url e = VStr "" /\
            Page.audio_duration e = VInt 0)) /\
    Cover.success (cover sb)
      = success (default cover_missing (all_results !! "cover")) /\
    (all_results !! "cover" = None ->
       Cover.success (cover sb) = false /\ Cover.image_data (cover sb) = VStr "") /\
    (audio_results !! "cover" = None ->
       Cover.audio_success (cover sb) = false /\
       Cover.audio_url (cover sb) = VStr "" /\
       Cover.audio_duration (cover sb) = VInt 0) /\
    (success image_missing = false /\ is_Some (error image_missing)) /\
    (success cover_missing = false /\ is_Some (error cover_missing)) /\
    (success audio_missing = false /\ is_Some (error audio_missing)).
Proof.
  apply (assembly_total (init_generator true) sample_request sample_services
           sample_structure_result sample_pages_result sample_structure
           [VStr "The fox finds a berry."; VStr "The fox shares it."] (VStr "7f3c")).
  - reflexivity.
  - reflexivity.
  - reflexivity.
  - intros v Hv. vm_compute in Hv. inversion Hv. eauto.
  - intros v Hv. vm_compute in Hv. inversion Hv. eauto.
  - reflexivity.
  - reflexivity.
  - reflexivity.
  - reflexivity.
  - apply reverse_Permutation.
Defined.

(** The storybook of the sample run: the image mapping holds page 1
    only, with a quota failure, so that all three image flags are false;
    the audio of page 2 failed. *)
Example sample_run_flags :
  exists sb stats,
    (create_storybook (init_generator true) sample_request sample_services).1.1
      = Returned (Completed sb stats) /\
    Page.success <$> pages sb = [false; false] /\
    Page.audio_success <$> pages sb = [true; false] /\
    Cover.success (cover sb) = false /\
    Cover.audio_success (cover sb) = true /\
    Stats.total_images stats = 1%nat /\
    Stats.successful_images stats = 0%nat /\
    Stats.quota_exhausted stats = true.
Proof. eexists. eexists. split; [vm_compute; reflexivity|]. repeat split. Qed.

(** ** The quota attribute of the generator *)

Lemma create_storybook_quota_attribute g req env :
  Generator.quota_exhausted (create_storybook g req env).2
  = Generator.quota_exhausted g.
Proof.
  unfold create_storybook.
  destruct (gen_structure env) as [r1|msg]; [|reflexivity].
  destruct (success r1); cbn [negb]; [|reflexivity].
  destruct (fields r1 !! "structure") as [structure|]; [|reflexivity].
  destruct (gen_pages env structure) as [r2|msg]; [|reflexivity].
  destruct (success r2); cbn [negb]; [|reflexivity].
  unfold media_and_assembly.
  destruct (fields r2 !! "pages") as [pv|]; [|reflexivity].
  destruct (fields r2 !! "story_id") as [sid|]; [|reflexivity].
  destruct structure; try reflexivity.
  destruct (nested_description _ "main_character" _); [|reflexivity].
  destruct (nested_description _ "setting" _); [|reflexivity].
  destruct pv; try reflexivity.
  destruct (build_pages _ _ _ _); reflexivity.
Qed.

Lemma apply_operation_quota_attribute g op :
  Generator.quota_exhausted (apply_operation g op) = Generator.quota_exhausted g.
Proof.
  destruct op as [req env|svc failed_pages|]; cbn [apply_operation].
  - apply create_storybook_quota_attribute.
  - unfold api_regenerate_images.
    destruct (Generator.current_storybook g); reflexivity.
  - reflexivity.
Qed.

(** C10.  The [quota_exhausted] attribute of the generator is false at
    construction and no operation assigns it: after any sequence of
    operations the quota-status query reports [quota_exhausted] false. *)
Theorem quota_status_always_false (client : bool) (ops : list operation) :
  Generator.quota_exhausted (init_generator client) = false /\
  status_quota_exhausted
    (api_check_quota_status (foldl apply_operation (init_generator client) ops))
  = false.
Proof.
  split; [reflexivity|].
  cbn [api_check_quota_status status_quota_exhausted].
  assert (Hinit : Generator.quota_exhausted (init_generator client) = false)
    by reflexivity.
  revert Hinit. generalize (init_generator client).
  induction ops as [|op rest IH]; intros g Hg; cbn [foldl]; [exact Hg|].
  apply IH. rewrite apply_operation_quota_attribute. exact Hg.
Qed.

(** The sample run meets quota exhaustion in its image batch, and says
    so in its statistics; the query that follows still reports false. *)
Example quota_status_after_quota_run :
  let run := create_storybook (init_generator true) sample_request sample_services in
  (exists sb stats, run.1.1 = Returned (Completed sb stats) /\
                    Stats.quota_exhausted stats = true) /\
  status_quota_exhausted (api_check_quota_status run.2) = false.
Proof.
  split; [|vm_compute; reflexivity].
  eexists. eexists. split; [vm_compute; reflexivity|reflexivity].
Qed.

(** ** The repair path *)

Lemma Forall2_diag {A} (P : A -> A -> Prop) (l : list A) :
  (forall x, P x x) -> Forall2 P l l.
Proof. intros H. induction l; constructor; auto. Qed.

Lemma NoDup_fmap_eq {A B} (f : A -> B) (l : list A) x y :
  NoDup (f <$> l) -> x ∈ l -> y ∈ l -> f x = f y -> x = y.
Proof.
  intros Hnd Hx Hy Hf.
  apply list_elem_of_lookup in Hx as [i Hi]. apply list_elem_of_lookup in Hy as [j Hj].
  assert (i = j) as ->.
  { apply (NoDup_lookup _ i j (f x) Hnd);
      rewrite list_lookup_fmap; [rewrite Hi|rewrite Hj]; cbn; congruence. }
  congruence.
Qed.

(** [update_first] touches at most entries that carry the number, and
    those only through [update_page]. *)
Lemma update_first_frame n r l :
  Forall2 (fun e e' => e' = e \/ (Page.page_number e = n /\ e' = update_page e r))
    l (update_first n r l).
Proof.
  induction l as [|e rest IH]; simpl; [constructor|].
  destruct (Z.eqb_spec (Page.page_number e) n) as [Heq|Hne].
  - constructor; [right; auto|]. apply Forall2_diag. auto.
  - constructor; [left; reflexivity|exact IH].
Qed.

Lemma changed_by_step info n r rest (x y z : Page.t) :
  pi_is_cover info = false -> pi_page_number info = n -> success r = true ->
  (y = x \/ (Page.page_number x = n /\ y = update_page x r)) ->
  changed_by rest y z ->
  changed_by (info :: rest) x z.
Proof.
  intros Hc Hn Hs Hxy Hyz. unfold changed_by in *.
  destruct Hxy as [->|[Hx ->]].
  - destruct Hyz as [->|(i & r' & Hi & ? & ? & ? & ?)]; [left; reflexivity|].
    right. exists i, r'. repeat split; try assumption. apply list_elem_of_further, Hi.
  - destruct Hyz as [->|(i & r' & Hi & ? & Hnum & ? & ->)].
    + right. exists info, r. repeat split; try assumption.
      * apply list_elem_of_here.
      * congruence.
    + right. exists i, r'. repeat split; try assumption.
      apply list_elem_of_further, Hi.
Qed.

Lemma changed_by_weaken info rest (x z : Page.t) :
  changed_by rest x z -> changed_by (info :: rest) x z.
Proof.
  intros [->|(i & r' & Hi & ? & ? & ? & ?)]; [left; reflexivity|].
  right. exists i, r'. repeat split; try assumption. apply list_elem_of_further, Hi.
Qed.

(** The update loop changes pages and cover only, and those only as
    [changed_by] and [update_cover] allow. *)
Lemma apply_results_frame rr todo sb n sb' n' :
  apply_results rr todo sb n = Some (sb', n') ->
  sb' = set_cover (set_pages sb (pages sb')) (cover sb') /\
  Forall2 (changed_by todo) (pages sb) (pages sb') /\
  (cover sb' = cover sb \/
   exists info r,
     info ∈ todo /\ pi_is_cover info = true /\ success r = true /\
     cover sb' = update_cover (cover sb) r).
Proof.
  revert sb n. induction todo as [|info rest IH]; intros sb n H; simpl in H.
  - inversion H; subst. split; [destruct sb'; reflexivity|].
    split; [apply Forall2_diag; left; reflexivity|left; reflexivity].
  - destruct (rr !! pi_key info) as [r|]; [|discriminate].
    destruct (success r) eqn:Hs.
    + destruct (pi_is_cover info) eqn:Hc.
      * apply IH in H as (Heq & Hp & Hcov). cbn in *.
        split; [destruct sb; cbn in *; exact Heq|].
        split; [eapply Forall2_impl; [exact Hp|apply changed_by_weaken]|].
        right. destruct Hcov as [->|(i & r' & Hi & ? & ? & ->)].
        -- exists info, r. repeat split; try assumption. apply list_elem_of_here.
        -- exists i, r'. repeat split; try assumption. apply list_elem_of_further, Hi.
      * apply IH in H as (Heq & Hp & Hcov). cbn in *.
        split; [destruct sb; cbn in *; exact Heq|].
        split.
        -- eapply Forall2_trans; [|apply update_first_frame|exact Hp].
           intros x y z Hxy Hyz.
           exact (changed_by_step info _ r rest x y z Hc eq_refl Hs Hxy Hyz).
        -- destruct Hcov as [->|(i & r' & Hi & ? & ? & ->)]; [left; reflexivity|].
           right. exists i, r'. repeat split; try assumption.
           apply list_elem_of_further, Hi.
    + apply IH in H as (Heq & Hp & Hcov).
      split; [exact Heq|].
      split; [eapply Forall2_impl; [exact Hp|apply changed_by_weaken]|].
      destruct Hcov as [->|(i & r' & Hi & ? & ? & ->)]; [left; reflexivity|].
      right. exists i, r'. repeat split; try assumption.
      apply list_elem_of_further, Hi.
Qed.

(** A page is listed for regeneration only if its flag is false and its
    number is selected. *)
Lemma pages_to_regenerate_page sb failed_page_numbers info :
  info ∈ pages_to_regenerate sb failed_page_numbers ->
  pi_is_cover info = false ->
  exists page,
    page ∈ pages sb /\
    Page.page_number page = pi_page_number info /\
    Page.success page = false /\
    selected failed_page_numbers (Page.page_number page) = true.
Proof.
  unfold pages_to_regenerate. intros Hin Hc.
  apply elem_of_app in Hin as [Hin|Hin].
  - apply list_elem_of_omap in Hin as (page & Hp & Hf).
    destruct (Page.success page) eqn:Hs; cbn in Hf; [discriminate|].
    destruct (selected failed_page_numbers (Page.page_number page)) eqn:Hsel;
      cbn in Hf; [|discriminate].
    inversion Hf; subst; cbn. eauto.
  - destruct (negb (Cover.success (cover sb)) && selected failed_page_numbers 0).
    + apply list_elem_of_singleton in Hin. subst. discriminate.
    + inversion Hin.
Qed.

(** The cover is listed only if its flag is false and page 0 is
    selected. *)
Lemma pages_to_regenerate_cover sb failed_page_numbers info :
  info ∈ pages_to_regenerate sb failed_page_numbers ->
  pi_is_cover info = true ->
  Cover.success (cover sb) = false /\ selected failed_page_numbers 0 = true.
Proof.
  unfold pages_to_regenerate. intros Hin Hc.
  apply elem_of_app in Hin as [Hin|Hin].
  - apply list_elem_of_omap in Hin as (page & Hp & Hf).
    destruct (negb (Page.success page)
              && selected failed_page_numbers (Page.page_number page));
      [|discriminate].
    inversion Hf; subst. discriminate.
  - destruct (Cover.success (cover sb)); cbn in Hin; [inversion Hin|].
    destruct (selected failed_page_numbers 0); [auto|inversion Hin].
Qed.

(** The generation loop works through the list in order, the prompt
    and then the image of one entry before the next entry; it stops
    early only on an exception. *)
Lemma regenerate_loop_trace svc todo rr :
  (regenerate_loop svc todo rr).2 `prefix_of` sequential_calls todo /\
  (forall res, (regenerate_loop svc todo rr).1 = Returned res ->
     (regenerate_loop svc todo rr).2 = sequential_calls todo).
Proof.
  revert rr. induction todo as [|info rest IH]; intros rr; simpl.
  - split; [reflexivity|auto].
  - destruct (regen_prompt svc info) as [prompt|msg]; simpl.
    + destruct (regen_image svc info prompt) as [r|msg]; simpl.
      * specialize (IH (<[pi_key info := r]> rr)).
        destruct (regenerate_loop svc rest _) as [o tr]. simpl in *.
        destruct IH as [Hp He]. split.
        -- apply (prefix_app [PromptCall (pi_key info); ImageCall (pi_key info)]), Hp.
        -- intros res Hres. rewrite (He res Hres). reflexivity.
      * split; [|discriminate].
        exists (sequential_calls rest). reflexivity.
    + split; [|discriminate].
      exists (ImageCall (pi_key info) :: sequential_calls rest). reflexivity.
Qed.

(** The two ways [regenerate_failed_images] ends: without touching the
    storybook, or after a full pass and the update loop. *)
Lemma regenerate_failed_images_cases svc sb failed_page_numbers :
  let run := regenerate_failed_images svc sb failed_page_numbers in
  let todo := pages_to_regenerate sb failed_page_numbers in
  (run.1.2 = sb /\
   run.2 `prefix_of` sequential_calls todo /\
   (forall n m, run.1.1 <> Returned (Regenerated n m))) \/
  (exists rr n,
     apply_results rr todo sb 0 = Some (run.1.2, n) /\
     run.1.1 = Returned (Regenerated n (length todo)) /\
     run.2 = sequential_calls todo).
Proof.
  cbv zeta. unfold regenerate_failed_images.
  destruct (bool_decide (story_structure sb = ∅)).
  { left. cbn. split; [reflexivity|]. split; [apply prefix_nil|discriminate]. }
  destruct (pages_to_regenerate sb failed_page_numbers) as [|info rest] eqn:Htodo.
  { left. cbn. split; [reflexivity|]. split; [apply prefix_nil|discriminate]. }
  pose proof (regenerate_loop_trace svc (info :: rest) ∅) as [Hp He].
  destruct (regenerate_loop svc (info :: rest) ∅) as [[rr|msg] tr]; cbn [fst snd] in *.
  - destruct (apply_results rr (info :: rest) sb 0) as [[sb' n]|] eqn:Ha; cbn [fst snd].
    + right. exists rr, n. split; [exact Ha|]. split; [reflexivity|]. exact (He rr eq_refl).
    + left. split; [reflexivity|]. split; [exact Hp|discriminate].
  - left. split; [reflexivity|]. split; [exact Hp|discriminate].
Qed.

(** C8.  On a storybook whose pages carry distinct numbers,
    [regenerate_failed_images] changes nothing but page and cover
    entries; every page keeps its place; a page entry is changed only if
    its image flag was false and its number is selected (every number
    when no list is given), and then only by [update_page], which
    rewrites its image, flag and model from a successful result; the
    same holds for the cover, addressed as page 0.  Hence every entry
    whose flag was true, or whose number is not selected, is left as it
    was.  The image service is called for the listed entries one after
    the other, the prompt and then the image of an entry before the next
    entry; when an exception cuts the pass short the storybook is left
    untouched. *)
Theorem regeneration_frame (svc : regen_services) (sb : storybook)
    (failed_page_numbers : option (list Z)) :
  NoDup (Page.page_number <$> pages sb) ->
  let run := regenerate_failed_images svc sb failed_page_numbers in
  let sb' := run.1.2 in
  let todo := pages_to_regenerate sb failed_page_numbers in
  sb' = set_cover (set_pages sb (pages sb')) (cover sb') /\
  length (pages sb') = length (pages sb) /\
  (forall i e, pages sb !! i = Some e ->
     exists e',
       pages sb' !! i = Some e' /\
       (e' = e \/
        (Page.success e = false /\
         selected failed_page_numbers (Page.page_number e) = true /\
         exists r, success r = true /\ e' = update_page e r))) /\
  (cover sb' = cover sb \/
   (Cover.success (cover sb) = false /\
    selected failed_page_numbers 0 = true /\
    exists r, success r = true /\ cover sb' = update_cover (cover sb) r)) /\
  (forall i e, pages sb !! i = Some e ->
     Page.success e = true \/
     selected failed_page_numbers (Page.page_number e) = false ->
     pages sb' !! i = Some e) /\
  (Cover.success (cover sb) = true \/ selected failed_page_numbers 0 = false ->
   cover sb' = cover sb) /\
  run.2 `prefix_of` sequential_calls todo /\
  (forall n m, run.1.1 = Returned (Regenerated n m) ->
     run.2 = sequential_calls todo /\ m = length todo) /\
  (forall msg, run.1.1 = Raised msg -> sb' = sb).
Proof.
  intros Hnd. cbv zeta.
  pose proof (regenerate_failed_images_cases svc sb failed_page_numbers) as Hcases.
  cbv zeta in Hcases.
  set (run := regenerate_failed_images svc sb failed_page_numbers) in *.
  set (sb' := run.1.2) in *.
  set (todo := pages_to_regenerate sb failed_page_numbers) in *.
  destruct Hcases as [(Hsame & Hp & Hno)|(rr & n & Ha & Hres & Htr)].
  - rewrite Hsame. split; [destruct sb; reflexivity|].
    split; [reflexivity|].
    split; [intros i e Hi; exists e; auto|].
    split; [left; reflexivity|].
    split; [auto|]. split; [auto|]. split; [exact Hp|].
    split; [intros n m H; destruct (Hno n m H)|reflexivity].
  - destruct (apply_results_frame _ _ _ _ _ _ Ha) as (Heq & Hpg & Hcov).
    assert (Hlook : forall i e, pages sb !! i = Some e ->
              exists e', pages sb' !! i = Some e' /\
                (e' = e \/
                 (Page.success e = false /\
                  selected failed_page_numbers (Page.page_number e) = true /\
                  exists r, success r = true /\ e' = update_page e r))).
    { intros i e Hi.
      destruct (Forall2_lookup_l _ _ _ _ _ Hpg Hi) as (e' & He' & Hee).
      exists e'. split; [exact He'|].
      destruct Hee as [->|(info & r & Hin & Hc & Hnum & Hs & ->)]; [left; reflexivity|].
      right.
      destruct (pages_to_regenerate_page sb failed_page_numbers info Hin Hc)
        as (page & Hpage & Hpn & Hps & Hsel).
      assert (He : e ∈ pages sb) by (apply list_elem_of_lookup; eauto).
      assert (page = e) as ->
        by (apply (NoDup_fmap_eq Page.page_number (pages sb));
            try assumption; congruence).
      eauto. }
    assert (Hcover :
      cover sb' = cover sb \/
      (Cover.success (cover sb) = false /\
       selected failed_page_numbers 0 = true /\
       exists r, success r = true /\ cover sb' = update_cover (cover sb) r)).
    { destruct Hcov as [->|(info & r & Hin & Hc & Hs & ->)]; [left; reflexivity|].
      right.
      destruct (pages_to_regenerate_cover sb failed_page_numbers info Hin Hc).
      eauto. }
    split; [exact Heq|].
    split; [symmetry; exact (Forall2_length _ _ _ Hpg)|].
    split; [exact Hlook|]. split; [exact Hcover|].
    split.
    { intros i e Hi Hkeep.
      destruct (Hlook i e Hi) as (e' & He' & [->|(Hs & Hsel & _)]); [exact He'|].
      destruct Hkeep; congruence. }
    split.
    { intros Hkeep. destruct Hcover as [?|(Hs & Hsel & _)]; [assumption|].
      destruct Hkeep; congruence. }
    split; [rewrite Htr; reflexivity|].
    split; [|intros msg H; rewrite Hres in H; discriminate].
    intros n' m H. rewrite Hres in H. inversion H; subst. auto.
Qed.

Lemma regeneration_frame_witness :
  let failed_page_numbers := Some [1; 2] in
  let sb := sample_storybook in
  let run := regenerate_failed_images sample_regen_services sb failed_page_numbers in
  let sb' := run.1.2 in
  let todo := pages_to_regenerate sb failed_page_numbers in
  sb' = set_cover (set_pages sb (pages sb')) (cover sb') /\
  length (pages sb') = length (pages sb) /\
  (forall i e, pages sb !! i = Some e ->
     exists e',
       pages sb' !! i = Some e' /\
       (e' = e \/
        (Page.success e = false /\
         selected failed_page_numbers (Page.page_number e) = true /\
         exists r, success r = true /\ e' = update_page e r))) /\
  (cover sb' = cover sb \/
   (Cover.success (cover sb) = false /\
    selected failed_page_numbers 0 = true /\
    exists r, success r = true /\ cover sb' = update_cover (cover sb) r)) /\
  (forall i e, pages sb !! i = Some e ->
     Page.success e = true \/
     selected failed_page_numbers (Page.page_number e) = false ->
     pages sb' !! i = Some e) /\
  (Cover.success (cover sb) = true \/ selected failed_page_numbers 0 = false ->
   cover sb' = cover sb) /\
  run.2 `prefix_of` sequential_calls todo /\
  (forall n m, run.1.1 = Returned (Regenerated n m) ->
     run.2 = sequential_calls todo /\ m = length todo) /\
  (forall msg, run.1.1 = Raised msg -> sb' = sb).
Proof.
  apply (regeneration_frame sample_regen_services sample_storybook (Some [1; 2])).
  apply (bool_decide_unpack _). vm_compute. reflexivity.
Defined.

(** The sample storybook repaired for pages 1 and 2: page 1, whose flag
    was false, is regenerated; page 2, whose flag was true, and the
    cover, which is not selected, are as before. *)
Example sample_regeneration :
  let run := regenerate_failed_images sample_regen_services sample_storybook
               (Some [1; 2]) in
  run.1.1 = Returned (Regenerated 1 1) /\
  run.2 = [PromptCall "page_1"; ImageCall "page_1"] /\
  Page.success <$> pages run.1.2 = [true; true] /\
  pages run.1.2 !! 1%nat = pages sample_storybook !! 1%nat /\
  cover run.1.2 = cover sample_storybook.
Proof. vm_compute. repeat split. Qed.

(** Without the distinctness of page numbers the update loop may hit
    another entry than the one listed: the first page carrying the
    number is the one updated. *)
Example update_first_takes_first r (p1 p2 : Page.t) :
  Page.page_number p1 = Page.page_number p2 ->
  update_first (Page.page_number p2) r [p1; p2] = [update_page p1 r; p2].
Proof. intros H. simpl. rewrite H, Z.eqb_refl. reflexivity. Qed.

(** *** The storybooks the generator holds have distinct page numbers *)

Lemma build_pages_from_numbers prompts_data all_results audio_results pgs i entries :
  build_pages_from prompts_data all_results audio_results i pgs = Some entries ->
  Page.page_number <$> entries
  = (fun j => Z.of_nat j + 1) <$> seq i (length pgs).
Proof.
  revert i entries. induction pgs as [|x rest IH]; intros i entries H; simpl in H.
  - inversion H. reflexivity.
  - destruct (build_page _ _ _ i x) as [e|] eqn:He; [|discriminate].
    destruct (build_pages_from _ _ _ (S i) rest) as [es|] eqn:Hes; [|discriminate].
    inversion H; subst. cbn. f_equal.
    + exact (proj1 (build_page_entry _ _ _ _ _ _ He)).
    + exact (IH (S i) es Hes).
Qed.

Lemma build_pages_distinct prompts_data all_results audio_results pgs entries :
  build_pages prompts_data all_results audio_results pgs = Some entries ->
  NoDup (Page.page_number <$> entries).
Proof.
  intros H. rewrite (build_pages_from_numbers _ _ _ _ _ _ H).
  apply NoDup_fmap_2; [|apply NoDup_seq].
  intros a b Hab. lia.
Qed.

Lemma create_storybook_distinct_pages g req env :
  distinct_pages g -> distinct_pages (create_storybook g req env).2.
Proof.
  intros Hg. unfold create_storybook.
  destruct (gen_structure env) as [r1|msg]; [|exact Hg].
  destruct (success r1); cbn [negb]; [|exact Hg].
  destruct (fields r1 !! "structure") as [structure|]; [|exact Hg].
  destruct (gen_pages env structure) as [r2|msg]; [|exact Hg].
  destruct (success r2); cbn [negb]; [|exact Hg].
  unfold media_and_assembly.
  destruct (fields r2 !! "pages") as [pv|]; [|exact Hg].
  destruct (fields r2 !! "story_id") as [sid|]; [|exact Hg].
  destruct structure; try exact Hg.
  destruct (nested_description _ "main_character" _); [|exact Hg].
  destruct (nested_description _ "setting" _); [|exact Hg].
  destruct pv; try exact Hg.
  destruct (build_pages _ _ _ _) as [entries|] eqn:Hb; [|exact Hg].
  intros sb Hsb. cbn in Hsb. inversion Hsb; subst. cbn.
  exact (build_pages_distinct _ _ _ _ _ Hb).
Qed.

Lemma changed_by_numbers todo l l' :
  Forall2 (changed_by todo) l l' ->
  Page.page_number <$> l' = Page.page_number <$> l.
Proof.
  induction 1 as [|e e' l l' He _ IH]; [reflexivity|].
  cbn. f_equal; [|exact IH].
  destruct He as [->|(info & r & _ & _ & _ & _ & ->)]; reflexivity.
Qed.

Lemma regenerate_failed_images_numbers svc sb failed_page_numbers :
  Page.page_number <$> pages (regenerate_failed_images svc sb failed_page_numbers).1.2
  = Page.page_number <$> pages sb.
Proof.
  destruct (regenerate_failed_images_cases svc sb failed_page_numbers)
    as [(Hsame & _)|(rr & n & Ha & _)].
  - rewrite Hsame. reflexivity.
  - destruct (apply_results_frame _ _ _ _ _ _ Ha) as (_ & Hpg & _).
    exact (changed_by_numbers _ _ _ Hpg).
Qed.

(** Whatever the operations, the current storybook of the generator
    has distinct page numbers: the hypothesis of the frame property
    holds wherever the code calls [regenerate_failed_images]. *)
Lemma current_storybook_distinct_pages client ops :
  distinct_pages (foldl apply_operation (init_generator client) ops).
Proof.
  assert (Hinit : distinct_pages (init_generator client))
    by (intros sb Hsb; discriminate).
  revert Hinit. generalize (init_generator client).
  induction ops as [|op rest IH]; intros g Hg; cbn [foldl]; [exact Hg|].
  apply IH. destruct op as [req env|svc failed_pages|]; cbn [apply_operation].
  - apply create_storybook_distinct_pages, Hg.
  - unfold api_regenerate_images.
    destruct (Generator.current_storybook g) as [sb|] eqn:Hsb; [|exact Hg].
    intros sb' Hsb'. cbn in Hsb'. inversion Hsb'; subst.
    rewrite regenerate_failed_images_numbers. exact (Hg sb Hsb).
  - exact Hg.
Qed.

(* ===================================================================== *)
(** * Part III: further properties of the code *)
(* ===================================================================== *)

(** ** The retry loop as a whole *)

(** The loop over the attempts [a, a+1, ..., a+len]: it goes on while
    the outcome of an attempt is retryable and the wait that follows is
    got through; it ends with the outcome of the first attempt that is
    not retryable, or of the last one, or with what a wait raises. *)
Lemma wrapper_loop_shape cfg func sleep len a last :
  Z.of_nat (a + len) = max_retries cfg ->
  exists n,
    (a <= n <= a + len)%nat /\
    (forall k, (a <= k < n)%nat ->
       retryable cfg (func k) = true /\
       wait_raises cfg sleep k (func k) = None) /\
    (((n = (a + len)%nat \/ retryable cfg (func n) = false) /\
      wrapper_loop cfg func sleep (seq a (S len)) last
      = (func n,
         flat_map (fun k => [Invoke k; Sleep (wait_time cfg k)]) (seq a (n - a))
         ++ [Invoke n])) \/
     ((n < a + len)%nat /\ retryable cfg (func n) = true /\
      exists e,
        wait_raises cfg sleep n (func n) = Some e /\
        wrapper_loop cfg func sleep (seq a (S len)) last
        = (Raised e,
           flat_map (fun k => [Invoke k; Sleep (wait_time cfg k)]) (seq a (n - a))
           ++ [Invoke n]))).
Proof.
  revert a last. induction len as [|len IH]; intros a last Hmax.
  - exists a. split; [lia|]. split; [intros k Hk; lia|]. left.
    split; [left; lia|].
    rewrite Nat.sub_diag. cbn [seq wrapper_loop flat_map app]. unfold handler.
    assert (Hlast : last_attempt cfg a = true)
      by (unfold last_attempt; apply Z.leb_le; lia).
    destruct (func a) as [[r|v]|e]; [destruct (success r)| |];
      rewrite ?Hlast, ?orb_true_r; reflexivity.
  - assert (Hlast : last_attempt cfg a = false)
      by (unfold last_attempt; apply Z.leb_gt; lia).
    change (seq a (S (S len))) with (a :: seq (S a) (S len)).
    destruct (retryable cfg (func a)) eqn:Hr.
    + assert (Hcont : forall last',
                wrapper_loop cfg func sleep (a :: seq (S a) (S len)) last
                = (let '(o, tr) := wrapper_loop cfg func sleep (seq (S a) (S len)) last' in
                   (o, Invoke a :: Sleep (wait_time cfg a) :: tr)) ->
                wait_raises cfg sleep a (func a) = None ->
                exists n,
                  (a <= n <= a + S len)%nat /\
                  (forall k, (a <= k < n)%nat ->
                     retryable cfg (func k) = true /\
                     wait_raises cfg sleep k (func k) = None) /\
                  (((n = (a + S len)%nat \/ retryable cfg (func n) = false) /\
                    wrapper_loop cfg func sleep (a :: seq (S a) (S len)) last
                    = (func n,
                       flat_map (fun k => [Invoke k; Sleep (wait_time cfg k)])
                         (seq a (n - a)) ++ [Invoke n])) \/
                   ((n < a + S len)%nat /\ retryable cfg (func n) = true /\
                    exists e,
                      wait_raises cfg sleep n (func n) = Some e /\
                      wrapper_loop cfg func sleep (a :: seq (S a) (S len)) last
                      = (Raised e,
                         flat_map (fun k => [Invoke k; Sleep (wait_time cfg k)])
                           (seq a (n - a)) ++ [Invoke n])))).
      { intros last' Hstep Hwait.
        destruct (IH (S a) last' ltac:(lia)) as (n & Hn & Hbefore & Hend).
        exists n. split; [lia|]. split.
        { intros k Hk. destruct (decide (k = a)) as [->|Hne]; [auto|].
          apply Hbefore. lia. }
        rewrite Hstep. replace (n - a)%nat with (S (n - S a)) by lia.
        destruct Hend as [[Hstop Hrun]|(Hlt & Hrn & e & He & Hrun)].
        - left. split; [destruct Hstop; [left; lia|right; assumption]|].
          rewrite Hrun. reflexivity.
        - right. split; [lia|]. split; [exact Hrn|]. exists e.
          split; [exact He|]. rewrite Hrun. reflexivity. }
      assert (Hstop : forall e,
                wrapper_loop cfg func sleep (a :: seq (S a) (S len)) last
                = (Raised e, [Invoke a]) ->
                wait_raises cfg sleep a (func a) = Some e ->
                exists n,
                  (a <= n <= a + S len)%nat /\
                  (forall k, (a <= k < n)%nat ->
                     retryable cfg (func k) = true /\
                     wait_raises cfg sleep k (func k) = None) /\
                  (((n = (a + S len)%nat \/ retryable cfg (func n) = false) /\
                    wrapper_loop cfg func sleep (a :: seq (S a) (S len)) last
                    = (func n,
                       flat_map (fun k => [Invoke k; Sleep (wait_time cfg k)])
                         (seq a (n - a)) ++ [Invoke n])) \/
                   ((n < a + S len)%nat /\ retryable cfg (func n) = true /\
                    exists e,
                      wait_raises cfg sleep n (func n) = Some e /\
                      wrapper_loop cfg func sleep (a :: seq (S a) (S len)) last
                      = (Raised e,
                         flat_map (fun k => [Invoke k; Sleep (wait_time cfg k)])
                           (seq a (n - a)) ++ [Invoke n])))).
      { intros e Hstep Hwait. exists a. split; [lia|].
        split; [intros k Hk; lia|]. right. split; [lia|]. split; [exact Hr|].
        exists e. split; [exact Hwait|]. rewrite Nat.sub_diag. exact Hstep. }
      destruct (func a) as [[r|v]|e] eqn:Hf; cbn [retryable] in Hr; [| discriminate |].
      * apply andb_true_iff in Hr as [Hs Hrr]. apply negb_true_iff in Hs.
        pose proof (wrapper_loop_failed cfg func sleep a (seq (S a) (S len)) last r Hf Hs)
          as Hstep.
        rewrite Hrr, Hlast in Hstep. cbn [negb orb] in Hstep.
        cbn [wait_raises] in Hcont, Hstop.
        destruct (sleep a InTry) as [e|].
        -- destruct (handler cfg sleep a e) as [e'|].
           ++ exact (Hstop e' Hstep eq_refl).
           ++ exact (Hcont (Some e) Hstep eq_refl).
        -- exact (Hcont last Hstep eq_refl).
      * pose proof (wrapper_loop_raised cfg func sleep a (seq (S a) (S len)) last e Hf)
          as Hstep.
        cbn [wait_raises] in Hcont, Hstop.
        destruct (handler cfg sleep a e) as [e'|].
        -- exact (Hstop e' Hstep eq_refl).
        -- exact (Hcont (Some e) Hstep eq_refl).
    + exists a. split; [lia|]. split; [intros k Hk; lia|]. left.
      split; [right; exact Hr|].
      rewrite Nat.sub_diag. cbn [seq wrapper_loop flat_map app]. unfold handler.
      destruct (func a) as [[r|v]|e]; cbn [retryable] in Hr.
      * destruct (success r); [reflexivity|]. cbn [negb andb] in Hr.
        rewrite Hr. reflexivity.
      * reflexivity.
      * rewrite Hr. reflexivity.
Qed.

(** The attempt at which a call ends determines what it returns and
    what it does. *)
Lemma api_retry_ends_at cfg func sleep n :
  0 <= max_retries cfg ->
  Z.of_nat n <= max_retries cfg ->
  (forall k, (k < n)%nat ->
     retryable cfg (func k) = true /\ wait_raises cfg sleep k (func k) = None) ->
  (Z.of_nat n = max_retries cfg \/ retryable cfg (func n) = false) ->
  api_retry cfg func sleep = (func n, retry_trace cfg n).
Proof.
  intros Hmax Hn Hbefore Hstop.
  destruct (wrapper_loop_shape cfg func sleep (Z.to_nat (max_retries cfg)) 0 None
              ltac:(lia)) as (m & Hm & Hb & Hend).
  assert (m = n) as ->.
  { destruct (Nat.lt_trichotomy m n) as [Hlt|[Heq|Hgt]]; [|exact Heq|].
    - destruct (Hbefore m Hlt) as [Hrm Hwm].
      destruct Hend as [[[Hs|Hs] _]|(_ & _ & e & He & _)]; [lia| |].
      + rewrite Hrm in Hs. discriminate.
      + rewrite Hwm in He. discriminate.
    - destruct Hstop as [Hstop|Hstop]; [lia|].
      rewrite (proj1 (Hb n ltac:(lia))) in Hstop. discriminate. }
  unfold api_retry, attempts, retry_trace.
  replace (Z.to_nat (max_retries cfg + 1)) with (S (Z.to_nat (max_retries cfg))) by lia.
  destruct Hend as [[_ Hrun]|(Hlt & Hrn & _)].
  - rewrite Hrun, Nat.sub_0_r. reflexivity.
  - destruct Hstop as [Hstop|Hstop]; [lia|]. rewrite Hrn in Hstop. discriminate.
Qed.

(** A wait that raises ends the call. *)
Lemma api_retry_wait_raises cfg func sleep n e :
  Z.of_nat n < max_retries cfg ->
  (forall k, (k < n)%nat ->
     retryable cfg (func k) = true /\ wait_raises cfg sleep k (func k) = None) ->
  retryable cfg (func n) = true ->
  wait_raises cfg sleep n (func n) = Some e ->
  api_retry cfg func sleep = (Raised e, retry_trace cfg n).
Proof.
  intros Hn Hbefore Hrn Hwn.
  destruct (wrapper_loop_shape cfg func sleep (Z.to_nat (max_retries cfg)) 0 None
              ltac:(lia)) as (m & Hm & Hb & Hend).
  assert (m = n) as ->.
  { destruct (Nat.lt_trichotomy m n) as [Hlt|[Heq|Hgt]]; [|exact Heq|].
    - destruct (Hbefore m Hlt) as [Hrm Hwm].
      destruct Hend as [[[Hs|Hs] _]|(_ & _ & e' & He & _)]; [lia| |].
      + rewrite Hrm in Hs. discriminate.
      + rewrite Hwm in He. discriminate.
    - destruct (Hb n ltac:(lia)) as [_ Hw]. rewrite Hwn in Hw. discriminate. }
  unfold api_retry, attempts, retry_trace.
  replace (Z.to_nat (max_retries cfg + 1)) with (S (Z.to_nat (max_retries cfg))) by lia.
  destruct Hend as [[[Hs|Hs] _]|(_ & _ & e' & He & Hrun)].
  - lia.
  - rewrite Hrn in Hs. discriminate.
  - rewrite Hwn in He. inversion He; subst. rewrite Hrun, Nat.sub_0_r. reflexivity.
Qed.

Lemma retry_trace_counts_from cfg a n m :
  let tr := flat_map (fun k => [Invoke k; Sleep (wait_time cfg k)]) (seq a n)
            ++ [Invoke m] in
  invocations tr = S n /\ retries tr = n.
Proof.
  cbv zeta. revert a. induction n as [|n IH]; intros a; [split; reflexivity|].
  cbn [seq flat_map app invocations retries].
  destruct (IH (S a)) as [Hi Hr]. rewrite Hi, Hr. split; reflexivity.
Qed.

Lemma retry_trace_counts cfg n :
  invocations (retry_trace cfg n) = S n /\ retries (retry_trace cfg n) = n.
Proof. apply retry_trace_counts_from. Qed.

(** X1.  With a retry count that is not negative, a call of the wrapper
    ends at some attempt [n]: every earlier attempt produced a retryable
    outcome and was followed by a wait that the wrapper got through,
    sleeping [delay * backoff ** k] (before jitter) after attempt [k].
    Either attempt [n] is the first whose outcome is not retryable, or
    the last one allowed, and the call returns, or raises, exactly what
    that invocation produced; or the outcome of attempt [n] is retryable
    and a retry is left, but the wait that follows raises (as
    [time.sleep] does for a negative wait), and the call raises that
    exception.  In both cases the function has been called once per
    attempt, [n + 1] times, and [n] sleeps have been completed. *)
Theorem api_retry_last_outcome (cfg : retry_config) (func : nat -> outcome retval)
    (sleep : nat -> sleep_site -> option string) :
  0 <= max_retries cfg ->
  exists n,
    Z.of_nat n <= max_retries cfg /\
    (forall k, (k < n)%nat ->
       retryable cfg (func k) = true /\
       wait_raises cfg sleep k (func k) = None) /\
    (((Z.of_nat n = max_retries cfg \/ retryable cfg (func n) = false) /\
      api_retry cfg func sleep = (func n, retry_trace cfg n)) \/
     (Z.of_nat n < max_retries cfg /\ retryable cfg (func n) = true /\
      exists e,
        wait_raises cfg sleep n (func n) = Some e /\
        api_retry cfg func sleep = (Raised e, retry_trace cfg n))) /\
    invocations (retry_trace cfg n) = S n /\
    retries (retry_trace cfg n) = n.
Proof.
  intros Hmax.
  destruct (wrapper_loop_shape cfg func sleep (Z.to_nat (max_retries cfg)) 0 None
              ltac:(lia)) as (n & Hn & Hb & Hend).
  exists n. split; [lia|]. split; [intros k Hk; apply Hb; lia|].
  split; [|apply retry_trace_counts].
  unfold api_retry, attempts, retry_trace.
  replace (Z.to_nat (max_retries cfg + 1)) with (S (Z.to_nat (max_retries cfg))) by lia.
  destruct Hend as [[Hs Hrun]|(Hlt & Hrn & e & He & Hrun)].
  - left. split; [destruct Hs; [left; lia|right; assumption]|].
    rewrite Hrun, Nat.sub_0_r. reflexivity.
  - right. split; [lia|]. split; [exact Hrn|]. exists e. split; [exact He|].
    rewrite Hrun, Nat.sub_0_r. reflexivity.
Qed.

Lemma api_retry_last_outcome_witness :
  let cfg := mk_retry_config 3 (-1) 2 false true in
  let func := fun _ : nat => Returned (RDict (failed "connection reset")) in
  (exists n,
     Z.of_nat n <= max_retries default_config /\
     (forall k, (k < n)%nat ->
        retryable default_config (func k) = true /\
        wait_raises default_config (sleeps default_config) k (func k) = None) /\
     (((Z.of_nat n = max_retries default_config \/
        retryable default_config (func n) = false) /\
       api_retry default_config func (sleeps default_config)
       = (func n, retry_trace default_config n)) \/
      (Z.of_nat n < max_retries default_config /\
       retryable default_config (func n) = true /\
       exists e,
         wait_raises default_config (sleeps default_config) n (func n) = Some e /\
         api_retry default_config func (sleeps default_config)
         = (Raised e, retry_trace default_config n))) /\
     invocations (retry_trace default_config n) = S n /\
     retries (retry_trace default_config n) = n) /\
  (exists n,
     Z.of_nat n <= max_retries cfg /\
     (forall k, (k < n)%nat ->
        retryable cfg (func k) = true /\
        wait_raises cfg (sleeps cfg) k (func k) = None) /\
     (((Z.of_nat n = max_retries cfg \/ retryable cfg (func n) = false) /\
       api_retry cfg func (sleeps cfg) = (func n, retry_trace cfg n)) \/
      (Z.of_nat n < max_retries cfg /\ retryable cfg (func n) = true /\
       exists e,
         wait_raises cfg (sleeps cfg) n (func n) = Some e /\
         api_retry cfg func (sleeps cfg) = (Raised e, retry_trace cfg n))) /\
     invocations (retry_trace cfg n) = S n /\
     retries (retry_trace cfg n) = n).
Proof.
  split.
  - apply (api_retry_last_outcome default_config
             (fun _ => Returned (RDict (failed "connection reset")))
             (sleeps default_config)).
    simpl. lia.
  - apply (api_retry_last_outcome (mk_retry_config 3 (-1) 2 false true)
             (fun _ => Returned (RDict (failed "connection reset")))
             (sleeps (mk_retry_config 3 (-1) 2 false true))).
    simpl. lia.
Defined.

(** The two ways a call ends, on a failure that is always retryable:
    under the default configuration after four calls and three sleeps,
    with the failure of the last call; with a delay of -1 after one call,
    with the exception of [time.sleep]. *)
Example api_retry_ends :
  let func := fun _ : nat => Returned (RDict (failed "connection reset")) in
  api_retry default_config func (sleeps default_config)
  = (Returned (RDict (failed "connection reset")),
     [Invoke 0; Sleep 1; Invoke 1; Sleep 2; Invoke 2; Sleep 4; Invoke 3]) /\
  api_retry (mk_retry_config 3 (-1) 2 false true) func
    (sleeps (mk_retry_config 3 (-1) 2 false true))
  = (Raised "sleep length must be non-negative", [Invoke 0]) /\
  api_retry (mk_retry_config 3 (-1) 2 false true) (fun _ => Raised "network down")
    (sleeps (mk_retry_config 3 (-1) 2 false true))
  = (Raised "sleep length must be non-negative", [Invoke 0]).
Proof. vm_compute. repeat split. Qed.

(** X2.  With a negative retry count the loop has no iteration: the
    wrapped function is never called and the wrapper returns the failure
    of line 121. *)
Theorem api_retry_negative_count (cfg : retry_config) (func : nat -> outcome retval)
    (sleep : nat -> sleep_site -> option string) :
  max_retries cfg < 0 ->
  api_retry cfg func sleep = (Returned (RDict all_retries_failed), []).
Proof.
  intros H. unfold api_retry, attempts.
  replace (Z.to_nat (max_retries cfg + 1)) with 0%nat by lia. reflexivity.
Qed.

Lemma api_retry_negative_count_witness :
  api_retry (mk_retry_config (-1) 1 2 true true) (fun _ => Raised "boom")
    (sleeps (mk_retry_config (-1) 1 2 true true))
  = (Returned (RDict all_retries_failed), []).
Proof.
  apply (api_retry_negative_count (mk_retry_config (-1) 1 2 true true)
           (fun _ => Raised "boom") (sleeps (mk_retry_config (-1) 1 2 true true))).
  simpl. lia.
Defined.

(** A returned failure that the decision selects is followed, when a
    retry is left and the wait is got through, by a sleep and a second
    call; what the wait raises is handled as an exception of the
    attempt. *)
Lemma returned_failure_retried cfg func sleep r :
  0 < max_retries cfg ->
  func 0%nat = Returned (RDict r) ->
  success r = false ->
  result_should_retry cfg r = true ->
  (sleep 0%nat InTry = None ->
     exists o tr,
       api_retry cfg func sleep
       = (o, Invoke 0 :: Sleep (wait_time cfg 0) :: Invoke 1 :: tr)) /\
  (forall e, sleep 0%nat InTry = Some e ->
     exception_should_retry e = false ->
     api_retry cfg func sleep = (Raised e, [Invoke 0])).
Proof.
  intros Hmax Hf Hs Hr. unfold api_retry. rewrite (attempts_second cfg Hmax).
  rewrite (wrapper_loop_failed _ _ _ _ _ _ r Hf Hs).
  rewrite Hr, (not_last_attempt cfg Hmax). cbn [negb orb]. split.
  - intros Hsl. rewrite Hsl.
    destruct (wrapper_loop_first cfg func sleep 1
                (seq 2 (Z.to_nat (max_retries cfg - 1))) None) as (o & tr & ->).
    eauto.
  - intros e Hsl He. rewrite Hsl. unfold handler. rewrite He. reflexivity.
Qed.

(** X3.  A returned failure that signals quota exhaustion (by its
    message or by its [error_type]) and whose message carries none of
    the keywords of line 68 is retried exactly when [retry_on_quota] is
    set.  Without it the failure is handed back after one call and no
    sleep.  With it the wait of lines 84-91 follows: when the wait is got
    through, a sleep and a second call follow; when it raises an
    exception without keyword (as [time.sleep] does for a negative
    wait), that exception leaves the wrapper after the single call. *)
Theorem returned_quota_failure_decision (cfg : retry_config)
    (func : nat -> outcome retval)
    (sleep : nat -> sleep_site -> option string) (r : result) :
  0 < max_retries cfg ->
  func 0%nat = Returned (RDict r) ->
  success r = false ->
  any_keyword result_keywords (lower (default "" (error r))) = false ->
  contains "quota" (lower (default "" (error r)))
  || String.eqb (default "" (error_type r)) "quota_exhausted" = true ->
  (retry_on_quota cfg = false ->
     api_retry cfg func sleep = (Returned (RDict r), [Invoke 0])) /\
  (retry_on_quota cfg = true ->
     (sleep 0%nat InTry = None ->
        exists o tr,
          api_retry cfg func sleep
          = (o, Invoke 0 :: Sleep (wait_time cfg 0) :: Invoke 1 :: tr)) /\
     (forall e, sleep 0%nat InTry = Some e ->
        exception_should_retry e = false ->
        api_retry cfg func sleep = (Raised e, [Invoke 0]))).
Proof.
  intros Hmax Hf Hs Hk Hq.
  assert (Hd : result_should_retry cfg r = retry_on_quota cfg).
  { unfold result_should_retry. rewrite Hk, Hq. reflexivity. }
  split; intros Hroq.
  - apply returned_failure_not_retried; try assumption; [lia|]. congruence.
  - apply (returned_failure_retried cfg func sleep r); try assumption. congruence.
Qed.

Lemma returned_quota_failure_decision_witness :
  let func := fun _ : nat => Returned (RDict quota_failure) in
  let no_quota_retry := mk_retry_config 3 1 2 true false in
  let negative_delay := mk_retry_config 3 (-1) 2 true true in
  api_retry no_quota_retry func (sleeps no_quota_retry)
  = (Returned (RDict quota_failure), [Invoke 0]) /\
  (exists o tr,
     api_retry default_config func (sleeps default_config)
     = (o, Invoke 0 :: Sleep (wait_time default_config 0) :: Invoke 1 :: tr)) /\
  api_retry negative_delay func (sleeps negative_delay)
  = (Raised "sleep length must be non-negative", [Invoke 0]).
Proof.
  split; [|split].
  - apply (proj1 (returned_quota_failure_decision (mk_retry_config 3 1 2 true false)
                    (fun _ => Returned (RDict quota_failure))
                    (sleeps (mk_retry_config 3 1 2 true false)) quota_failure
                    ltac:(simpl; lia) eq_refl eq_refl
                    ltac:(vm_compute; reflexivity) ltac:(vm_compute; reflexivity))).
    reflexivity.
  - apply (proj2 (returned_quota_failure_decision default_config
                    (fun _ => Returned (RDict quota_failure))
                    (sleeps default_config) quota_failure
                    ltac:(simpl; lia) eq_refl eq_refl
                    ltac:(vm_compute; reflexivity) ltac:(vm_compute; reflexivity))).
    + reflexivity.
    + vm_compute. reflexivity.
  - apply (proj2 (returned_quota_failure_decision (mk_retry_config 3 (-1) 2 true true)
                    (fun _ => Returned (RDict quota_failure))
                    (sleeps (mk_retry_config 3 (-1) 2 true true)) quota_failure
                    ltac:(simpl; lia) eq_refl eq_refl
                    ltac:(vm_compute; reflexivity) ltac:(vm_compute; reflexivity))).
    + reflexivity.
    + vm_compute. reflexivity.
    + vm_compute. reflexivity.
Defined.

(** ** The decorated image call *)

(** X4.  When every attempt of the image service ends in a quota error
    (an exception whose text contains RESOURCE_EXHAUSTED and, in lower
    case, quota), one call of the decorated [generate_image_gemini]
    calls the service four times, sleeping 1, 2 and 4 seconds (before
    jitter) in between, and only then returns the quota failure that
    trips the flag of the image batch. *)
Theorem quota_error_attempted_four_times (service : nat -> image_response) :
  (forall k, exists error_str,
     service k = ServiceError error_str /\ is_quota_error error_str = true) ->
  generate_image_gemini true service
  = (Returned (RDict quota_failure),
     [Invoke 0; Sleep 1; Invoke 1; Sleep 2; Invoke 2; Sleep 4; Invoke 3]) /\
  reports_quota quota_failure = true.
Proof.
  intros Hq. split; [|reflexivity].
  assert (Hbody : forall k, generate_image_gemini_body true (service k) = quota_failure).
  { intros k. destruct (Hq k) as (e & -> & He). cbn. rewrite He. reflexivity. }
  unfold generate_image_gemini.
  rewrite (api_retry_ends_at image_retry_config _ _ 3).
  - rewrite Hbody. reflexivity.
  - cbn. lia.
  - cbn. lia.
  - intros k Hk. rewrite Hbody. split; [vm_compute; reflexivity|].
    destruct k as [|[|[|k]]]; [vm_compute; reflexivity ..|lia].
  - left. reflexivity.
Qed.

Lemma quota_error_attempted_four_times_witness :
  generate_image_gemini true
    (fun _ => ServiceError "429 RESOURCE_EXHAUSTED: Quota exceeded for imagen")
  = (Returned (RDict quota_failure),
     [Invoke 0; Sleep 1; Invoke 1; Sleep 2; Invoke 2; Sleep 4; Invoke 3]) /\
  reports_quota quota_failure = true.
Proof.
  apply (quota_error_attempted_four_times
           (fun _ => ServiceError "429 RESOURCE_EXHAUSTED: Quota exceeded for imagen")).
  intros k. eexists. split; [reflexivity|]. vm_compute. reflexivity.
Defined.

(** X5.  Without a Gemini client, or when the service hands back no
    image at the first attempt, the decorated [generate_image_gemini]
    returns its failure after that single attempt, without sleeping or
    retrying; without a client the answer does not depend on the
    service at all. *)
Theorem image_call_fails_fast (client : bool) (service : nat -> image_response) :
  client = false \/ service 0%nat = NoImages ->
  generate_image_gemini client service
  = (Returned (RDict (if client then failed "No images generated"
                      else no_client_failure)),
     [Invoke 0]).
Proof.
  intros [->|Hs].
  - reflexivity.
  - unfold generate_image_gemini.
    rewrite (api_retry_ends_at image_retry_config _ _ 0).
    + rewrite Hs. destruct client; reflexivity.
    + cbn. lia.
    + cbn. lia.
    + intros k Hk. lia.
    + right. rewrite Hs. destruct client; vm_compute; reflexivity.
Qed.

Lemma image_call_fails_fast_witness :
  generate_image_gemini false (fun _ => Generated "aGVsbG8=" VNone)
  = (Returned (RDict (if false then failed "No images generated"
                      else no_client_failure)),
     [Invoke 0]).
Proof.
  apply (image_call_fails_fast false (fun _ => Generated "aGVsbG8=" VNone)).
  left. reflexivity.
Defined.

(** ** Wrapping the text of a page *)

Lemma wrap_loop_concat {A} (fits : list A -> bool) text lines current_line :
  concat (wrap_loop fits text lines current_line)
  = concat lines ++ current_line ++ text.
Proof.
  revert lines current_line.
  induction text as [|char rest IH]; intros lines current_line; simpl.
  - destruct current_line; rewrite ?concat_app; simpl; rewrite ?app_nil_r; reflexivity.
  - destruct (fits (current_line ++ [char])).
    + rewrite IH, <- app_assoc. reflexivity.
    + rewrite IH. destruct current_line as [|c l]; [reflexivity|].
      rewrite concat_app. simpl. rewrite app_nil_r, <- !app_assoc. reflexivity.
Qed.

Lemma wrap_loop_lines {A} (fits : list A -> bool) (P : list A -> Prop)
    text lines current_line :
  Forall P lines ->
  (current_line = [] \/ P current_line) ->
  (forall l, l <> [] -> fits l = true -> P l) ->
  (forall c, P [c]) ->
  Forall P (wrap_loop fits text lines current_line).
Proof.
  intros Hl Hc Hfit Hone. revert lines current_line Hl Hc.
  induction text as [|char rest IH]; intros lines current_line Hl Hc; simpl.
  - destruct current_line as [|c l]; [exact Hl|].
    apply Forall_app. split; [exact Hl|].
    constructor; [|constructor]. destruct Hc as [Hc|Hc]; [discriminate|exact Hc].
  - destruct (fits (current_line ++ [char])) eqn:Hf.
    + apply IH; [exact Hl|]. right. apply Hfit; [|exact Hf].
      destruct current_line; discriminate.
    + apply IH; [|right; apply Hone].
      destruct current_line as [|c l]; [exact Hl|].
      apply Forall_app. split; [exact Hl|].
      constructor; [|constructor]. destruct Hc as [Hc|Hc]; [discriminate|exact Hc].
Qed.

(** X6.  [_wrap_chinese_text] loses, adds and reorders nothing: the
    lines it returns, put end to end, are the text; none of them is
    empty; and each of them fits the width or consists of a single
    character (one that is wider than the page by itself). *)
Theorem wrap_chinese_text_lines {A : Type} (fits : list A -> bool) (text : list A) :
  concat (_wrap_chinese_text fits text) = text /\
  Forall (fun line => line <> []) (_wrap_chinese_text fits text) /\
  Forall (line_ok fits) (_wrap_chinese_text fits text).
Proof.
  unfold _wrap_chinese_text. split; [|split].
  - rewrite wrap_loop_concat. reflexivity.
  - apply wrap_loop_lines; [constructor|left; reflexivity| |]; intros; [assumption|discriminate].
  - apply wrap_loop_lines; [constructor|left; reflexivity| |]; intros; unfold line_ok; auto.
Qed.

Lemma lines_full_last_head {A} (fits : list A -> bool) ls c l1 l2 :
  lines_full fits (ls ++ [c :: l1]) -> lines_full fits (ls ++ [c :: l2]).
Proof.
  induction ls as [|l ls IH]; [intros; exact I|].
  destruct ls as [|l' ls]; simpl in *.
  - intros [H _]. split; [exact H|exact I].
  - intros [H Hrest]. split; [exact H|]. apply IH. exact Hrest.
Qed.

Lemma lines_full_snoc {A} (fits : list A -> bool) ls l c l' :
  lines_full fits (ls ++ [l]) ->
  fits (l ++ [c]) = false ->
  lines_full fits ((ls ++ [l]) ++ [c :: l']).
Proof.
  intros Hfull Hf. induction ls as [|l0 ls IH]; simpl in *.
  - split; [exact Hf|exact I].
  - destruct ls as [|l1 ls]; simpl in *.
    + destruct Hfull as [H _]. split; [exact H|]. split; [exact Hf|exact I].
    + destruct Hfull as [H Hrest]. split; [exact H|]. apply IH. exact Hrest.
Qed.

Lemma wrap_loop_full {A} (fits : list A -> bool) text lines current_line :
  lines_full fits (match current_line with
                   | [] => lines
                   | _ => lines ++ [current_line]
                   end) ->
  (current_line = [] -> lines = []) ->
  lines_full fits (wrap_loop fits text lines current_line).
Proof.
  revert lines current_line.
  induction text as [|char rest IH]; intros lines current_line Hfull Hemp; simpl.
  - destruct current_line; exact Hfull.
  - destruct (fits (current_line ++ [char])) eqn:Hf.
    + apply IH.
      * destruct current_line as [|c l]; simpl.
        -- rewrite (Hemp eq_refl). exact I.
        -- exact (lines_full_last_head fits lines c l (l ++ [char]) Hfull).
      * intros H. destruct current_line; discriminate.
    + apply IH; [|discriminate].
      destruct current_line as [|c l].
      * rewrite (Hemp eq_refl). exact I.
      * exact (lines_full_snoc fits lines (c :: l) char [] Hfull Hf).
Qed.

(** X7.  [_wrap_chinese_text] fills every line: no line could have
    taken the first character of the line that follows it without
    exceeding the width. *)
Theorem wrap_chinese_text_greedy {A : Type} (fits : list A -> bool) (text : list A) :
  lines_full fits (_wrap_chinese_text fits text).
Proof.
  unfold _wrap_chinese_text. apply wrap_loop_full; [exact I|reflexivity].
Qed.

(** ** The keys of the batches *)

Lemma page_key_inj a b : page_key a = page_key b -> a = b.
Proof.
  unfold page_key. cbn. intros H. injection H as H.
  exact (pretty_Z_inj _ _ H).
Qed.

Lemma page_key_not_cover n : page_key n <> "cover".
Proof. unfold page_key. cbn. discriminate. Qed.

Lemma prompt_tasks_keys pgs :
  pt_key <$> prompt_tasks pgs
  = ((fun i => page_key (Z.of_nat i + 1)) <$> seq 0 (length pgs)) ++ ["cover"].
Proof.
  unfold prompt_tasks. rewrite fmap_app, fmap_imap. cbn.
  rewrite <- (imap_seq_0 pgs). reflexivity.
Qed.

Lemma prompt_tasks_NoDup pgs : NoDup (pt_key <$> prompt_tasks pgs).
Proof.
  rewrite prompt_tasks_keys. apply NoDup_app. split; [|split].
  - apply NoDup_fmap_2; [|apply NoDup_seq].
    intros a b H. apply page_key_inj in H. lia.
  - intros k Hk Hc. apply list_elem_of_fmap in Hk as (i & -> & _).
    apply list_elem_of_singleton in Hc. exact (page_key_not_cover _ Hc).
  - apply NoDup_singleton.
Qed.

Lemma generate_all_prompts_parallel_keys env pgs :
  t_key <$> generate_all_prompts_parallel env pgs
  = pt_key <$> prompt_order env (prompt_tasks pgs).
Proof.
  unfold generate_all_prompts_parallel. rewrite <- list_fmap_compose.
  reflexivity.
Qed.

(** X8.  The tasks of the prompt batch carry pairwise distinct keys,
    [page_1] to [page_N] and [cover], one more than there are pages;
    whatever the order in which the prompt futures complete, the image
    batch is submitted tasks with exactly these keys, pairwise
    distinct. *)
Theorem batch_keys_distinct (env : services) (pgs : list value) :
  prompt_order env (prompt_tasks pgs) ≡ₚ prompt_tasks pgs ->
  NoDup (pt_key <$> prompt_tasks pgs) /\
  length (prompt_tasks pgs) = S (length pgs) /\
  NoDup (t_key <$> generate_all_prompts_parallel env pgs) /\
  keys (generate_all_prompts_parallel env pgs)
  = list_to_set ((fun i => page_key (Z.of_nat i + 1)) <$> seq 0 (length pgs))
    ∪ {["cover"]}.
Proof.
  intros Hperm. split; [apply prompt_tasks_NoDup|].
  split; [apply prompt_tasks_length|].
  rewrite generate_all_prompts_parallel_keys. split.
  - rewrite Hperm. apply prompt_tasks_NoDup.
  - unfold keys. rewrite generate_all_prompts_parallel_keys, Hperm, prompt_tasks_keys.
    rewrite list_to_set_app_L. cbn. set_solver.
Qed.

Lemma batch_keys_distinct_witness :
  let pgs := [VStr "The fox finds a berry."; VStr "The fox shares it."] in
  NoDup (pt_key <$> prompt_tasks pgs) /\
  length (prompt_tasks pgs) = S (length pgs) /\
  NoDup (t_key <$> generate_all_prompts_parallel sample_services pgs) /\
  keys (generate_all_prompts_parallel sample_services pgs)
  = list_to_set ((fun i => page_key (Z.of_nat i + 1)) <$> seq 0 (length pgs))
    ∪ {["cover"]}.
Proof.
  apply (batch_keys_distinct sample_services
           [VStr "The fox finds a berry."; VStr "The fox shares it."]).
  apply reverse_Permutation.
Defined.

(** ** The statistics of a run *)

Lemma filter_length_le {A} (f : A -> bool) (l : list A) :
  (length (List.filter f l) <= length l)%nat.
Proof. induction l as [|x l IH]; simpl; [lia|]. destruct (f x); simpl; lia. Qed.

(** X9.  The statistics of a run are consistent with the image mapping
    they are computed from: the successful images are at most the total,
    which is the number of keys of the mapping; the failed ones make up
    the difference and are not negative; and [quota_exhausted] is set
    exactly when some result of the mapping carries the error type
    [quota_exhausted]. *)
Theorem generation_stats_consistent (all_results : gmap string result) :
  let stats := generation_stats all_results in
  Stats.total_images stats = size (dom all_results) /\
  (Stats.successful_images stats <= Stats.total_images stats)%nat /\
  Stats.failed_images stats
  = Z.of_nat (Stats.total_images stats - Stats.successful_images stats) /\
  (Stats.quota_exhausted stats = true <->
   exists k r, all_results !! k = Some r /\ quota_typed r = true).
Proof.
  cbv zeta. unfold generation_stats. cbn.
  assert (Hle : (length (List.filter success (map_to_list all_results).*2)
                 <= size all_results)%nat).
  { etransitivity; [apply filter_length_le|].
    rewrite length_fmap, length_map_to_list. reflexivity. }
  split; [symmetry; apply size_dom; apply _|]. split; [exact Hle|]. split; [lia|].
  rewrite existsb_exists. split.
  - intros (r & Hin & Hq). apply list_elem_of_In in Hin.
    apply list_elem_of_fmap in Hin as ([k r'] & -> & Hkr).
    apply elem_of_map_to_list in Hkr. eauto.
  - intros (k & r & Hkr & Hq). exists r. split; [|exact Hq].
    apply list_elem_of_In, list_elem_of_fmap. exists (k, r).
    split; [reflexivity|]. apply elem_of_map_to_list. exact Hkr.
Qed.

(** ** The prompts recorded in the storybook *)

Lemma build_page_prompt env order all_results audio_results i page_text page_data :
  build_page ((fun pt => mk_task (pt_key pt) (prompt_for env pt) (pt_page pt) (pt_cover pt))
                <$> order) all_results audio_results i page_text = Some page_data ->
  exists pt, order !! i = Some pt /\ Page.image_prompt page_data = prompt_for env pt.
Proof.
  unfold build_page. rewrite list_lookup_fmap.
  destruct (order !! i) as [pt|]; [|discriminate]. cbn.
  intros H. inversion H; subst. cbn. eauto.
Qed.

Lemma prompt_tasks_cover pgs pt :
  pt ∈ prompt_tasks pgs -> pt_cover pt = true -> pt = cover_prompt_task.
Proof.
  unfold prompt_tasks. intros Hin Hc. apply elem_of_app in Hin as [Hin|Hin].
  - apply list_elem_of_lookup in Hin as [i Hi]. rewrite list_lookup_imap in Hi.
    destruct (pgs !! i); [|discriminate]. inversion Hi; subst. discriminate.
  - apply list_elem_of_singleton in Hin. exact Hin.
Qed.

Lemma cover_prompt_of_order env (order : list prompt_task) :
  cover_prompt_task ∈ order ->
  (forall pt, pt ∈ order -> pt_cover pt = true -> pt = cover_prompt_task) ->
  cover_prompt_of ((fun pt => mk_task (pt_key pt) (prompt_for env pt) (pt_page pt)
                                (pt_cover pt)) <$> order)
  = prompt_for env cover_prompt_task.
Proof.
  induction order as [|pt order IH]; intros Hin Hall; [inversion Hin|].
  cbn. destruct (pt_cover pt) eqn:Hc.
  - rewrite (Hall pt (list_elem_of_here _ _) Hc). reflexivity.
  - apply IH.
    + apply elem_of_cons in Hin as [Heq|Hin]; [|exact Hin].
      subst. discriminate.
    + intros pt' Hpt'. apply Hall. apply list_elem_of_further. exact Hpt'.
Qed.

(** X10.  In a completed run, the [image_prompt] recorded in the entry
    of page [i] is the prompt of the [i]-th prompt task to complete,
    which is page [i]'s own prompt when the prompt batch completes in
    submission order; the prompt recorded in the cover entry is always
    the prompt of the cover task. *)
Theorem recorded_prompt_follows_completion (g : Generator.t) (req : request)
    (env : services) (r1 r2 : result) (st : gmap string value)
    (pgs : list value) (story_id : value) :
  gen_structure env = Returned r1 -> success r1 = true ->
  fields r1 !! "structure" = Some (VDict st) ->
  (forall v, st !! "main_character" = Some v -> exists d, v = VDict d) ->
  (forall v, st !! "setting" = Some v -> exists d, v = VDict d) ->
  gen_pages env (VDict st) = Returned r2 -> success r2 = true ->
  fields r2 !! "pages" = Some (VList pgs) ->
  fields r2 !! "story_id" = Some story_id ->
  prompt_order env (prompt_tasks pgs) ≡ₚ prompt_tasks pgs ->
  exists sb stats,
    (create_storybook g req env).1.1 = Returned (Completed sb stats) /\
    (forall i page_text, pgs !! i = Some page_text ->
       exists e pt,
         pages sb !! i = Some e /\
         prompt_order env (prompt_tasks pgs) !! i = Some pt /\
         Page.image_prompt e = prompt_for env pt /\
         (prompt_order env (prompt_tasks pgs) = prompt_tasks pgs ->
          pt = mk_prompt_task (page_key (Z.of_nat i + 1)) page_text
                 (Z.of_nat i + 1) false)) /\
    Cover.image_prompt (cover sb) = prompt_for env cover_prompt_task.
Proof.
  intros Hr1 Hs1 Hst Hmc Hset Hr2 Hs2 Hpgs Hid Hperm.
  destruct (create_storybook_completed g req env r1 r2 st pgs story_id
              Hr1 Hs1 Hst Hmc Hset Hr2 Hs2 Hpgs Hid Hperm)
    as (cd & sd & entries & Hl & Hj & Hrun).
  cbv zeta in Hrun. rewrite Hrun. cbn [fst snd pages cover].
  eexists. eexists. split; [reflexivity|]. split.
  - intros i page_text Hi. destruct (Hj i page_text Hi) as (e & Hb & He).
    unfold generate_all_prompts_parallel in Hb.
    destruct (build_page_prompt env _ _ _ _ _ _ Hb) as (pt & Hpt & Hprompt).
    exists e, pt. repeat split; try assumption.
    intros Hid'. rewrite Hid' in Hpt. unfold prompt_tasks in Hpt.
    rewrite lookup_app_l in Hpt
      by (rewrite length_imap; apply lookup_lt_Some in Hi; exact Hi).
    rewrite list_lookup_imap, Hi in Hpt. inversion Hpt. reflexivity.
  - cbn. unfold generate_all_prompts_parallel. apply cover_prompt_of_order.
    + rewrite Hperm. unfold prompt_tasks. apply elem_of_app. right.
      apply list_elem_of_here.
    + intros pt Hin. rewrite Hperm in Hin. exact (prompt_tasks_cover pgs pt Hin).
Qed.

Lemma recorded_prompt_follows_completion_witness :
  let pgs := [VStr "The fox finds a berry."; VStr "The fox shares it."] in
  exists sb stats,
    (create_storybook (init_generator true) sample_request sample_services).1.1
      = Returned (Completed sb stats) /\
    (forall i page_text, pgs !! i = Some page_text ->
       exists e pt,
         pages sb !! i = Some e /\
         prompt_order sample_services (prompt_tasks pgs) !! i = Some pt /\
         Page.image_prompt e = prompt_for sample_services pt /\
         (prompt_order sample_services (prompt_tasks pgs) = prompt_tasks pgs ->
          pt = mk_prompt_task (page_key (Z.of_nat i + 1)) page_text
                 (Z.of_nat i + 1) false)) /\
    Cover.image_prompt (cover sb) = prompt_for sample_services cover_prompt_task.
Proof.
  apply (recorded_prompt_follows_completion (init_generator true) sample_request
           sample_services sample_structure_result sample_pages_result
           sample_structure
           [VStr "The fox finds a berry."; VStr "The fox shares it."] (VStr "7f3c")).
  - reflexivity.
  - reflexivity.
  - reflexivity.
  - intros v Hv. vm_compute in Hv. inversion Hv. eauto.
  - intros v Hv. vm_compute in Hv. inversion Hv. eauto.
  - reflexivity.
  - reflexivity.
  - reflexivity.
  - reflexivity.
  - apply reverse_Permutation.
Defined.

(** In the sample run the prompt futures complete in reverse order: the
    entry of page 1 records the prompt of the cover. *)
Example sample_run_prompts :
  exists sb stats,
    (create_storybook (init_generator true) sample_request sample_services).1.1
      = Returned (Completed sb stats) /\
    Page.image_prompt <$> pages sb
    = ["scene forest subjects fox for cover"; "scene forest subjects fox for page_2"] /\
    Cover.image_prompt (cover sb) = "scene forest subjects fox for cover".
Proof. eexists. eexists. split; [vm_compute; reflexivity|]. split; reflexivity. Qed.

(** ** The batches without a quota flag *)

Section PlainBatch.

Context {T R : Type}.
Variable max_workers : nat.
Variable work : T -> R.

#[local] Abbreviation plain_accounted := (plain_accounted_by work).






End PlainBatch.









(** ** The calls of the image service in a batch *)

Section BatchCalls.

Variable max_workers : nat.
Variable worker : task -> work.

(** The keys for which the image service has been called, together
    with those still queued, are keys submitted, each as often as it was
    submitted at most. *)
Lemma step_invoked (ks : list string) a p p' :
  do_action max_workers worker a p = Some p' ->
  invoked p ++ (t_key <$> pending p) ⊆+ ks ->
  invoked p' ++ (t_key <$> pending p') ⊆+ ks.
Proof.
  intros H Hsub. destruct p as [flag pend runn fin res coll inv clk].
  destruct a as [|i|i]; cbn [do_action] in H.
  - unfold start in H. cbn in H. destruct pend as [|t queue]; [discriminate|].
    match type of H with
    | (if ?b then _ else _) = _ => destruct b
    end; [|discriminate].
    destruct flag; inversion H; subst; clear H; cbn in *.
    + etransitivity; [|exact Hsub].
      apply submseteq_app; [reflexivity|]. apply submseteq_cons. reflexivity.
    + rewrite <- app_assoc. exact Hsub.
  - unfold finish in H. cbn in H.
    destruct (runn !! i) as [[t started]|]; [|discriminate].
    inversion H; subst; clear H. exact Hsub.
  - unfold collect in H. cbn in H. destruct coll; [|discriminate].
    destruct (fin !! i) as [[t [r|msg]]|]; [| |discriminate];
      [destruct flag|]; inversion H; subst; clear H; cbn in *; try exact Hsub.
    etransitivity; [|exact Hsub]. rewrite app_nil_r. apply submseteq_inserts_r.
    reflexivity.
Qed.

Lemma run_invoked tasks sched p :
  run max_workers worker sched (submit_all tasks) = Some p ->
  invoked p ++ (t_key <$> pending p) ⊆+ t_key <$> tasks.
Proof.
  intros Hrun.
  refine (run_invariant max_workers worker
            (fun q => invoked q ++ (t_key <$> pending q) ⊆+ t_key <$> tasks)
            _ sched _ p _ Hrun).
  - intros a q q' Hq Hs. exact (step_invoked _ a q q' Hs Hq).
  - cbn. reflexivity.
Qed.

(** With the flag set no step calls the image service. *)
Lemma step_invoked_frozen a p p' :
  do_action max_workers worker a p = Some p' ->
  quota_exhausted p = true -> invoked p' = invoked p.
Proof.
  intros H Hq. destruct p as [flag pend runn fin res coll inv clk].
  cbn in Hq. subst flag.
  destruct a as [|i|i]; cbn [do_action] in H.
  - unfold start in H. cbn in H. destruct pend as [|t queue]; [discriminate|].
    match type of H with
    | (if ?b then _ else _) = _ => destruct b
    end; [|discriminate].
    inversion H; subst. reflexivity.
  - unfold finish in H. cbn in H.
    destruct (runn !! i) as [[t started]|]; [|discriminate].
    inversion H; subst. reflexivity.
  - unfold collect in H. cbn in H. destruct coll; [|discriminate].
    destruct (fin !! i) as [[t [r|msg]]|]; [| |discriminate];
      inversion H; subst; reflexivity.
Qed.

Lemma run_invoked_frozen sched p p' :
  run max_workers worker sched p = Some p' ->
  quota_exhausted p = true -> invoked p' = invoked p.
Proof.
  revert p. induction sched as [|a rest IH]; intros p Hrun Hq; simpl in Hrun.
  - inversion Hrun. reflexivity.
  - destruct (do_action max_workers worker a p) as [p1|] eqn:Ha; [|discriminate].
    rewrite (IH p1 Hrun (step_flag_monotone _ _ a p p1 Ha Hq)).
    exact (step_invoked_frozen a p p1 Ha Hq).
Qed.

End BatchCalls.

(** X13.  In every state of an image batch, the keys for which the
    image service has been called are keys of submitted tasks, none more
    often than it was submitted: with distinct keys the service is called
    at most once per task, and at most as many times as there are tasks.
    Once the flag is set the service is not called again in the batch,
    whatever happens next. *)
Theorem image_service_called_once (max_concurrent : nat) (worker : task -> work)
    (prompts_data : list task) (sched : list action) (p : pool) :
  run max_concurrent worker sched (submit_all prompts_data) = Some p ->
  invoked p ⊆+ t_key <$> prompts_data /\
  (length (invoked p) <= length prompts_data)%nat /\
  (NoDup (t_key <$> prompts_data) -> NoDup (invoked p)) /\
  (quota_exhausted p = true ->
   forall later p', run max_concurrent worker later p = Some p' ->
     invoked p' = invoked p).
Proof.
  intros Hrun.
  assert (Hsub : invoked p ⊆+ t_key <$> prompts_data).
  { etransitivity; [|exact (run_invoked _ _ _ _ _ Hrun)].
    apply submseteq_inserts_r. reflexivity. }
  split; [exact Hsub|]. split; [|split].
  - apply submseteq_length in Hsub. rewrite length_fmap in Hsub. exact Hsub.
  - intros Hnd. apply submseteq_sublist_r in Hsub as (l & Hperm & Hl).
    rewrite Hperm. exact (sublist_NoDup _ _ Hnd Hl).
  - intros Hq later p' Hlater. exact (run_invoked_frozen _ _ later p p' Hlater Hq).
Qed.

Lemma image_service_called_once_witness :
  invoked tripped_pool ⊆+ t_key <$> [page_task 1; page_task 2] /\
  (length (invoked tripped_pool) <= length [page_task 1; page_task 2])%nat /\
  (NoDup (t_key <$> [page_task 1; page_task 2]) -> NoDup (invoked tripped_pool)) /\
  (quota_exhausted tripped_pool = true ->
   forall later p', run 2 quota_on_first later tripped_pool = Some p' ->
     invoked p' = invoked tripped_pool).
Proof.
  apply (image_service_called_once 2 quota_on_first [page_task 1; page_task 2]
           [Start; Start; Finish 0] tripped_pool).
  vm_compute. reflexivity.
Defined.

(** ** The image stage of [create_storybook] without quota exhaustion *)

Lemma prompt_task_submitted env pgs pt :
  prompt_order env (prompt_tasks pgs) ≡ₚ prompt_tasks pgs ->
  pt ∈ prompt_tasks pgs ->
  mk_task (pt_key pt) (prompt_for env pt) (pt_page pt) (pt_cover pt)
    ∈ generate_all_prompts_parallel env pgs.
Proof.
  intros Hperm Hin. unfold generate_all_prompts_parallel.
  apply list_elem_of_fmap. exists pt. split; [reflexivity|].
  rewrite Hperm. exact Hin.
Qed.

Lemma page_prompt_task pgs i page_text :
  pgs !! i = Some page_text ->
  mk_prompt_task (page_key (Z.of_nat i + 1)) page_text (Z.of_nat i + 1) false
    ∈ prompt_tasks pgs.
Proof.
  intros Hi. unfold prompt_tasks. apply elem_of_app. left.
  apply list_elem_of_lookup. exists i. rewrite list_lookup_imap, Hi. reflexivity.
Qed.

Lemma cover_prompt_task_submitted pgs : cover_prompt_task ∈ prompt_tasks pgs.
Proof.
  unfold prompt_tasks. apply elem_of_app. right. apply list_elem_of_here.
Qed.

(** X14.  When no call of the image service reports quota exhaustion,
    the image stage of [create_storybook] records a result for every page
    and for the cover: the image batch over the tuples of the prompt
    batch returns, [total_images] is the number of pages plus one, and
    the success flag of page [i]'s entry and of the cover entry is that
    of the image call made for the task with that page's own key and
    text, in whatever order the prompt futures completed and whatever
    prompt is recorded beside it. *)
Theorem image_stage_without_quota (env : services) (worker : task -> work)
    (pgs : list value) (audio_results : gmap string result) :
  prompt_order env (prompt_tasks pgs) ≡ₚ prompt_tasks pgs ->
  (forall t, t ∈ generate_all_prompts_parallel env pgs ->
     outcome_reports_quota (gave (worker t)) = false) ->
  (exists all_results,
     generate_images_parallel 5 worker (generate_all_prompts_parallel env pgs)
       all_results) /\
  (forall all_results,
     generate_images_parallel 5 worker (generate_all_prompts_parallel env pgs)
       all_results ->
     Stats.total_images (generation_stats all_results) = S (length pgs) /\
     (forall i page_text, pgs !! i = Some page_text ->
        exists page_data,
          build_page (generate_all_prompts_parallel env pgs) all_results
            audio_results i page_text = Some page_data /\
          let pt := mk_prompt_task (page_key (Z.of_nat i + 1)) page_text
                      (Z.of_nat i + 1) false in
          Page.success page_data
          = success (record_of (gave (worker
              (mk_task (pt_key pt) (prompt_for env pt) (pt_page pt) (pt_cover pt)))))) /\
     Cover.success
       (build_cover (generate_all_prompts_parallel env pgs) all_results audio_results)
     = success (record_of (gave (worker
         (mk_task "cover" (prompt_for env cover_prompt_task) 0 true))))).
Proof.
  intros Hperm Hno. split.
  - destruct (can_return 5 worker
                (submit_all (generate_all_prompts_parallel env pgs)) ltac:(lia))
      as (sched & p & Hrun & Hret).
    exists (results p), sched, p. auto.
  - intros all_results (sched & p & Hrun & Hret & <-).
    assert (Hnd : NoDup (t_key <$> generate_all_prompts_parallel env pgs)).
    { rewrite generate_all_prompts_parallel_keys, Hperm. apply prompt_tasks_NoDup. }
    pose proof (no_quota_flag_clear _ _ _ _ _ Hno Hrun) as Hq.
    pose proof (returned_clear_all_keys _ _ _ _ _ Hrun Hret Hq) as Hdom.
    split; [|split].
    + unfold generation_stats. cbn [Stats.total_images].
      rewrite <- size_dom, Hdom. unfold keys.
      rewrite size_list_to_set by exact Hnd.
      rewrite length_fmap. apply generate_all_prompts_parallel_length. exact Hperm.
    + intros i page_text Hi.
      pose proof (prompt_task_submitted env pgs _ Hperm (page_prompt_task pgs i page_text Hi))
        as Hin.
      pose proof (no_quota_results _ _ _ _ _ _ Hnd Hno Hrun Hret Hin) as Hres.
      cbn [t_key pt_key] in Hres.
      assert (Hlen : (i < length (generate_all_prompts_parallel env pgs))%nat).
      { rewrite (generate_all_prompts_parallel_length env pgs Hperm).
        apply lookup_lt_Some in Hi. lia. }
      apply lookup_lt_is_Some in Hlen as [pd Hpd].
      unfold build_page. rewrite Hpd, Hres. cbn [default].
      eexists. split; [reflexivity|]. reflexivity.
    + pose proof (prompt_task_submitted env pgs _ Hperm (cover_prompt_task_submitted pgs))
        as Hin.
      pose proof (no_quota_results _ _ _ _ _ _ Hnd Hno Hrun Hret Hin) as Hres.
      cbn [t_key pt_key cover_prompt_task] in Hres.
      unfold build_cover. rewrite Hres. reflexivity.
Qed.

Lemma image_stage_without_quota_witness :
  let pgs := [VStr "The fox finds a berry."; VStr "The fox shares it."] in
  let audio_results := audio_batch sample_services pgs sample_structure in
  (exists all_results,
     generate_images_parallel 5 slow_service
       (generate_all_prompts_parallel sample_services pgs) all_results) /\
  (forall all_results,
     generate_images_parallel 5 slow_service
       (generate_all_prompts_parallel sample_services pgs) all_results ->
     Stats.total_images (generation_stats all_results) = S (length pgs) /\
     (forall i page_text, pgs !! i = Some page_text ->
        exists page_data,
          build_page (generate_all_prompts_parallel sample_services pgs) all_results
            audio_results i page_text = Some page_data /\
          let pt := mk_prompt_task (page_key (Z.of_nat i + 1)) page_text
                      (Z.of_nat i + 1) false in
          Page.success page_data
          = success (record_of (gave (slow_service
              (mk_task (pt_key pt) (prompt_for sample_services pt)
                 (pt_page pt) (pt_cover pt)))))) /\
     Cover.success
       (build_cover (generate_all_prompts_parallel sample_services pgs)
          all_results audio_results)
     = success (record_of (gave (slow_service
         (mk_task "cover" (prompt_for sample_services cover_prompt_task) 0 true))))).
Proof.
  apply (image_stage_without_quota sample_services slow_service
           [VStr "The fox finds a berry."; VStr "The fox shares it."]).
  - apply reverse_Permutation.
  - intros t _. reflexivity.
Defined.

(** ** Regeneration: every entry is repaired with the result of its own call *)

Lemma omap_none_nil {A B} (f : A -> option B) (l : list A) :
  (forall x, x ∈ l -> f x = None) -> omap f l = [].
Proof.
  induction l as [|x l IH]; intros H; [reflexivity|].
  cbn. rewrite (H x (list_elem_of_here _ _)). apply IH.
  intros y Hy. apply H, list_elem_of_further, Hy.
Qed.

Lemma omap_length_le {A B} (f : A -> option B) (l : list A) :
  (length (omap f l) <= length l)%nat.
Proof.
  induction l as [|x l IH]; [reflexivity|].
  cbn. destruct (f x); cbn; lia.
Qed.

(** The keys of the entries listed for regeneration. *)
Lemma pages_to_regenerate_key sb failed_page_numbers info :
  info ∈ pages_to_regenerate sb failed_page_numbers ->
  (pi_is_cover info = false -> pi_key info = page_key (pi_page_number info)) /\
  (pi_is_cover info = true -> pi_key info = "cover").
Proof.
  unfold pages_to_regenerate. intros Hin.
  apply elem_of_app in Hin as [Hin|Hin].
  - apply list_elem_of_omap in Hin as (page & Hp & Hf).
    destruct (negb (Page.success page)
              && selected failed_page_numbers (Page.page_number page));
      [|discriminate].
    inversion Hf; subst. cbn. split; [reflexivity|discriminate].
  - destruct (negb (Cover.success (cover sb)) && selected failed_page_numbers 0).
    + apply list_elem_of_singleton in Hin. subst. cbn. split; [discriminate|reflexivity].
    + inversion Hin.
Qed.

Lemma pages_to_regenerate_page_listed sb failed_page_numbers e :
  e ∈ pages sb -> Page.success e = false ->
  selected failed_page_numbers (Page.page_number e) = true ->
  mk_page_info (page_key (Page.page_number e)) (Page.page_number e) (Page.text e) false
    ∈ pages_to_regenerate sb failed_page_numbers.
Proof.
  intros Hin Hs Hsel. unfold pages_to_regenerate. apply elem_of_app. left.
  apply list_elem_of_omap. exists e. split; [exact Hin|].
  rewrite Hs, Hsel. reflexivity.
Qed.

Lemma pages_to_regenerate_cover_listed sb failed_page_numbers :
  Cover.success (cover sb) = false -> selected failed_page_numbers 0 = true ->
  mk_page_info "cover" 0 (VStr "封面") true
    ∈ pages_to_regenerate sb failed_page_numbers.
Proof.
  intros Hs Hsel. unfold pages_to_regenerate. apply elem_of_app. right.
  rewrite Hs, Hsel. apply list_elem_of_here.
Qed.

Lemma pages_to_regenerate_length sb failed_page_numbers :
  (length (pages_to_regenerate sb failed_page_numbers) <= S (length (pages sb)))%nat.
Proof.
  unfold pages_to_regenerate. rewrite length_app.
  pose proof (omap_length_le
    (fun page =>
       if negb (Page.success page)
          && selected failed_page_numbers (Page.page_number page)
       then Some (mk_page_info (page_key (Page.page_number page))
                    (Page.page_number page) (Page.text page) false)
       else None) (pages sb)) as Hle.
  destruct (negb (Cover.success (cover sb)) && selected failed_page_numbers 0);
    cbn [length]; lia.
Qed.

(** On pages with distinct numbers the entries listed carry distinct
    keys. *)
Lemma pages_to_regenerate_NoDup sb failed_page_numbers :
  NoDup (Page.page_number <$> pages sb) ->
  NoDup (pi_key <$> pages_to_regenerate sb failed_page_numbers).
Proof.
  intros Hnd. unfold pages_to_regenerate. rewrite fmap_app.
  apply NoDup_app. split; [|split].
  - revert Hnd. generalize (pages sb). intros l.
    induction l as [|e l IH]; intros Hnd; [constructor|].
    rewrite fmap_cons in Hnd. apply NoDup_cons in Hnd as [Hfresh Hnd].
    cbn [omap list_omap].
    destruct (negb (Page.success e)
              && selected failed_page_numbers (Page.page_number e));
      [|exact (IH Hnd)].
    rewrite fmap_cons. apply NoDup_cons. split; [|exact (IH Hnd)].
    cbn [pi_key]. intros Hin.
    apply list_elem_of_fmap in Hin as (info & Hk & Hin).
    apply list_elem_of_omap in Hin as (e' & He' & Hf).
    destruct (negb (Page.success e')
              && selected failed_page_numbers (Page.page_number e'));
      [|discriminate].
    inversion Hf; subst. cbn [pi_key] in Hk. apply page_key_inj in Hk.
    apply Hfresh. rewrite Hk. apply list_elem_of_fmap. eauto.
  - intros k Hin Hin2.
    apply list_elem_of_fmap in Hin as (info & Hk & Hin).
    apply list_elem_of_omap in Hin as (e' & He' & Hf).
    destruct (negb (Page.success e')
              && selected failed_page_numbers (Page.page_number e'));
      [|discriminate].
    inversion Hf; subst. cbn [pi_key] in Hin2.
    destruct (negb (Cover.success (cover sb)) && selected failed_page_numbers 0).
    + apply list_elem_of_fmap in Hin2 as (info & Hk & Hin2).
      apply list_elem_of_singleton in Hin2. subst. cbn [pi_key] in Hk.
      exact (page_key_not_cover _ Hk).
    + inversion Hin2.
  - destruct (negb (Cover.success (cover sb)) && selected failed_page_numbers 0).
    + apply NoDup_singleton.
    + constructor.
Qed.

(** A generation loop that returns has called both services for every
    entry, and with distinct keys it holds, under an entry's key, what
    the image call of that entry returned. *)
Lemma regenerate_loop_results svc todo : forall rr0 rr tr,
  regenerate_loop svc todo rr0 = (Returned rr, tr) ->
  NoDup (pi_key <$> todo) ->
  (forall info, info ∈ todo ->
     exists prompt r,
       regen_prompt svc info = Returned prompt /\
       regen_image svc info prompt = Returned r /\
       rr !! pi_key info = Some r) /\
  (forall k, k ∉ pi_key <$> todo -> rr !! k = rr0 !! k).
Proof.
  induction todo as [|info rest IH]; intros rr0 rr tr Hl Hnd.
  - cbn in Hl. inversion Hl; subst. split; [intros info Hin; inversion Hin|auto].
  - cbn [regenerate_loop] in Hl.
    destruct (regen_prompt svc info) as [prompt|msg] eqn:Hp; [|discriminate].
    destruct (regen_image svc info prompt) as [r|msg] eqn:Hi; [|discriminate].
    destruct (regenerate_loop svc rest (<[pi_key info:=r]> rr0)) as [o tr'] eqn:Hrest.
    inversion Hl; subst.
    rewrite fmap_cons in Hnd. apply NoDup_cons in Hnd as [Hfresh Hnd].
    destruct (IH _ _ _ Hrest Hnd) as [Hall Hother].
    split.
    + intros x Hx. apply elem_of_cons in Hx as [->|Hx].
      * exists prompt, r. split; [exact Hp|]. split; [exact Hi|].
        rewrite (Hother _ Hfresh). apply lookup_insert_eq.
      * exact (Hall x Hx).
    + intros k Hk. rewrite fmap_cons in Hk. apply not_elem_of_cons in Hk as [Hne Hk].
      rewrite (Hother k Hk). apply lookup_insert_ne. congruence.
Qed.

Lemma update_first_numbers n r l :
  Page.page_number <$> update_first n r l = Page.page_number <$> l.
Proof.
  induction l as [|x l IH]; [reflexivity|]. cbn [update_first].
  destruct (Page.page_number x =? n); rewrite !fmap_cons; [reflexivity|].
  rewrite IH. reflexivity.
Qed.

(** On pages with distinct numbers the update reaches the one page that
    carries the number. *)
Lemma update_first_lookup n r l : forall i e,
  NoDup (Page.page_number <$> l) -> l !! i = Some e ->
  update_first n r l !! i
  = Some (if Page.page_number e =? n then update_page e r else e).
Proof.
  induction l as [|x l IH]; intros i e Hnd Hi; [destruct i; discriminate|].
  rewrite fmap_cons in Hnd. apply NoDup_cons in Hnd as [Hfresh Hnd].
  cbn [update_first]. destruct (Page.page_number x =? n) eqn:Hx.
  - destruct i as [|j]; simpl in Hi; simpl.
    + inversion Hi; subst. rewrite Hx. reflexivity.
    + assert (Hne : (Page.page_number e =? n) = false).
      { apply Z.eqb_neq. intros Heq. apply Hfresh. apply Z.eqb_eq in Hx.
        rewrite Hx, <- Heq. apply list_elem_of_fmap. exists e.
        split; [reflexivity|]. exact (list_elem_of_lookup_2 _ _ _ Hi). }
      rewrite Hne. exact Hi.
  - destruct i as [|j]; simpl in Hi; simpl.
    + inversion Hi; subst. rewrite Hx. reflexivity.
    + exact (IH j e Hnd Hi).
Qed.

(** The update loop on the pages: with distinct page numbers and
    distinct keys, a page for which an entry is listed ends as its
    update by the result stored under that entry's key, if that result
    is a success, and every other page is as before. *)
Lemma apply_results_pages rr todo : forall sb k sb' n,
  apply_results rr todo sb k = Some (sb', n) ->
  NoDup (Page.page_number <$> pages sb) ->
  NoDup (pi_key <$> todo) ->
  (forall info, info ∈ todo -> pi_is_cover info = false ->
     pi_key info = page_key (pi_page_number info)) ->
  forall i e, pages sb !! i = Some e ->
    ((forall info, info ∈ todo -> pi_is_cover info = false ->
        pi_page_number info <> Page.page_number e) ->
     pages sb' !! i = Some e) /\
    (forall info, info ∈ todo -> pi_is_cover info = false ->
       pi_page_number info = Page.page_number e ->
       exists r, rr !! pi_key info = Some r /\
         pages sb' !! i = Some (if success r then update_page e r else e)).
Proof.
  induction todo as [|info0 rest IH]; intros sb k sb' n Ha Hnd Hkeys Hpk i e Hi.
  - cbn in Ha. inversion Ha; subst. split; [auto|]. intros info Hin. inversion Hin.
  - cbn [apply_results] in Ha.
    rewrite fmap_cons in Hkeys. apply NoDup_cons in Hkeys as [Hfresh Hkeys].
    assert (Hpk' : forall info, info ∈ rest -> pi_is_cover info = false ->
                     pi_key info = page_key (pi_page_number info)).
    { intros info Hin. apply Hpk, list_elem_of_further, Hin. }
    assert (Hdistinct : pi_is_cover info0 = false ->
              forall info, info ∈ rest -> pi_is_cover info = false ->
                pi_page_number info <> pi_page_number info0).
    { intros Hc0 info Hin Hc Heq. apply Hfresh. apply list_elem_of_fmap.
      exists info. split; [|exact Hin].
      rewrite (Hpk info0 (list_elem_of_here _ _) Hc0), (Hpk' info Hin Hc), Heq.
      reflexivity. }
    destruct (rr !! pi_key info0) as [r0|] eqn:Hr0; [|discriminate].
    destruct (success r0) eqn:Hs0; [destruct (pi_is_cover info0) eqn:Hc0|].
    + destruct (IH _ _ _ _ Ha Hnd Hkeys Hpk' i e Hi) as [Hsame Hupd].
      split.
      * intros Hno. apply Hsame. intros info Hin. apply Hno, list_elem_of_further, Hin.
      * intros info Hin Hc Hn. apply elem_of_cons in Hin as [->|Hin]; [congruence|].
        exact (Hupd info Hin Hc Hn).
    + pose proof (update_first_lookup (pi_page_number info0) r0 (pages sb) i e Hnd Hi)
        as Hi1.
      assert (Hnd1 : NoDup (Page.page_number <$>
                pages (set_pages sb (update_first (pi_page_number info0) r0 (pages sb))))).
      { cbn [pages set_pages]. rewrite update_first_numbers. exact Hnd. }
      destruct (Page.page_number e =? pi_page_number info0) eqn:He.
      * apply Z.eqb_eq in He.
        destruct (IH _ _ _ _ Ha Hnd1 Hkeys Hpk' i _ Hi1) as [Hsame _].
        assert (Hfinal : pages sb' !! i = Some (update_page e r0)).
        { apply Hsame. intros info Hin Hc. cbn [Page.page_number update_page].
          rewrite He. exact (Hdistinct eq_refl info Hin Hc). }
        split.
        -- intros Hno. exfalso.
           apply (Hno info0 (list_elem_of_here _ _) Hc0). symmetry. exact He.
        -- intros info Hin Hc Hn. apply elem_of_cons in Hin as [->|Hin].
           ++ exists r0. rewrite Hs0. split; [exact Hr0|exact Hfinal].
           ++ exfalso. apply (Hdistinct eq_refl info Hin Hc). rewrite Hn, He. reflexivity.
      * apply Z.eqb_neq in He.
        destruct (IH _ _ _ _ Ha Hnd1 Hkeys Hpk' i _ Hi1) as [Hsame Hupd].
        split.
        -- intros Hno. apply Hsame. intros info Hin.
           apply Hno, list_elem_of_further, Hin.
        -- intros info Hin Hc Hn. apply elem_of_cons in Hin as [->|Hin]; [congruence|].
           exact (Hupd info Hin Hc Hn).
    + destruct (IH _ _ _ _ Ha Hnd Hkeys Hpk' i e Hi) as [Hsame Hupd].
      split.
      * intros Hno. apply Hsame. intros info Hin. apply Hno, list_elem_of_further, Hin.
      * intros info Hin Hc Hn. apply elem_of_cons in Hin as [->|Hin].
        -- exists r0. rewrite Hs0. split; [exact Hr0|]. apply Hsame.
           intros info Hin' Hc'. rewrite <- Hn. exact (Hdistinct Hc info Hin' Hc').
        -- exact (Hupd info Hin Hc Hn).
Qed.

(** The update loop on the cover. *)
Lemma apply_results_cover rr todo : forall sb k sb' n,
  apply_results rr todo sb k = Some (sb', n) ->
  NoDup (pi_key <$> todo) ->
  (forall info, info ∈ todo -> pi_is_cover info = true -> pi_key info = "cover") ->
  ((forall info, info ∈ todo -> pi_is_cover info = false) -> cover sb' = cover sb) /\
  (forall info, info ∈ todo -> pi_is_cover info = true ->
     exists r, rr !! pi_key info = Some r /\
       cover sb' = if success r then update_cover (cover sb) r else cover sb).
Proof.
  induction todo as [|info0 rest IH]; intros sb k sb' n Ha Hkeys Hck.
  - cbn in Ha. inversion Ha; subst. split; [auto|]. intros info Hin. inversion Hin.
  - cbn [apply_results] in Ha.
    rewrite fmap_cons in Hkeys. apply NoDup_cons in Hkeys as [Hfresh Hkeys].
    assert (Hck' : forall info, info ∈ rest -> pi_is_cover info = true ->
                     pi_key info = "cover").
    { intros info Hin. apply Hck, list_elem_of_further, Hin. }
    assert (Hsingle : pi_is_cover info0 = true ->
              forall info, info ∈ rest -> pi_is_cover info = false).
    { intros Hc0 info Hin. destruct (pi_is_cover info) eqn:Hc; [|reflexivity].
      exfalso. apply Hfresh. apply list_elem_of_fmap. exists info.
      split; [|exact Hin].
      rewrite (Hck info0 (list_elem_of_here _ _) Hc0), (Hck' info Hin Hc).
      reflexivity. }
    destruct (rr !! pi_key info0) as [r0|] eqn:Hr0; [|discriminate].
    destruct (success r0) eqn:Hs0; [destruct (pi_is_cover info0) eqn:Hc0|].
    + destruct (IH _ _ _ _ Ha Hkeys Hck') as [Hsame _].
      specialize (Hsame (Hsingle eq_refl)). cbn [cover set_cover] in Hsame.
      split.
      * intros Hno. specialize (Hno info0 (list_elem_of_here _ _)). congruence.
      * intros info Hin Hc. apply elem_of_cons in Hin as [->|Hin].
        -- exists r0. rewrite Hs0. split; [exact Hr0|exact Hsame].
        -- rewrite (Hsingle eq_refl info Hin) in Hc. discriminate.
    + destruct (IH _ _ _ _ Ha Hkeys Hck') as [Hsame Hupd].
      cbn [cover set_pages] in Hsame, Hupd. split.
      * intros Hno. apply Hsame. intros info Hin. apply Hno, list_elem_of_further, Hin.
      * intros info Hin Hc. apply elem_of_cons in Hin as [->|Hin]; [congruence|].
        exact (Hupd info Hin Hc).
    + destruct (IH _ _ _ _ Ha Hkeys Hck') as [Hsame Hupd].
      split.
      * intros Hno. apply Hsame. intros info Hin. apply Hno, list_elem_of_further, Hin.
      * intros info Hin Hc. apply elem_of_cons in Hin as [->|Hin].
        -- exists r0. rewrite Hs0. split; [exact Hr0|].
           exact (Hsame (Hsingle Hc)).
        -- exact (Hupd info Hin Hc).
Qed.

(** The counter of the update loop. *)
Lemma apply_results_count rr todo : forall sb k sb' n,
  apply_results rr todo sb k = Some (sb', n) ->
  (k <= n <= k + length todo)%nat /\
  ((forall info r, info ∈ todo -> rr !! pi_key info = Some r -> success r = true) ->
   n = (k + length todo)%nat).
Proof.
  induction todo as [|info0 rest IH]; intros sb k sb' n Ha.
  - cbn in Ha. inversion Ha; subst. cbn [length]. split; [lia|]. intros _. lia.
  - cbn [apply_results] in Ha.
    destruct (rr !! pi_key info0) as [r0|] eqn:Hr0; [|discriminate].
    destruct (success r0) eqn:Hs0; [destruct (pi_is_cover info0)|];
      destruct (IH _ _ _ _ Ha) as [Hb Hall]; cbn [length];
      (split; [lia|]); intros Hok.
    + rewrite Hall; [lia|]. intros info r Hin. apply Hok, list_elem_of_further, Hin.
    + rewrite Hall; [lia|]. intros info r Hin. apply Hok, list_elem_of_further, Hin.
    + rewrite (Hok info0 r0 (list_elem_of_here _ _) Hr0) in Hs0. discriminate.
Qed.

(** What a call that reports regenerations has gone through. *)
Lemma regenerate_failed_images_returned svc sb failed_page_numbers n m :
  (regenerate_failed_images svc sb failed_page_numbers).1.1
  = Returned (Regenerated n m) ->
  story_structure sb <> ∅ /\
  m = length (pages_to_regenerate sb failed_page_numbers) /\
  exists rr tr,
    regenerate_loop svc (pages_to_regenerate sb failed_page_numbers) ∅
    = (Returned rr, tr) /\
    apply_results rr (pages_to_regenerate sb failed_page_numbers) sb 0
    = Some ((regenerate_failed_images svc sb failed_page_numbers).1.2, n).
Proof.
  unfold regenerate_failed_images. cbv zeta.
  destruct (bool_decide (story_structure sb = ∅)) eqn:Hst; [cbn; discriminate|].
  apply bool_decide_eq_false in Hst.
  destruct (pages_to_regenerate sb failed_page_numbers) as [|info rest] eqn:Htodo;
    [cbn; discriminate|].
  destruct (regenerate_loop svc (info :: rest) ∅) as [[rr|msg] tr] eqn:Hl;
    [|cbn; discriminate].
  destruct (apply_results rr (info :: rest) sb 0) as [[sb' k]|] eqn:Ha;
    cbn [fst snd]; [|discriminate].
  intros H. inversion H; subst. split; [exact Hst|]. split; [reflexivity|].
  exists rr, tr. auto.
Qed.

(** A page after a call that reports regenerations. *)
Lemma regenerated_page svc sb failed_page_numbers n m i e :
  NoDup (Page.page_number <$> pages sb) ->
  (regenerate_failed_images svc sb failed_page_numbers).1.1
  = Returned (Regenerated n m) ->
  pages sb !! i = Some e ->
  let sb' := (regenerate_failed_images svc sb failed_page_numbers).1.2 in
  let info := mk_page_info (page_key (Page.page_number e)) (Page.page_number e)
                (Page.text e) false in
  if negb (Page.success e) && selected failed_page_numbers (Page.page_number e)
  then exists prompt r,
         regen_prompt svc info = Returned prompt /\
         regen_image svc info prompt = Returned r /\
         pages sb' !! i = Some (if success r then update_page e r else e)
  else pages sb' !! i = Some e.
Proof.
  intros Hnd Hret Hi. cbv zeta.
  destruct (regenerate_failed_images_returned _ _ _ _ _ Hret)
    as (_ & _ & rr & tr & Hl & Ha).
  pose proof (pages_to_regenerate_NoDup sb failed_page_numbers Hnd) as Hkeys.
  destruct (regenerate_loop_results _ _ _ _ _ Hl Hkeys) as [Hcalls _].
  assert (Hpk : forall x, x ∈ pages_to_regenerate sb failed_page_numbers ->
                  pi_is_cover x = false -> pi_key x = page_key (pi_page_number x)).
  { intros x Hx. exact (proj1 (pages_to_regenerate_key _ _ _ Hx)). }
  destruct (apply_results_pages _ _ _ _ _ _ Ha Hnd Hkeys Hpk i e Hi) as [Hsame Hupd].
  pose proof (list_elem_of_lookup_2 _ _ _ Hi) as He.
  destruct (negb (Page.success e)
            && selected failed_page_numbers (Page.page_number e)) eqn:Hc.
  - apply andb_true_iff in Hc as [Hs Hsel]. apply negb_true_iff in Hs.
    pose proof (pages_to_regenerate_page_listed sb failed_page_numbers e He Hs Hsel)
      as Hin.
    destruct (Hcalls _ Hin) as (prompt & r & Hp & Himg & Hrr).
    destruct (Hupd _ Hin eq_refl eq_refl) as (r' & Hr' & Hfinal).
    rewrite Hrr in Hr'. inversion Hr'; subst r'.
    exists prompt, r. auto.
  - apply Hsame. intros x Hx Hcx Hn.
    destruct (pages_to_regenerate_page _ _ _ Hx Hcx) as (page & Hp & Hpn & Hps & Hpsel).
    assert (page = e) as ->.
    { apply (NoDup_fmap_eq Page.page_number (pages sb)); [exact Hnd|exact Hp|exact He|].
      rewrite Hpn. exact Hn. }
    rewrite Hps, Hpsel in Hc. discriminate.
Qed.

(** The cover after a call that reports regenerations. *)
Lemma regenerated_cover svc sb failed_page_numbers n m :
  NoDup (Page.page_number <$> pages sb) ->
  (regenerate_failed_images svc sb failed_page_numbers).1.1
  = Returned (Regenerated n m) ->
  let sb' := (regenerate_failed_images svc sb failed_page_numbers).1.2 in
  let info := mk_page_info "cover" 0 (VStr "封面") true in
  if negb (Cover.success (cover sb)) && selected failed_page_numbers 0
  then exists prompt r,
         regen_prompt svc info = Returned prompt /\
         regen_image svc info prompt = Returned r /\
         cover sb' = if success r then update_cover (cover sb) r else cover sb
  else cover sb' = cover sb.
Proof.
  intros Hnd Hret. cbv zeta.
  destruct (regenerate_failed_images_returned _ _ _ _ _ Hret)
    as (_ & _ & rr & tr & Hl & Ha).
  pose proof (pages_to_regenerate_NoDup sb failed_page_numbers Hnd) as Hkeys.
  destruct (regenerate_loop_results _ _ _ _ _ Hl Hkeys) as [Hcalls _].
  assert (Hck : forall x, x ∈ pages_to_regenerate sb failed_page_numbers ->
                  pi_is_cover x = true -> pi_key x = "cover").
  { intros x Hx. exact (proj2 (pages_to_regenerate_key _ _ _ Hx)). }
  destruct (apply_results_cover _ _ _ _ _ _ Ha Hkeys Hck) as [Hsame Hupd].
  destruct (negb (Cover.success (cover sb)) && selected failed_page_numbers 0) eqn:Hc.
  - apply andb_true_iff in Hc as [Hs Hsel]. apply negb_true_iff in Hs.
    pose proof (pages_to_regenerate_cover_listed sb failed_page_numbers Hs Hsel) as Hin.
    destruct (Hcalls _ Hin) as (prompt & r & Hp & Himg & Hrr).
    destruct (Hupd _ Hin eq_refl) as (r' & Hr' & Hfinal).
    rewrite Hrr in Hr'. inversion Hr'; subst r'.
    exists prompt, r. auto.
  - apply Hsame. intros x Hx. destruct (pi_is_cover x) eqn:Hcx; [|reflexivity].
    destruct (pages_to_regenerate_cover _ _ _ Hx Hcx) as [Hs Hsel].
    rewrite Hs, Hsel in Hc. discriminate.
Qed.

(** X15.  When [regenerate_failed_images] reports regenerations on a
    storybook whose pages carry distinct numbers, both services were
    called for every page whose image flag was false and whose number is
    selected, and that page ends as its update by the result of its own
    image call if that call succeeded, and as it was if it did not; the
    same holds for the cover.  The count of regenerated images is at most
    the number attempted, which is at most the number of pages plus one.
    When every image call succeeded, the two counts agree, no entry is
    left to regenerate for the same selection, and a second call, with
    whatever services, reports that there is nothing to regenerate and
    calls nothing. *)
Theorem regeneration_own_results (svc : regen_services) (sb : storybook)
    (failed_page_numbers : option (list Z)) (n m : nat) :
  NoDup (Page.page_number <$> pages sb) ->
  (regenerate_failed_images svc sb failed_page_numbers).1.1
  = Returned (Regenerated n m) ->
  let sb' := (regenerate_failed_images svc sb failed_page_numbers).1.2 in
  (forall i e, pages sb !! i = Some e ->
     Page.success e = false ->
     selected failed_page_numbers (Page.page_number e) = true ->
     let info := mk_page_info (page_key (Page.page_number e)) (Page.page_number e)
                   (Page.text e) false in
     exists prompt r,
       regen_prompt svc info = Returned prompt /\
       regen_image svc info prompt = Returned r /\
       pages sb' !! i = Some (if success r then update_page e r else e)) /\
  (Cover.success (cover sb) = false -> selected failed_page_numbers 0 = true ->
   let info := mk_page_info "cover" 0 (VStr "封面") true in
   exists prompt r,
     regen_prompt svc info = Returned prompt /\
     regen_image svc info prompt = Returned r /\
     cover sb' = if success r then update_cover (cover sb) r else cover sb) /\
  (n <= m <= S (length (pages sb)))%nat /\
  ((forall info prompt r, regen_image svc info prompt = Returned r ->
      success r = true) ->
   n = m /\
   pages_to_regenerate sb' failed_page_numbers = [] /\
   forall svc2,
     regenerate_failed_images svc2 sb' failed_page_numbers
     = (Returned NothingToRegenerate, sb', [])).
Proof.
  intros Hnd Hret. cbv zeta.
  set (sb' := (regenerate_failed_images svc sb failed_page_numbers).1.2).
  assert (Hpage : forall i e, pages sb !! i = Some e ->
            if negb (Page.success e)
               && selected failed_page_numbers (Page.page_number e)
            then exists prompt r,
                   regen_prompt svc
                     (mk_page_info (page_key (Page.page_number e))
                        (Page.page_number e) (Page.text e) false) = Returned prompt /\
                   regen_image svc
                     (mk_page_info (page_key (Page.page_number e))
                        (Page.page_number e) (Page.text e) false) prompt = Returned r /\
                   pages sb' !! i = Some (if success r then update_page e r else e)
            else pages sb' !! i = Some e).
  { intros i e Hi. exact (regenerated_page svc sb failed_page_numbers n m i e Hnd Hret Hi). }
  pose proof (regenerated_cover svc sb failed_page_numbers n m Hnd Hret) as Hcover.
  cbv zeta in Hcover. fold sb' in Hcover.
  destruct (regenerate_failed_images_returned _ _ _ _ _ Hret)
    as (Hst & Hm & rr & tr & Hl & Ha).
  fold sb' in Ha.
  pose proof (pages_to_regenerate_NoDup sb failed_page_numbers Hnd) as Hkeys.
  destruct (regenerate_loop_results _ _ _ _ _ Hl Hkeys) as [Hcalls _].
  destruct (apply_results_count _ _ _ _ _ _ Ha) as [Hbound Hfull].
  split; [|split; [|split]].
  - intros i e Hi Hs Hsel. specialize (Hpage i e Hi).
    rewrite Hs, Hsel in Hpage. exact Hpage.
  - intros Hs Hsel. rewrite Hs, Hsel in Hcover. exact Hcover.
  - pose proof (pages_to_regenerate_length sb failed_page_numbers). lia.
  - intros Hok.
    assert (Hn : n = m).
    { rewrite Hm. apply Hfull. intros info r Hin Hr.
      destruct (Hcalls info Hin) as (prompt & r' & _ & Himg & Hrr).
      rewrite Hrr in Hr. inversion Hr; subst. exact (Hok _ _ _ Himg). }
    assert (Hlen : length (pages sb') = length (pages sb)).
    { pose proof (regenerate_failed_images_numbers svc sb failed_page_numbers) as Hnum.
      fold sb' in Hnum. apply (f_equal length) in Hnum.
      rewrite !length_fmap in Hnum. exact Hnum. }
    assert (Hnone : pages_to_regenerate sb' failed_page_numbers = []).
    { unfold pages_to_regenerate.
      rewrite omap_none_nil.
      - destruct (negb (Cover.success (cover sb)) && selected failed_page_numbers 0)
          eqn:Hc.
        + destruct Hcover as (prompt & r & _ & Himg & Hcov).
          rewrite (Hok _ _ _ Himg) in Hcov. rewrite Hcov. reflexivity.
        + rewrite Hcover, Hc. reflexivity.
      - intros e' He'. apply list_elem_of_lookup in He' as [i Hi'].
        assert (Hlt : (i < length (pages sb))%nat).
        { rewrite <- Hlen. apply lookup_lt_is_Some. eauto. }
        apply lookup_lt_is_Some in Hlt as [e Hi].
        specialize (Hpage i e Hi).
        destruct (negb (Page.success e)
                  && selected failed_page_numbers (Page.page_number e)) eqn:Hc.
        + destruct Hpage as (prompt & r & _ & Himg & Hpg).
          rewrite (Hok _ _ _ Himg), Hi' in Hpg. inversion Hpg; subst. reflexivity.
        + rewrite Hi' in Hpage. inversion Hpage; subst. rewrite Hc. reflexivity. }
    split; [exact Hn|]. split; [exact Hnone|].
    intros svc2. unfold regenerate_failed_images.
    assert (Hss : story_structure sb' = story_structure sb).
    { destruct (apply_results_frame _ _ _ _ _ _ Ha) as [Hframe _].
      rewrite Hframe. reflexivity. }
    rewrite Hss, bool_decide_eq_false_2 by exact Hst.
    cbv zeta. rewrite Hnone. reflexivity.
Qed.

Lemma regeneration_own_results_witness :
  let svc := sample_regen_services in
  let sb := sample_storybook in
  let sb' := (regenerate_failed_images svc sb None).1.2 in
  (forall i e, pages sb !! i = Some e ->
     Page.success e = false ->
     selected None (Page.page_number e) = true ->
     let info := mk_page_info (page_key (Page.page_number e)) (Page.page_number e)
                   (Page.text e) false in
     exists prompt r,
       regen_prompt svc info = Returned prompt /\
       regen_image svc info prompt = Returned r /\
       pages sb' !! i = Some (if success r then update_page e r else e)) /\
  (Cover.success (cover sb) = false -> selected None 0 = true ->
   let info := mk_page_info "cover" 0 (VStr "封面") true in
   exists prompt r,
     regen_prompt svc info = Returned prompt /\
     regen_image svc info prompt = Returned r /\
     cover sb' = if success r then update_cover (cover sb) r else cover sb) /\
  (2 <= 2 <= S (length (pages sb)))%nat /\
  ((forall info prompt r, regen_image svc info prompt = Returned r ->
      success r = true) ->
   2%nat = 2%nat /\
   pages_to_regenerate sb' None = [] /\
   forall svc2,
     regenerate_failed_images svc2 sb' None
     = (Returned NothingToRegenerate, sb', [])).
Proof.
  apply (regeneration_own_results sample_regen_services sample_storybook None 2 2).
  - apply (bool_decide_unpack _). vm_compute. reflexivity.
  - vm_compute. reflexivity.
Defined.

(** ** The pages parsed from the story text *)

Lemma has_char_after_first s c :
  has_char s c = true -> is_Some (after_first c s).
Proof.
  unfold has_char. induction s as [|x s IH]; simpl; [discriminate|].
  rewrite (Z.eqb_sym c x). destruct (x =? c); [eauto|exact IH].
Qed.

Lemma lstrip_head isspace s c :
  head (lstrip isspace s) = Some c -> isspace c = false.
Proof.
  induction s as [|x s IH]; simpl; [discriminate|].
  destruct (isspace x) eqn:Hx; [exact IH|].
  simpl. intros H. inversion H; subst. exact Hx.
Qed.

Lemma lstrip_id isspace s :
  (forall c, head s = Some c -> isspace c = false) -> lstrip isspace s = s.
Proof.
  destruct s as [|x s]; [reflexivity|]. simpl. intros H.
  rewrite (H x eq_refl). reflexivity.
Qed.

Lemma lstrip_last isspace s c :
  (forall d, last s = Some d -> isspace d = false) ->
  last (lstrip isspace s) = Some c -> isspace c = false.
Proof.
  induction s as [|x s IH]; simpl; [discriminate|].
  intros Hlast. destruct (isspace x) eqn:Hx.
  - destruct s as [|y s]; [simpl; discriminate|].
    apply IH. intros d Hd. apply Hlast. exact Hd.
  - intros H. apply Hlast. exact H.
Qed.

Lemma rstrip_last isspace s c :
  last (rstrip isspace s) = Some c -> isspace c = false.
Proof.
  unfold rstrip. rewrite last_reverse. apply lstrip_head.
Qed.

(** What [strip] returns starts and ends with a character that is not
    white space, so that stripping it again changes nothing. *)
Lemma strip_ends isspace s :
  (forall c, head (strip isspace s) = Some c -> isspace c = false) /\
  (forall c, last (strip isspace s) = Some c -> isspace c = false).
Proof.
  unfold strip. split.
  - intros c. apply lstrip_head.
  - intros c. apply lstrip_last. intros d. apply rstrip_last.
Qed.

Lemma strip_id isspace s :
  (forall c, head s = Some c -> isspace c = false) ->
  (forall c, last s = Some c -> isspace c = false) ->
  strip isspace s = s.
Proof.
  intros Hh Hl. unfold strip, rstrip.
  rewrite (lstrip_id isspace (reverse s)).
  - rewrite reverse_involutive. apply lstrip_id, Hh.
  - intros c. rewrite head_reverse. apply Hl.
Qed.

Lemma strip_strip isspace s :
  strip isspace (strip isspace s) = strip isspace s.
Proof. destruct (strip_ends isspace s) as [Hh Hl]. exact (strip_id _ _ Hh Hl). Qed.

Lemma marked_pages_total isspace (P : list Z -> Prop) lines : forall pages,
  (forall s, strip isspace s <> [] -> P (strip isspace s)) ->
  Forall P pages ->
  exists res, marked_pages isspace lines pages = Some res /\ Forall P res.
Proof.
  induction lines as [|line rest IH]; intros pages HP Hpages; simpl.
  - eauto.
  - destruct (startswith (strip isspace line) page_marker
              && has_char line fullwidth_colon) eqn:Hc; [|exact (IH pages HP Hpages)].
    apply andb_true_iff in Hc as [_ Hcolon].
    destruct (has_char_after_first _ _ Hcolon) as [tail ->].
    destruct (strip isspace tail) as [|c page_content] eqn:Hs;
      [exact (IH pages HP Hpages)|].
    apply IH; [exact HP|]. apply Forall_app. split; [exact Hpages|].
    constructor; [|constructor]. rewrite <- Hs. apply HP. rewrite Hs. discriminate.
Qed.

Lemma paragraphs_stripped isspace (P : list Z -> Prop) story_text :
  (forall s, strip isspace s <> [] -> P (strip isspace s)) ->
  Forall P (paragraphs isspace story_text).
Proof.
  intros HP. unfold paragraphs. apply Forall_fmap, Forall_forall.
  intros p Hp. apply list_elem_of_In, filter_In in Hp as [_ Hp].
  cbn. apply HP. destruct (strip isspace p); [discriminate|discriminate].
Qed.

(** X16.  Whatever text the story service returns and whatever
    characters count as white space, [_parse_story_pages] returns
    without an exception at most ten pages, none of them empty and none
    with white space at either end. *)
Theorem parse_story_pages_total (isspace : Z -> bool) (story_text : list Z) :
  exists pages,
    _parse_story_pages isspace story_text = Some pages /\
    (length pages <= 10)%nat /\
    Forall (fun p => p <> [] /\ strip isspace p = p /\
                     (forall c, head p = Some c -> isspace c = false) /\
                     (forall c, last p = Some c -> isspace c = false)) pages.
Proof.
  set (P := fun p : list Z =>
              p <> [] /\ strip isspace p = p /\
              (forall c, head p = Some c -> isspace c = false) /\
              (forall c, last p = Some c -> isspace c = false)).
  assert (HP : forall s, strip isspace s <> [] -> P (strip isspace s)).
  { intros s Hs. split; [exact Hs|]. split; [apply strip_strip|apply strip_ends]. }
  unfold _parse_story_pages.
  destruct (marked_pages_total isspace P (str_split story_text [line_feed]) []
              HP (Forall_nil_2 _)) as (res & -> & Hres).
  cbv zeta. eexists. split; [reflexivity|]. split.
  - rewrite length_take. lia.
  - apply Forall_take. destruct (length res <? 10)%nat; [|exact Hres].
    apply Forall_take, paragraphs_stripped, HP.
Qed.

(** Ten marked lines are taken as the pages; with nine of them the
    marked pages are dropped and the text, which has no blank line, comes
    back as one page. *)
Example parse_story_pages_fallback :
  let isspace c := (c =? 32) || (c =? line_feed) in
  let marked n := page_marker ++ [48 + n; fullwidth_colon; 97 + n] in
  let text k := mjoin ((fun n => marked (Z.of_nat n) ++ [line_feed]) <$> seq 0 k) in
  _parse_story_pages isspace (text 10%nat)
  = Some ((fun n => [97 + Z.of_nat n]) <$> seq 0 10) /\
  length <$> _parse_story_pages isspace (text 9%nat) = Some 1%nat.
Proof. vm_compute. split; reflexivity. Qed.
